(** * ProofOK review server: record lifecycle and notification dispatch

    A shallow embedding of [src/server/server.py] (a Flask application)
    and the properties its specification states about it.

    Layout of the development:
    - [PyStr]    Python [str] values and the [str] methods the server calls;
    - [Json]     the part of the [json] module that [save_record] and
                 [load_record] go through: [json.dump(..., indent=2,
                 ensure_ascii=False)] and [json.load];
    - [Server]   the module constants, the record store, the upload
                 handlers, [email_body] and [respond_form], over an explicit
                 world (files on disk and the trace of calls), and the
                 vocabulary the properties are stated in;
    - [Smtp]     [send_email], call by call, against any mail server;
    - the round trip through [json.dump] and [json.load];
    - the properties C1 to C10 of the specification, and further
      properties X1 to X20 of the code: invariants of the store, what a
      run of submissions leaves, the upload handlers and their paths,
      damaged record files, and the SMTP session;
    - each property at a concrete input. *)

From Stdlib Require Import ZArith NArith Ascii String DecimalString.
From stdpp Require Import base option list gmap.

Local Open Scope N_scope.

(** ** Python strings *)

Module PyStr.

(** A Python [str] is a sequence of Unicode code points. *)
Definition str := list N.

(** A string literal of the source (all of them are ASCII). *)
Definition lit (s : string) : str := map N_of_ascii (list_ascii_of_string s).

(** [a == b] on strings. *)
Definition str_eqb (a b : str) : bool := bool_decide (a = b).

(** [str.isspace] for one code point: CPython's [_PyUnicode_IsWhitespace]. *)
Definition isspace (c : N) : bool :=
  ((9 <=? c) && (c <=? 13)) || ((28 <=? c) && (c <=? 32))
  || (c =? 133) || (c =? 160) || (c =? 5760)
  || ((8192 <=? c) && (c <=? 8202))
  || (c =? 8232) || (c =? 8233) || (c =? 8239) || (c =? 8287) || (c =? 12288).

(** Drop the longest prefix whose code points satisfy [p]. *)
Fixpoint lstrip_with (p : N -> bool) (s : str) : str :=
  match s with
  | [] => []
  | c :: s' => if p c then lstrip_with p s' else s
  end.

Definition rstrip_with (p : N -> bool) (s : str) : str :=
  rev (lstrip_with p (rev s)).

(** [s.strip()]: leading and trailing whitespace removed. *)
Definition strip (s : str) : str := rstrip_with isspace (lstrip_with isspace s).

(** [s.rstrip(chars)]: trailing code points that occur in [chars] removed. *)
Definition rstrip (chars s : str) : str :=
  rstrip_with (fun c => bool_decide (c ∈ chars)) s.

(** [s.replace(old, new)] for a one-character [old], the only way the
    server calls it. *)
Definition replace (old : N) (new s : str) : str :=
  flat_map (fun c => if c =? old then new else [c]) s.

(** [s.startswith(p)] and [s.endswith(p)]. *)
Fixpoint startswith (s p : str) {struct p} : bool :=
  match p, s with
  | [], _ => true
  | _ :: _, [] => false
  | a :: p', b :: s' => (a =? b) && startswith s' p'
  end.

Definition endswith (s p : str) : bool := startswith (rev s) (rev p).

(** Case mapping. On a string of ASCII code points [lower] and [upper] are
    the ASCII maps. On any other string they are the interpreter's Unicode
    case mapping (a table of the runtime, with context rules such as the
    final sigma), taken as parameters [unicode_lower] and [unicode_upper]. *)
Definition is_ascii (c : N) : bool := c <? 128.

Definition ascii_lower (c : N) : N :=
  if (65 <=? c) && (c <=? 90) then c + 32 else c.

Definition ascii_upper (c : N) : N :=
  if (97 <=? c) && (c <=? 122) then c - 32 else c.

Definition lower (unicode_lower : str -> str) (s : str) : str :=
  if forallb is_ascii s then map ascii_lower s else unicode_lower s.

Definition upper (unicode_upper : str -> str) (s : str) : str :=
  if forallb is_ascii s then map ascii_upper s else unicode_upper s.

(** [str(n)] for an [int]. *)
Definition str_of_int (n : Z) : str := lit (NilZero.string_of_int (Z.to_int n)).

(** ["{}".format(x)] where [x] is a [str] or [None]. *)
Definition format_opt (x : option str) : str :=
  match x with
  | Some s => s
  | None => lit "None"
  end.

(** [x or ""] for an optional string. *)
Definition or_empty (x : option str) : str := default [] x.

(** Truth value of a string: non-empty. *)
Definition truthy (s : str) : bool :=
  match s with [] => false | _ => true end.

(** [needle in haystack] as a proposition: a contiguous occurrence. *)
Definition occurs_in (needle haystack : str) : Prop :=
  ∃ pre post, haystack = pre ++ needle ++ post.

(** ** [posixpath] *)

Definition sep : N := 47.

(** [os.path.join(a, b)]. *)
Definition path_join (a b : str) : str :=
  if startswith b [sep] then b
  else if negb (truthy a) || endswith a [sep] then a ++ b
  else a ++ [sep] ++ b.

(** [os.path.split(p)]: the cut after the last separator; trailing
    separators are removed from the head unless it consists of separators
    only. *)
Fixpoint split_last_sep (p : str) : option (str * str) :=
  match p with
  | [] => None
  | c :: p' =>
      match split_last_sep p' with
      | Some (h, t) => Some (c :: h, t)
      | None => if c =? sep then Some ([c], p') else None
      end
  end.

Definition path_split (p : str) : str * str :=
  match split_last_sep p with
  | None => ([], p)
  | Some (h, t) =>
      if forallb (fun c => c =? sep) h then (h, t)
      else (rstrip [sep] h, t)
  end.

(** The last component of the path is empty, ["."] or [".."]. *)
Definition names_directory (path : str) : bool :=
  bool_decide ((path_split path).2 ∈ [[]; lit "."; lit ".."]).

End PyStr.
Export PyStr.

(** ** The [json] module, as far as the record store uses it *)

Module Json.

(** The values a record is made of: [None], [str], [list] and [dict] (kept
    as the list of its items, in insertion order).  Numbers and booleans do
    not occur in a record and are not modelled: [loads] rejects a text that
    contains one. *)
Unset Elimination Schemes.
Inductive json :=
| JNull
| JStr (s : str)
| JArr (items : list json)
| JObj (members : list (str * json)).
Set Elimination Schemes.

Definition quote : N := 34.
Definition backslash : N := 92.
Definition lbrace : N := 123.
Definition rbrace : N := 125.
Definition lbracket : N := 91.
Definition rbracket : N := 93.
Definition comma : N := 44.
Definition colon : N := 58.
Definition space : N := 32.
Definition newline : N := 10.

(** *** Encoder: [json.dumps(v, indent=n, ensure_ascii=False)] *)

Definition hex_digit (n : N) : N := if n <? 10 then 48 + n else 87 + n.

(** ['\\u{0:04x}'.format(c)] *)
Definition escape_u (c : N) : str :=
  [backslash; 117; hex_digit ((c / 4096) mod 16); hex_digit ((c / 256) mod 16);
   hex_digit ((c / 16) mod 16); hex_digit (c mod 16)].

(** [ESCAPE_DCT]: the replacement of one code point matched by [ESCAPE],
    any other code point is copied. *)
Definition escape_char (c : N) : str :=
  if c =? quote then [backslash; quote]
  else if c =? backslash then [backslash; backslash]
  else if c =? 10 then [backslash; 110]
  else if c =? 13 then [backslash; 114]
  else if c =? 9 then [backslash; 116]
  else if c =? 8 then [backslash; 98]
  else if c =? 12 then [backslash; 102]
  else if c <? 32 then escape_u c
  else [c].

Definition encode_basestring (s : str) : str :=
  [quote] ++ flat_map escape_char s ++ [quote].

(** ['\n' + _indent * level] with [_indent = ' ' * indent]. *)
Definition newline_indent (indent level : nat) : str :=
  newline :: repeat space (indent * level).

Fixpoint join_items (separator : str) (chunks : list str) : str :=
  match chunks with
  | [] => []
  | [x] => x
  | x :: rest => x ++ separator ++ join_items separator rest
  end.

(** [_iterencode], its chunks concatenated.  With an indent the item
    separator is [","] and the key separator [": "]. *)
Fixpoint iterencode (indent level : nat) (v : json) : str :=
  match v with
  | JNull => lit "null"
  | JStr s => encode_basestring s
  | JArr [] => lit "[]"
  | JArr items =>
      [lbracket] ++ newline_indent indent (S level)
      ++ join_items (comma :: newline_indent indent (S level))
           (map (iterencode indent (S level)) items)
      ++ newline_indent indent level ++ [rbracket]
  | JObj [] => lit "{}"
  | JObj members =>
      [lbrace] ++ newline_indent indent (S level)
      ++ join_items (comma :: newline_indent indent (S level))
           (map (fun kv => encode_basestring (fst kv) ++ [colon; space]
                           ++ iterencode indent (S level) (snd kv)) members)
      ++ newline_indent indent level ++ [rbrace]
  end.

Definition dumps (indent : nat) (v : json) : str := iterencode indent 0 v.

(** *** Decoder: [json.loads] *)

(** [WHITESPACE]: the characters [" \t\n\r"]. *)
Definition is_ws (c : N) : bool :=
  (c =? 32) || (c =? 9) || (c =? 10) || (c =? 13).

Definition skip_ws (s : str) : str := lstrip_with is_ws s.

Definition hex_value (c : N) : option N :=
  if (48 <=? c) && (c <=? 57) then Some (c - 48)
  else if (97 <=? c) && (c <=? 102) then Some (c - 87)
  else if (65 <=? c) && (c <=? 70) then Some (c - 55)
  else None.

(** Four hexadecimal digits after ["\u"]. *)
Definition decode_uXXXX (a b c d : N) : option N :=
  x1 ← hex_value a; x2 ← hex_value b; x3 ← hex_value c; x4 ← hex_value d;
  Some (((x1 * 16 + x2) * 16 + x3) * 16 + x4).

(** [BACKSLASH]: the one-letter escapes. *)
Definition unescape (c : N) : option N :=
  if c =? quote then Some quote
  else if c =? backslash then Some backslash
  else if c =? 47 then Some 47
  else if c =? 98 then Some 8
  else if c =? 102 then Some 12
  else if c =? 110 then Some 10
  else if c =? 114 then Some 13
  else if c =? 116 then Some 9
  else None.

Definition is_high_surrogate (u : N) : bool := (55296 <=? u) && (u <=? 56319).
Definition is_low_surrogate (u : N) : bool := (56320 <=? u) && (u <=? 57343).

(** [scanstring] in strict mode, called after the opening quote: the
    decoded string and the text after the closing quote. *)
Fixpoint scanstring (s : str) : option (str * str) :=
  match s with
  | [] => None
  | c :: s1 =>
      if c =? quote then Some ([], s1)
      else if c =? backslash then
        match s1 with
        | [] => None
        | e :: s2 =>
            if e =? 117 then
              match s2 with
              | h1 :: h2 :: h3 :: h4 :: s3 =>
                  uni ← decode_uXXXX h1 h2 h3 h4;
                  let single := p ← scanstring s3; Some (uni :: p.1, p.2) in
                  if is_high_surrogate uni then
                    match s3 with
                    | b :: u :: l1 :: l2 :: l3 :: l4 :: s4 =>
                        if (b =? backslash) && (u =? 117) then
                          match decode_uXXXX l1 l2 l3 l4 with
                          | Some uni2 =>
                              if is_low_surrogate uni2 then
                                p ← scanstring s4;
                                Some (65536 + (uni - 55296) * 1024 + (uni2 - 56320) :: p.1, p.2)
                              else single
                          | None => None
                          end
                        else single
                    | _ => single
                    end
                  else single
              | _ => None
              end
            else
              ch ← unescape e; p ← scanstring s2; Some (ch :: p.1, p.2)
        end
      else if c <? 32 then None
      else p ← scanstring s1; Some (c :: p.1, p.2)
  end.

(** [scan_once] with [JSONArray] and [JSONObject].  Each call spends one
    unit of [fuel]; [loads] supplies the length of the text, which no run
    exhausts because every call consumes a character. *)
Fixpoint scan_once (fuel : nat) (s : str) {struct fuel} : option (json * str) :=
  match fuel with
  | O => None
  | S n =>
      match s with
      | [] => None
      | c :: s1 =>
          if c =? quote then p ← scanstring s1; Some (JStr p.1, p.2)
          else if c =? lbrace then
            match skip_ws s1 with
            | [] => None
            | c1 :: s2 =>
                if c1 =? rbrace then Some (JObj [], s2)
                else p ← object_members n (c1 :: s2); Some (JObj p.1, p.2)
            end
          else if c =? lbracket then
            match skip_ws s1 with
            | [] => None
            | c1 :: s2 =>
                if c1 =? rbracket then Some (JArr [], s2)
                else p ← array_items n (c1 :: s2); Some (JArr p.1, p.2)
            end
          else if startswith s (lit "null") then Some (JNull, drop 4 s)
          else None
      end
  end
with array_items (fuel : nat) (s : str) {struct fuel} : option (list json * str) :=
  match fuel with
  | O => None
  | S n =>
      p ← scan_once n s;
      match skip_ws p.2 with
      | [] => None
      | c :: s1 =>
          if c =? rbracket then Some ([p.1], s1)
          else if c =? comma then
            q ← array_items n (skip_ws s1); Some (p.1 :: q.1, q.2)
          else None
      end
  end
with object_members (fuel : nat) (s : str) {struct fuel}
  : option (list (str * json) * str) :=
  match fuel with
  | O => None
  | S n =>
      match s with
      | [] => None
      | c :: s1 =>
          if c =? quote then
            k ← scanstring s1;
            match skip_ws k.2 with
            | [] => None
            | c1 :: s2 =>
                if c1 =? colon then
                  p ← scan_once n (skip_ws s2);
                  match skip_ws p.2 with
                  | [] => None
                  | c2 :: s3 =>
                      if c2 =? rbrace then Some ([(k.1, p.1)], s3)
                      else if c2 =? comma then
                        q ← object_members n (skip_ws s3);
                        Some ((k.1, p.1) :: q.1, q.2)
                      else None
                  end
                else None
            end
          else None
      end
  end.

(** [json.loads(s)]: a leading byte order mark and trailing data other
    than whitespace are errors ([None]). *)
Definition loads (s : str) : option json :=
  if startswith s [65279] then None
  else
    p ← scan_once (length s) (skip_ws s);
    match skip_ws p.2 with
    | [] => Some p.1
    | _ :: _ => None
    end.

(** [d[key]] on the items of a dict built from the parsed pairs: the last
    pair with that key is the one the dict holds. *)
Fixpoint dict_get (key : str) (members : list (str * json)) : option json :=
  match members with
  | [] => None
  | (k, v) :: rest =>
      match dict_get key rest with
      | Some v' => Some v'
      | None => if str_eqb k key then Some v else None
      end
  end.

End Json.
Export Json.

(** ** The server *)

Module Server.

(** *** Data model *)

(** A decision event, the dict built in [respond_form].  ["ip"] is [None]
    when the request has neither an [X-Forwarded-For] header nor a remote
    address. *)
Record event := Event {
  ts_utc : str;
  decision : str;
  comment : str;
  viewer_name : str;
  viewer_email : str;
  ip : option str;
}.

(** A submission record, the dict built by the upload handlers. *)
Record record := Record_ {
  token : str;
  original_name : str;
  stored_name : str;
  created_utc : str;
  status : str;
  responses : list event;
}.

(** The module-level constants, as they are after the import of the
    module has read the environment. *)
Record config := Config {
  SMTP_HOST : str;
  SMTP_PORT : Z;
  SMTP_TIMEOUT : Z;
  EMAIL_MODE : str;
  BASE_URL_OVERRIDE : str;
  BASE_DIR : str;
}.

Definition UPLOAD_DIR (cfg : config) : str := path_join (BASE_DIR cfg) (lit "uploads").
Definition DATA_DIR (cfg : config) : str := path_join (BASE_DIR cfg) (lit "data").

(** What a handler reads from Flask's [request].  An uploaded file is its
    name, its bytes and what its [save] method does with a path that the
    file system does not take (a name longer than it allows, an embedded
    NUL, ...): the exception that [open(path, "wb")] raises there. *)
Record file_storage := FileStorage {
  filename : str;
  content : list N;
  save_error : str -> option str;
}.

Record request := Request {
  files_file : option file_storage;
  form_original_name : option str;
  form_decision : option str;
  form_comment : option str;
  form_viewer_name : option str;
  form_viewer_email : option str;
  header_x_forwarded_for : option str;
  remote_addr : option str;
  host_url : str;
}.

(** What a handler returns: the template it renders (or the JSON body it
    sends) with the arguments it passes, [version] left out. *)
Inductive response :=
| uploaded_html (ok : bool) (message url tok name : option str)
| api_json_error (error : str) (code : Z)
| api_json_ok (tok url : str)
| result_html (ok : bool) (message : str) (warning : option str)
    (tok name : str).

(** An exception raised by [send_email]: whether its class is the builtin
    [TimeoutError] (or a subclass), and [str(e)]. *)
Record exn := Exn {
  is_TimeoutError : bool;
  exn_str : str;
}.

(** How the outbound channel behaves on one [send_email] call: it returns,
    it raises, or it is still running [SMTP_TIMEOUT] seconds after the
    call (and then ends with [final]). *)
Inductive send_outcome :=
| Sent
| Failed (e : exn)
| Running (final : option exn).

Definition channel := str -> str -> str -> send_outcome.

(** The calls a test double would count, in program order. *)
Inductive call :=
| SaveRecord (tok : str) (rec : record)
| FileSave (path : str)
| EmailBody (rec : record) (dec : str) (ev : event)
| SendEmail (subject html text : str).

(** The world a handler runs in: the text files of [DATA_DIR] and the
    uploaded files of [UPLOAD_DIR], by path, and the trace of calls.  The two
    directories are kept apart: a token is twelve digits of a UUID or one
    segment of a URL (Flask's [<token>] matches no ["/"]), so no path under
    one directory names a file of the other.  A text file is kept as the
    code points written to it (the UTF-8 codec of the file object is the
    runtime's and is the identity on Unicode text). *)
Record world := World {
  files : gmap str str;
  blobs : gmap str (list N);
  calls : list call;
}.

Definition initial_world : world := World ∅ ∅ [].

(** A handler returns or raises, and leaves a world. *)
Inductive result (A : Type) :=
| Return (a : A)
| Raise (what : str).
Arguments Return {A} a.
Arguments Raise {A} what.

Definition M (A : Type) : Type := world -> result A * world.

Definition ret {A} (a : A) : M A := fun w => (Return a, w).

Definition bind {A B} (m : M A) (k : A -> M B) : M B :=
  fun w =>
    match m w with
    | (Return a, w') => k a w'
    | (Raise e, w') => (Raise e, w')
    end.

Definition raise {A} (what : str) : M A := fun w => (Raise what, w).

Definition trace (c : call) : M unit :=
  fun w => (Return tt, World (files w) (blobs w) (calls w ++ [c])).

Notation "'let*' x ':=' m 'in' k" := (bind m (fun x => k))
  (at level 10, x name, m at level 100, k at level 200).
Notation "'do' m 'in' k" := (bind m (fun _ => k))
  (at level 10, m at level 100, k at level 200).

(** *** Records as JSON *)

Definition json_of_ip (x : option str) : json :=
  match x with
  | Some s => JStr s
  | None => JNull
  end.

Definition json_of_event (e : event) : json :=
  JObj [ (lit "ts_utc", JStr (ts_utc e));
         (lit "decision", JStr (decision e));
         (lit "comment", JStr (comment e));
         (lit "viewer_name", JStr (viewer_name e));
         (lit "viewer_email", JStr (viewer_email e));
         (lit "ip", json_of_ip (ip e)) ].

Definition json_of_record (r : record) : json :=
  JObj [ (lit "token", JStr (token r));
         (lit "original_name", JStr (original_name r));
         (lit "stored_name", JStr (stored_name r));
         (lit "created_utc", JStr (created_utc r));
         (lit "status", JStr (status r));
         (lit "responses", JArr (map json_of_event (responses r))) ].

(** Reading a parsed dict back as a record.  A dict of another shape is
    never written by [save_record]; the handlers would stop on it with a
    [KeyError], here [load_record] does. *)
Definition get_str (key : string) (m : list (str * json)) : option str :=
  match dict_get (lit key) m with
  | Some (JStr s) => Some s
  | _ => None
  end.

Definition ip_of_json (m : list (str * json)) : option (option str) :=
  match dict_get (lit "ip") m with
  | Some (JStr s) => Some (Some s)
  | Some JNull => Some None
  | _ => None
  end.

Definition event_of_json (v : json) : option event :=
  match v with
  | JObj m =>
      a ← get_str "ts_utc" m; b ← get_str "decision" m;
      c ← get_str "comment" m; d ← get_str "viewer_name" m;
      e ← get_str "viewer_email" m; f ← ip_of_json m;
      Some (Event a b c d e f)
  | _ => None
  end.

Definition record_of_json (v : json) : option record :=
  match v with
  | JObj m =>
      a ← get_str "token" m; b ← get_str "original_name" m;
      c ← get_str "stored_name" m; d ← get_str "created_utc" m;
      e ← get_str "status" m;
      f ← match dict_get (lit "responses") m with
          | Some (JArr l) => mapM event_of_json l
          | _ => None
          end;
      Some (Record_ a b c d e f)
  | _ => None
  end.

(** *** Text files *)

(** Reading in text mode: ["\r\n"] and ["\r"] come back as ["\n"]. *)
Fixpoint universal_newlines (s : str) : str :=
  match s with
  | [] => []
  | c :: s1 =>
      if c =? 13 then
        match s1 with
        | [] => [10]
        | d :: s2 =>
            if d =? 10 then 10 :: universal_newlines s2
            else 10 :: universal_newlines s1
        end
      else c :: universal_newlines s1
  end.

(** The record a stored text stands for. *)
Definition parse_record (text : str) : option record :=
  loads (universal_newlines text) ≫= record_of_json.

(** What [save_record] asks of its arguments: [open] takes the path and
    the file object, which encodes as UTF-8, takes the text.  UTF-8 takes
    every code point but the surrogates.  [open] takes, as the name of a
    file in a directory that is there, one path segment without NUL that
    the file system encoding takes and that has at most 255 bytes, the
    limit of the usual POSIX file systems. *)
Definition encodable (s : str) : bool :=
  forallb (fun c => (c <? 55296) || ((57343 <? c) && (c <=? 1114111))) s.

Definition utf8_length (s : str) : N :=
  fold_right
    (fun c n =>
       (if c <? 128 then 1 else if c <? 2048 then 2
        else if c <? 65536 then 3 else 4) + n)
    0 s.

Definition usable_token (tok : str) : bool :=
  forallb (fun c => negb (c =? sep) && negb (c =? 0)) tok
  && encodable tok
  && (utf8_length (tok ++ lit ".json") <=? 255).

(** *** Handlers *)

Section Handlers.

(** The module constants, the interpreter's case mapping outside ASCII, and
    whether [concurrent.futures.TimeoutError] is the builtin [TimeoutError]
    (it is from Python 3.11 on). *)
Variable cfg : config.
Variable unicode_lower unicode_upper : str -> str.
Variable FuturesTimeout_is_TimeoutError : bool.

Definition VERSION : str := lit "proofok-clean-v1".

Definition base_url (req : request) : str :=
  if truthy (BASE_URL_OVERRIDE cfg) then BASE_URL_OVERRIDE cfg
  else rstrip [sep]
         (if truthy (host_url req) then host_url req
          else lit "http://127.0.0.1:5000/").

Definition record_path (tok : str) : str :=
  path_join (DATA_DIR cfg) (tok ++ lit ".json").

(** [save_record] on a token and a record as the handlers pass them: a
    token that [open] takes and text that the UTF-8 writer takes
    ([usable_token], [encodable]). *)
Definition save_record (tok : str) (rec : record) : M unit :=
  do trace (SaveRecord tok rec) in
  fun w =>
    (Return tt,
     World (<[record_path tok := dumps 2 (json_of_record rec)]> (files w))
           (blobs w) (calls w)).

(** [load_record] on the files that [save_record] writes and on text that
    [json.load] refuses.  A file that holds another JSON value, which no
    handler writes, is not covered: it is refused here as well. *)
Definition load_record (tok : str) : M (option record) :=
  fun w =>
    match files w !! record_path tok with
    | None => (Return None, w)
    | Some text =>
        match parse_record text with
        | Some rec => (Return (Some rec), w)
        | None => (Raise (lit "JSONDecodeError"), w)
        end
    end.

(** [file.save(pdf_path)] opens the path for writing and copies the bytes.
    A path whose last component is empty, ["."] or [".."] names a directory
    and the open raises; so it does on a path the file system does not
    take, and then nothing is written. *)
Definition file_save (file : file_storage) (path : str) : M unit :=
  do trace (FileSave path) in
  if names_directory path then raise (lit "IsADirectoryError")
  else
    match save_error file path with
    | Some e => raise e
    | None =>
        fun w =>
          (Return tt,
           World (files w) (<[path := content file]> (blobs w)) (calls w))
    end.

(** [send_email]: the call is traced, the channel decides how it ends. *)
Definition send_email (smtp : channel) (subject html text : str)
  : M send_outcome :=
  do trace (SendEmail subject html text) in
  ret (smtp subject html text).

(** [original_name.replace("/", "_").replace("\\", "_")] *)
Definition safe_name_of (name : str) : str :=
  replace backslash (lit "_") (replace sep (lit "_") name).

(** [not file or not file.filename.lower().endswith(".pdf")] *)
Definition not_a_pdf (file : option file_storage) : bool :=
  match file with
  | None => true
  | Some f =>
      negb (truthy (filename f))
      || negb (endswith (lower unicode_lower (filename f)) (lit ".pdf"))
  end.

(** The body shared, line for line, by [upload_post] and [api_upload]
    between the choice of [original_name] and [save_record]. [uuid4_hex]
    is [uuid.uuid4().hex] and [now] is [utcnow().isoformat()]. *)
Definition store_upload (f : file_storage) (name uuid4_hex now : str)
  : M record :=
  let tok := take 12 uuid4_hex in
  let token_dir := path_join (UPLOAD_DIR cfg) tok in
  let safe_name := safe_name_of name in
  let pdf_path := path_join token_dir safe_name in
  do file_save f pdf_path in
  let rec := Record_ tok name safe_name (now ++ lit "Z") (lit "pending") [] in
  do save_record tok rec in
  ret rec.

Definition upload_post (req : request) (uuid4_hex now : str) : M response :=
  if not_a_pdf (files_file req) then
    ret (uploaded_html false (Some (lit "Please choose a .pdf file.")) None None None)
  else
    match files_file req with
    | None => raise (lit "AttributeError")
    | Some f =>
        let* rec := store_upload f (filename f) uuid4_hex now in
        let proof_link := base_url req ++ lit "/proof/" ++ token rec in
        ret (uploaded_html true None (Some proof_link) (Some (token rec))
               (Some (original_name rec)))
    end.

Definition api_upload (req : request) (uuid4_hex now : str) : M response :=
  if not_a_pdf (files_file req) then
    ret (api_json_error (lit "Please upload a .pdf file") 400)
  else
    match files_file req with
    | None => raise (lit "AttributeError")
    | Some f =>
        let name := default (filename f) (form_original_name req) in
        let* rec := store_upload f name uuid4_hex now in
        let url := base_url req ++ lit "/proof/" ++ token rec in
        ret (api_json_ok (token rec) url)
    end.

Definition email_body (req : request) (rec : record) (dec : str) (ev : event)
  : str * str * str :=
  let proof_url := base_url req ++ lit "/proof/" ++ token rec in
  let subject :=
    lit "[Proof] " ++ original_name rec ++ lit " -- "
    ++ upper unicode_upper dec in
  let text :=
    lit "Proof decision received." ++ [10; 10]
    ++ lit "File: " ++ original_name rec ++ [10]
    ++ lit "Link: " ++ proof_url ++ [10]
    ++ lit "Decision: " ++ dec ++ [10]
    ++ lit "Name: " ++ viewer_name ev ++ [10]
    ++ lit "Email: " ++ viewer_email ev ++ [10]
    ++ lit "Comment:" ++ [10] ++ comment ev ++ [10; 10]
    ++ lit "Time (UTC): " ++ ts_utc ev ++ [10]
    ++ lit "IP: " ++ format_opt (ip ev) ++ [10] in
  let html :=
    lit "<h2>Proof decision received</h2>"
    ++ lit "<p><b>File:</b> " ++ original_name rec ++ lit "</p>"
    ++ lit "<p><b>Link:</b> <a href='" ++ proof_url ++ lit "'>" ++ proof_url
    ++ lit "</a></p>"
    ++ lit "<p><b>Decision:</b> " ++ dec ++ lit "</p>"
    ++ lit "<p><b>Name:</b> " ++ viewer_name ev ++ lit " &lt;"
    ++ viewer_email ev ++ lit "&gt;</p>"
    ++ lit "<p><b>Comment:</b><br>" ++ replace 10 (lit "<br>") (comment ev)
    ++ lit "</p>"
    ++ lit "<p><small>Time (UTC): " ++ ts_utc ev ++ lit " | IP: "
    ++ format_opt (ip ev) ++ lit "</small></p>" in
  (subject, html, text).

(** The two warnings of [respond_form]. *)
Definition warning_failed (e : exn) : str :=
  lit "Email send failed (" ++ SMTP_HOST cfg ++ lit ":"
  ++ str_of_int (SMTP_PORT cfg) ++ lit "): " ++ exn_str e.

Definition warning_background : str :=
  lit "Email is sending in background (timeout "
  ++ str_of_int (SMTP_TIMEOUT cfg) ++ lit "s).".

(** The [else] branch of the [EMAIL_MODE] test: compose, send, and turn
    what happens into the warning. *)
Definition notify (req : request) (smtp : channel) (rec : record)
    (dec : str) (ev : event) : M str :=
  do trace (EmailBody rec dec ev) in
  let '(subj, html, text) := email_body req rec dec ev in
  let* out := send_email smtp subj html text in
  if str_eqb (EMAIL_MODE cfg) (lit "sync") then
    match out with
    | Sent | Running None => ret []
    | Failed e | Running (Some e) => ret (warning_failed e)
    end
  else
    match out with
    | Sent => ret []
    | Running _ => ret warning_background
    | Failed e =>
        if FuturesTimeout_is_TimeoutError && is_TimeoutError e
        then ret warning_background
        else ret (warning_failed e)
    end.

Definition respond_form (tok : str) (req : request) (now : str)
    (smtp : channel) : M response :=
  let* found := load_record tok in
  match found with
  | None =>
      ret (result_html false (lit "This proof link was not found.") None tok [])
  | Some rec =>
      let dec := lower unicode_lower (or_empty (form_decision req)) in
      let comment := strip (or_empty (form_comment req)) in
      let viewer_name := strip (or_empty (form_viewer_name req)) in
      let viewer_email := strip (or_empty (form_viewer_email req)) in
      if negb (str_eqb dec (lit "approved") || str_eqb dec (lit "rejected")) then
        ret (result_html false (lit "Invalid decision.") None tok
               (original_name rec))
      else if str_eqb dec (lit "rejected") && negb (truthy comment) then
        ret (result_html false (lit "Please add a comment when rejecting.")
               None tok (original_name rec))
      else
        let ip :=
          match header_x_forwarded_for req with
          | Some a => Some a
          | None => remote_addr req
          end in
        let ev := Event (now ++ lit "Z") dec comment viewer_name viewer_email ip in
        let rec' :=
          Record_ (token rec) (original_name rec) (stored_name rec)
            (created_utc rec) dec (responses rec ++ [ev]) in
        do save_record tok rec' in
        let* warning :=
          (if str_eqb (EMAIL_MODE cfg) (lit "off") then ret []
           else notify req smtp rec' dec ev) in
        ret (result_html true (lit "Thank you. Your decision was recorded.")
               (Some warning) tok (original_name rec'))
  end.

(** What [proof_page] returns: the template with its arguments
    ([url_for("serve_pdf", token=..., filename=...)] kept as its two
    arguments), or [abort(code)]. *)
Inductive proof_response :=
| proof_html (tok name : str) (pdf_url : str * str) (base : str)
| abort (code : Z).

Definition proof_page (tok : str) (req : request) : M proof_response :=
  let* found := load_record tok in
  match found with
  | None => ret (abort 404)
  | Some rec =>
      ret (proof_html tok (original_name rec) (tok, stored_name rec)
             (base_url req))
  end.

(** *** Vocabulary of the specification *)

(** The status the history stands for: the decision of the last event, or
    ["pending"]. *)
Definition derived_status (history : list event) : str :=
  match last history with
  | Some ev => decision ev
  | None => lit "pending"
  end.

(** The world after [save_record]. *)
Definition saved (tok : str) (rec : record) (w : world) : world :=
  World (<[record_path tok := dumps 2 (json_of_record rec)]> (files w))
        (blobs w) (calls w ++ [SaveRecord tok rec]).

(** Every stored text that reads as a record has the status its history
    stands for. *)
Definition store_consistent (w : world) : Prop :=
  forall path text rec,
    files w !! path = Some text ->
    parse_record text = Some rec ->
    status rec = derived_status (responses rec).

(** [uuid.uuid4().hex]: thirty-two lowercase hexadecimal digits. *)
Definition is_hex_digit (c : N) : bool :=
  ((48 <=? c) && (c <=? 57)) || ((97 <=? c) && (c <=? 102)).

Definition is_uuid_hex (s : str) : bool :=
  (length s =? 32)%nat && forallb is_hex_digit s.

(** One character of a stored name: ["_"] for ["/"] and for ["\\"]. *)
Definition underscore_separators (c : N) : N :=
  if (c =? sep) || (c =? backslash) then 95 else c.

(** The public operations that change the world, with any input
    ([proof_page] and [serve_pdf] only read). *)
Inductive step : world -> world -> Prop :=
| step_upload_post req uuid4_hex now w :
    step w (upload_post req uuid4_hex now w).2
| step_api_upload req uuid4_hex now w :
    step w (api_upload req uuid4_hex now w).2
| step_respond_form tok req now smtp w :
    step w (respond_form tok req now smtp w).2.

Inductive reachable : world -> Prop :=
| reachable_initial : reachable initial_world
| reachable_step w w' : reachable w -> step w w' -> reachable w'.

(** The [decision] and [comment] variables of [respond_form]. *)
Definition submitted_decision (req : request) : str :=
  lower unicode_lower (or_empty (form_decision req)).

Definition submitted_comment (req : request) : str :=
  strip (or_empty (form_comment req)).

(** A valid submission: approved, or rejected with a comment. *)
Definition valid_submission (req : request) : Prop :=
  submitted_decision req = lit "approved"
  \/ (submitted_decision req = lit "rejected" /\ submitted_comment req <> []).

(** The event a submission stands for and the record after it. *)
Definition submitted_event (req : request) (now : str) : event :=
  Event (now ++ lit "Z") (submitted_decision req) (submitted_comment req)
    (strip (or_empty (form_viewer_name req)))
    (strip (or_empty (form_viewer_email req)))
    (match header_x_forwarded_for req with
     | Some a => Some a
     | None => remote_addr req
     end).

Definition decided (rec : record) (ev : event) : record :=
  Record_ (token rec) (original_name rec) (stored_name rec) (created_utc rec)
    (decision ev) (responses rec ++ [ev]).

(** The pages of [respond_form], under the names of the specification. *)
Definition RecordNotFound (tok : str) : response :=
  result_html false (lit "This proof link was not found.") None tok [].

Definition InvalidDecision (tok : str) (rec : record) : response :=
  result_html false (lit "Invalid decision.") None tok (original_name rec).

Definition CommentRequired (tok : str) (rec : record) : response :=
  result_html false (lit "Please add a comment when rejecting.") None tok
    (original_name rec).

Definition Recorded (tok : str) (rec : record) (warning : str) : response :=
  result_html true (lit "Thank you. Your decision was recorded.")
    (Some warning) tok (original_name rec).

(** What [respond_form] observes of a send: nothing wrong, or a failure or
    a timeout.  In ["sync"] mode a slow send is waited for; otherwise the
    wait ends after [SMTP_TIMEOUT] seconds. *)
Definition send_went_wrong (out : send_outcome) : bool :=
  match out with
  | Sent => false
  | Failed _ => true
  | Running final =>
      if str_eqb (EMAIL_MODE cfg) (lit "sync")
      then match final with Some _ => true | None => false end
      else true
  end.

(** An event as [respond_form] lets it into a history: approved, or
    rejected with a comment, and its three texts stripped. *)
Definition event_well_formed (ev : event) : Prop :=
  (decision ev = lit "approved"
   \/ (decision ev = lit "rejected" /\ comment ev <> []))
  /\ strip (comment ev) = comment ev
  /\ strip (viewer_name ev) = viewer_name ev
  /\ strip (viewer_email ev) = viewer_email ev.

(** Tokens that are one path segment start with no separator. *)
Definition segment (tok : str) : Prop := startswith tok [sep] = false.

(** A run of decision submissions, for any tokens, one after the other. *)
Record submission := Submission {
  sub_token : str;
  sub_request : request;
  sub_now : str;
  sub_channel : channel;
}.

Fixpoint after_submissions (subs : list submission) (w : world) : world :=
  match subs with
  | [] => w
  | s :: rest =>
      after_submissions rest
        (respond_form (sub_token s) (sub_request s) (sub_now s)
           (sub_channel s) w).2
  end.

#[global] Instance valid_submission_decision (req : request) :
  Decision (valid_submission req).
Proof. unfold valid_submission. apply _. Defined.

(** The events of the valid submissions for [tok] in a run, in order. *)
Definition events_for (tok : str) (subs : list submission) : list event :=
  map (fun s => submitted_event (sub_request s) (sub_now s))
    (filter (fun s => sub_token s = tok /\ valid_submission (sub_request s)) subs).

End Handlers.

End Server.
Export Server.

(** ** [send_email] and the SMTP session *)

(** [send_email] as the source has it, call by call.  What [smtplib] and
    the network do is the [server]: it says, after the calls made so far,
    whether the last one raises.  The [Server] module keeps only the
    outcome of the whole function, as a [channel]. *)
Module Smtp.

(** The constants of the module that only [send_email] reads. *)
Record mail_config := MailConfig {
  SMTP_USER : str;
  SMTP_PASS : str;
  FROM_EMAIL : str;
  TO_EMAIL : str;
  SMTP_SSL : bool;
}.

(** The [MIMEMultipart("alternative")] message: its headers and its parts,
    each a subtype and a payload, in the order they are attached. *)
Record message := Message {
  Subject : str;
  From : str;
  To : str;
  Date : str;
  parts : list (str * str);
}.

(** The calls on [smtplib]: the constructor ([SMTP_SSL] or [SMTP]), the
    methods, and [__exit__] at the end of the [with] block. *)
Inductive smtp_call :=
| connect (ssl : bool) (host : str) (port timeout : Z)
| ehlo
| starttls
| login (user password : str)
| send_message (msg : message)
| exit.

Definition server := list smtp_call -> option exn.

Inductive outcome (A : Type) :=
| Done (a : A)
| Raised (e : exn).
Arguments Done {A} a.
Arguments Raised {A} e.

(** A piece of the session: from the calls made so far to the outcome and
    the calls made then. *)
Definition session (A : Type) : Type := list smtp_call -> outcome A * list smtp_call.

Definition pass : session unit := fun h => (Done tt, h).

Definition seq (m k : session unit) : session unit :=
  fun h =>
    match m h with
    | (Done _, h') => k h'
    | (Raised e, h') => (Raised e, h')
    end.

Definition call (srv : server) (c : smtp_call) : session unit :=
  fun h =>
    match srv (h ++ [c]) with
    | None => (Done tt, h ++ [c])
    | Some e => (Raised e, h ++ [c])
    end.

(** [try: m except Exception: pass] *)
Definition try_pass (m : session unit) : session unit :=
  fun h =>
    match m h with
    | (Raised _, h') => (Done tt, h')
    | r => r
    end.

(** [with <constructor> as s: body]: when the constructor returns, the
    body runs and then [__exit__], also when the body raises; an exception
    of [__exit__] is the one that is left. *)
Definition with_smtp (srv : server) (constructor : smtp_call)
    (body : session unit) : session unit :=
  fun h =>
    match call srv constructor h with
    | (Raised e, h1) => (Raised e, h1)
    | (Done _, h1) =>
        match body h1 with
        | (r, h2) =>
            match call srv exit h2 with
            | (Raised e, h3) => (Raised e, h3)
            | (Done _, h3) => (r, h3)
            end
        end
    end.

Section SendEmail.

Variable cfg : config.
Variable mail : mail_config.
Variable srv : server.

(** [date] is [formatdate(localtime=True)]. *)
Definition build_message (date subject html text : str) : message :=
  Message subject (FROM_EMAIL mail) (TO_EMAIL mail) date
    [(lit "plain", text); (lit "html", html)].

Definition login_if_user : session unit :=
  if truthy (SMTP_USER mail)
  then call srv (login (SMTP_USER mail) (SMTP_PASS mail))
  else pass.

Definition send_email (date subject html text : str) : session unit :=
  let msg := build_message date subject html text in
  if SMTP_SSL mail then
    with_smtp srv
      (connect true (SMTP_HOST cfg) (SMTP_PORT cfg) (SMTP_TIMEOUT cfg))
      (seq login_if_user (call srv (send_message msg)))
  else
    with_smtp srv
      (connect false (SMTP_HOST cfg) (SMTP_PORT cfg) (SMTP_TIMEOUT cfg))
      (seq (call srv ehlo)
         (seq (try_pass (seq (call srv starttls) (call srv ehlo)))
            (seq login_if_user (call srv (send_message msg))))).

(** The [channel] this server is for [respond_form] when the session ends
    within the wait: [respond_form] sees whether [send_email] returns or
    raises. *)
Definition channel_of (date : str) : channel :=
  fun subject html text =>
    match (send_email date subject html text []).1 with
    | Done _ => Sent
    | Raised e => Failed e
    end.

End SendEmail.

End Smtp.


(** * Proof infrastructure *)

(** Induction on a JSON value, with the hypothesis for every item and
    every member. *)
Definition json_ind (P : json -> Prop)
    (Hnull : P JNull) (Hstr : forall s, P (JStr s))
    (Harr : forall l, Forall P l -> P (JArr l))
    (Hobj : forall m, Forall (fun kv => P kv.2) m -> P (JObj m)) :
  forall v, P v :=
  fix go (v : json) : P v :=
    match v with
    | JNull => Hnull
    | JStr s => Hstr s
    | JArr l =>
        Harr l ((fix all (l : list json) : Forall P l :=
                   match l with
                   | [] => @List.Forall_nil _ P
                   | x :: l' => @List.Forall_cons _ P x l' (go x) (all l')
                   end) l)
    | JObj m =>
        Hobj m ((fix all (m : list (str * json)) : Forall (fun kv => P kv.2) m :=
                   match m with
                   | [] => @List.Forall_nil _ _
                   | kv :: m' =>
                       @List.Forall_cons _ (fun kv => P kv.2) kv m' (go kv.2) (all m')
                   end) m)
    end.

(** The fuel that parsing the encoding of a value needs at most. *)
Fixpoint jsize (v : json) : nat :=
  match v with
  | JNull | JStr _ => 1
  | JArr l => S (list_sum (map (fun x => S (jsize x)) l))
  | JObj m => S (list_sum (map (fun kv => S (jsize kv.2)) m))
  end.

(** The first character of an encoded value or member. *)
Definition value_start (c : N) : bool :=
  (c =? 110) || (c =? quote) || (c =? lbracket) || (c =? lbrace).

Definition item_sep (ind lvl : nat) : str := comma :: newline_indent ind lvl.

Definition member_chunk (ind lvl : nat) (kv : str * json) : str :=
  encode_basestring kv.1 ++ [colon; space] ++ iterencode ind lvl kv.2.

Definition scan_ok (ind : nat) (v : json) : Prop :=
  forall fuel lvl rest,
    (jsize v <= fuel)%nat ->
    scan_once fuel (iterencode ind lvl v ++ rest) = Some (v, rest).

(** A text cut short: a proper prefix of another. *)
Definition cut_inside (p s : str) : Prop := exists k, s = p ++ k /\ k <> [].

(** Parsing a value cut short fails. *)
Definition cut_fails (ind : nat) (v : json) : Prop :=
  forall fuel lvl p, cut_inside p (iterencode ind lvl v) -> scan_once fuel p = None.

Definition starts_value (b : str) : Prop :=
  exists c t, b = c :: t /\ value_start c = true.

(** * Concrete inputs *)

(** The constants of a deployment, in the default mode and in the mode
    without e-mail, and an interpreter whose case mapping outside ASCII is
    the identity. *)
Definition deployment (mode : string) : config :=
  Config (lit "smtp.example.com") 587 10 (lit mode) [] (lit "/srv/app").

Definition cfg_async : config := deployment "async".
Definition cfg_off : config := deployment "off".
Definition no_case_mapping : str -> str := fun s => s.

Definition empty_request (host : string) : request :=
  Request None None None None None None None None (lit host).

(** A file system that takes every path, and one that takes no file name
    of more than 255 characters. *)
Definition takes_every_path : str -> option str := fun _ => None.

Definition takes_short_names : str -> option str :=
  fun path =>
    if (255 <? length (path_split path).2)%nat then Some (lit "OSError")
    else None.

Definition pdf0 : file_storage :=
  FileStorage (lit "a/b\c.PDF") [37; 80; 68; 70] takes_every_path.

Definition upload_request : request :=
  Request (Some pdf0) None None None None None None None
    (lit "http://proofs.example/").

(** A file whose name has 304 characters, on the file system that takes
    no such name. *)
Definition long_pdf : file_storage :=
  FileStorage (repeat 97 300 ++ lit ".pdf") [37; 80; 68; 70] takes_short_names.

Definition long_name_request : request :=
  Request (Some long_pdf) None None None None None None None
    (lit "http://proofs.example/").

Definition decision_request (dec comment : string) (host : string) : request :=
  Request None None (Some (lit dec)) (Some (lit comment)) None
    (Some (lit " ann@example.com ")) None (Some (lit "10.0.0.7")) (lit host).

Definition uuid0 : str := lit "0123456789abcdef0123456789abcdef".
Definition tok0 : str := lit "0123456789ab".

(** A channel that never answers, one whose send is refused, and the
    world after one upload. *)
Definition silent_channel : channel := fun _ _ _ => Running None.

Definition refusing_channel : channel :=
  fun _ _ _ => Failed (Exn false (lit "Connection refused")).

Definition uploaded (cfg : config) : world :=
  (upload_post cfg no_case_mapping upload_request uuid0
     (lit "2024-05-01T10:00:00") initial_world).2.

Definition rec0 : record :=
  Record_ tok0 (lit "a/b\c.PDF") (lit "a_b_c.PDF") (lit "2024-05-01T10:00:00Z")
    (lit "pending") [].

Definition respond (cfg : config) :=
  respond_form cfg no_case_mapping no_case_mapping true.

(** More inputs: channels that return and that raise a [TimeoutError],
    the mail constants of a deployment, a mail server that refuses
    [STARTTLS] and nothing else, the world after an upload and one
    rejection, and a world whose record file was cut short. *)
Definition sending_channel : channel := fun _ _ _ => Sent.

Definition timing_out_channel : channel :=
  fun _ _ _ => Failed (Exn true (lit "timed out")).

Definition mail0 : Smtp.mail_config :=
  Smtp.MailConfig (lit "mailer") (lit "secret") (lit "proofs@example.com")
    (lit "owner@example.com") false.

Definition no_starttls : Smtp.server :=
  fun h =>
    match last h with
    | Some Smtp.starttls =>
        Some (Exn false (lit "STARTTLS extension not supported by server."))
    | _ => None
    end.

Definition rejected_once (cfg : config) : world :=
  (respond cfg tok0 (decision_request "Rejected" "blurry" "http://proofs.example/")
     (lit "2024-05-02T09:30:00") silent_channel (uploaded cfg)).2.

Definition cut_short (cfg : config) : world :=
  let w := uploaded cfg in
  World
    (<[record_path cfg tok0 := take 40 (dumps 2 (json_of_record rec0))]> (files w))
    (blobs w) (calls w).

(** A script's upload that names the file in the form, and a mail server
    that refuses the login. *)
Definition scan_pdf : file_storage :=
  FileStorage (lit "scan.pdf") [37; 80; 68; 70] takes_every_path.

Definition api_request : request :=
  Request (Some scan_pdf) (Some (lit "notes/today.txt")) None None None None None None
    (lit "http://proofs.example/").

Definition refusing_login : Smtp.server :=
  fun h =>
    match last h with
    | Some (Smtp.login _ _) => Some (Exn false (lit "Authentication failed"))
    | _ => None
    end.

(** A run of four submissions: a rejection, a rejection without comment,
    an approval for another token, and an approval. *)
Definition run0 : list submission :=
  [Submission tok0 (decision_request "Rejected" "blurry" "http://proofs.example/")
     (lit "2024-05-02T09:30:00") silent_channel;
   Submission tok0 (decision_request "rejected" "  " "http://proofs.example/")
     (lit "2024-05-02T09:31:00") silent_channel;
   Submission (lit "ffffffffffff")
     (decision_request "approved" "" "http://proofs.example/")
     (lit "2024-05-02T09:32:00") silent_channel;
   Submission tok0 (decision_request "approved" "" "http://proofs.example/")
     (lit "2024-05-03T08:00:00") sending_channel].

(** * The JSON round trip *)

Lemma N_below_32 (P : N -> Prop) :
  Forall P (map N.of_nat (seq 0 32)) -> forall c, c < 32 -> P c.
Proof.
  intros HP c Hc. rewrite Forall_forall in HP. apply HP.
  apply list_elem_of_In, in_map_iff. exists (N.to_nat c). split; [lia|].
  apply in_seq. lia.
Qed.

Lemma list_sum_map_cons {A} (f : A -> nat) a l :
  list_sum (map f (a :: l)) = (f a + list_sum (map f l))%nat.
Proof. reflexivity. Qed.

Lemma scanstring_escape_u c rest :
  c < 32 ->
  scanstring (escape_u c ++ rest) = p ← scanstring rest; Some (c :: p.1, p.2).
Proof.
  revert c.
  apply (N_below_32 (fun c => scanstring (escape_u c ++ rest)
                              = p ← scanstring rest; Some (c :: p.1, p.2))).
  let l := eval vm_compute in (map N.of_nat (seq 0 32)) in
  change (map N.of_nat (seq 0 32)) with l.
  repeat (constructor; [reflexivity|]). constructor.
Qed.

Lemma scanstring_escape_char c rest :
  scanstring (escape_char c ++ rest)
  = p ← scanstring rest; Some (c :: p.1, p.2).
Proof.
  unfold escape_char.
  destruct (N.eqb_spec c quote) as [->|H1]; [reflexivity|].
  destruct (N.eqb_spec c backslash) as [->|H2]; [reflexivity|].
  destruct (N.eqb_spec c 10) as [->|H3]; [reflexivity|].
  destruct (N.eqb_spec c 13) as [->|H4]; [reflexivity|].
  destruct (N.eqb_spec c 9) as [->|H5]; [reflexivity|].
  destruct (N.eqb_spec c 8) as [->|H6]; [reflexivity|].
  destruct (N.eqb_spec c 12) as [->|H7]; [reflexivity|].
  destruct (N.ltb_spec c 32) as [H8|H8].
  - apply scanstring_escape_u, H8.
  - cbn [app scanstring].
    rewrite (proj2 (N.eqb_neq _ _) H1), (proj2 (N.eqb_neq _ _) H2).
    rewrite (proj2 (N.ltb_ge _ _) H8). reflexivity.
Qed.

Lemma scanstring_encode s rest :
  scanstring (flat_map escape_char s ++ quote :: rest) = Some (s, rest).
Proof.
  induction s as [|c s IH]; [reflexivity|].
  cbn [flat_map]. rewrite <- app_assoc, scanstring_escape_char, IH. reflexivity.
Qed.




Lemma iterencode_start ind lvl v :
  exists c t, iterencode ind lvl v = c :: t /\ value_start c = true.
Proof.
  destruct v as [|s|[|x l]|[|kv m]]; cbn; eauto.
Qed.

Lemma skip_ws_indent ind lvl c t :
  is_ws c = false -> skip_ws (newline_indent ind lvl ++ c :: t) = c :: t.
Proof.
  intros Hc. unfold newline_indent, skip_ws. cbn [app lstrip_with].
  change (is_ws newline) with true. cbn iota.
  induction (ind * lvl)%nat as [|n IH]; cbn [repeat app lstrip_with].
  - by rewrite Hc.
  - exact IH.
Qed.

Lemma value_start_not_ws c : value_start c = true -> is_ws c = false.
Proof.
  unfold value_start, is_ws. intros H.
  repeat (apply orb_prop in H as [H|H]); apply N.eqb_eq in H; subst; reflexivity.
Qed.

Lemma skip_ws_start c t : is_ws c = false -> skip_ws (c :: t) = c :: t.
Proof. intros H. unfold skip_ws. cbn. by rewrite H. Qed.

Section Roundtrip.
Variable ind : nat.
Local Abbreviation item_sep := (item_sep ind).
Local Abbreviation member_chunk := (member_chunk ind).
Local Abbreviation scan_ok := (scan_ok ind).



Lemma join_items_start lvl sepr (l : list json) x :
  exists c t, join_items sepr (map (iterencode ind lvl) (x :: l)) = c :: t
              /\ value_start c = true.
Proof.
  destruct (iterencode_start ind lvl x) as (c & t & E & Hc).
  destruct l as [|y l]; cbn [map join_items]; rewrite E; cbn; eauto.
Qed.

Lemma skip_ws_indent_value lvl s rest :
  (exists c t, s = c :: t /\ value_start c = true) ->
  skip_ws (newline_indent ind lvl ++ s ++ rest) = s ++ rest.
Proof.
  intros (c & t & -> & Hc). cbn [app].
  by rewrite skip_ws_indent by (by apply value_start_not_ws).
Qed.

Lemma array_items_ok l :
  Forall scan_ok l -> l <> [] ->
  forall fuel lvl lvl' rest,
    (list_sum (map (fun x => S (jsize x)) l) <= fuel)%nat ->
    array_items fuel
      (join_items (item_sep lvl) (map (iterencode ind lvl) l)
       ++ newline_indent ind lvl' ++ rbracket :: rest)
    = Some (l, rest).
Proof.
  induction 1 as [|x l Hx Hl IH]; [done|]. intros _ fuel lvl lvl' rest Hf.
  rewrite list_sum_map_cons in Hf. destruct fuel as [|n]; [lia|].
  cbn [array_items]. destruct l as [|y l].
  - cbn [map join_items]. rewrite Hx by lia. cbn [mbind option_bind fst snd].
    rewrite skip_ws_indent by reflexivity. reflexivity.
  - change (join_items (item_sep lvl) (map (iterencode ind lvl) (x :: y :: l)))
      with (iterencode ind lvl x ++ item_sep lvl
            ++ join_items (item_sep lvl) (map (iterencode ind lvl) (y :: l))).
    rewrite <- !app_assoc. rewrite Hx by lia. cbn [mbind option_bind fst snd].
    unfold item_sep at 1. cbn [app]. rewrite skip_ws_start by reflexivity.
    change (comma =? rbracket) with false. change (comma =? comma) with true. cbn iota.
    rewrite skip_ws_indent_value by apply join_items_start.
    rewrite IH by (done || lia). reflexivity.
Qed.

Lemma skip_ws_value s rest :
  (exists c t, s = c :: t /\ value_start c = true) ->
  skip_ws (s ++ rest) = s ++ rest.
Proof.
  intros (c & t & -> & Hc). cbn [app].
  by rewrite skip_ws_start by (by apply value_start_not_ws).
Qed.


Lemma member_chunks_start lvl sepr (m : list (str * json)) kv :
  exists c t, join_items sepr (map (member_chunk lvl) (kv :: m)) = c :: t
              /\ value_start c = true.
Proof.
  exists quote.
  destruct m as [|kv' m]; cbn [map join_items]; unfold member_chunk, encode_basestring;
    cbn [app]; eauto.
Qed.

Lemma object_members_ok m :
  Forall (fun kv => scan_ok kv.2) m -> m <> [] ->
  forall fuel lvl lvl' rest,
    (list_sum (map (fun kv => S (jsize kv.2)) m) <= fuel)%nat ->
    object_members fuel
      (join_items (item_sep lvl) (map (member_chunk lvl) m)
       ++ newline_indent ind lvl' ++ rbrace :: rest)
    = Some (m, rest).
Proof.
  induction 1 as [|[k v] m Hx Hm IH]; [done|]. intros _ fuel lvl lvl' rest Hf.
  rewrite list_sum_map_cons in Hf. cbn [snd] in Hf, Hx.
  destruct fuel as [|n]; [lia|].
  assert (Hhead : forall X,
    object_members (S n) (member_chunk lvl (k, v) ++ X)
    = match skip_ws X with
      | [] => None
      | c2 :: s3 =>
          if c2 =? rbrace then Some ([(k, v)], s3)
          else if c2 =? comma then
            q ← object_members n (skip_ws s3); Some ((k, v) :: q.1, q.2)
          else None
      end).
  { intros X. unfold member_chunk, encode_basestring. cbn [fst snd].
    rewrite <- !app_assoc. cbn [app object_members].
    change (quote =? quote) with true. cbn iota.
    rewrite scanstring_encode. cbn [mbind option_bind fst snd].
    rewrite skip_ws_start by reflexivity.
    change (colon =? colon) with true. cbn iota.
    change (skip_ws (space :: ?s)) with (skip_ws s).
    rewrite skip_ws_value by apply iterencode_start.
    rewrite Hx by lia. reflexivity. }
  destruct m as [|kv m].
  - cbn [map join_items]. rewrite Hhead.
    rewrite skip_ws_indent by reflexivity. reflexivity.
  - change (join_items (item_sep lvl) (map (member_chunk lvl) ((k, v) :: kv :: m)))
      with (member_chunk lvl (k, v) ++ item_sep lvl
            ++ join_items (item_sep lvl) (map (member_chunk lvl) (kv :: m))).
    rewrite <- !app_assoc, Hhead.
    unfold item_sep at 1. cbn [app]. rewrite skip_ws_start by reflexivity.
    change (comma =? rbrace) with false. change (comma =? comma) with true. cbn iota.
    rewrite skip_ws_indent_value by apply member_chunks_start.
    rewrite IH by (done || lia). reflexivity.
Qed.

Theorem scan_once_iterencode v : scan_ok v.
Proof.
  induction v as [|s|l IH|m IH] using json_ind; intros fuel lvl rest Hf;
    (destruct fuel as [|n]; [cbn in Hf; lia|]).
  - reflexivity.
  - cbn [iterencode]. unfold encode_basestring. rewrite <- !app_assoc.
    cbn [app scan_once]. change (quote =? quote) with true. cbn iota.
    by rewrite scanstring_encode.
  - destruct l as [|x l]; [reflexivity|].
    change (iterencode ind lvl (JArr (x :: l)))
      with ([lbracket] ++ newline_indent ind (S lvl)
            ++ join_items (item_sep (S lvl)) (map (iterencode ind (S lvl)) (x :: l))
            ++ newline_indent ind lvl ++ [rbracket]).
    rewrite <- !app_assoc. cbn [app scan_once].
    change (lbracket =? quote) with false. change (lbracket =? lbrace) with false.
    change (lbracket =? lbracket) with true. cbn iota.
    change (newline :: ?a ++ ?b) with ((newline :: a) ++ b).
    change (newline :: repeat space (ind * S lvl)) with (newline_indent ind (S lvl)).
    rewrite skip_ws_indent_value by apply join_items_start.
    destruct (join_items_start (S lvl) (item_sep (S lvl)) l x) as (c & t & E & Hc).
    assert ((c =? rbracket) = false) as Hr.
    { unfold value_start in Hc.
      repeat (apply orb_prop in Hc as [Hc|Hc]); apply N.eqb_eq in Hc; by subst. }
    rewrite E at 1. cbn [app]. rewrite Hr.
    change (c :: t ++ ?X) with ((c :: t) ++ X). rewrite <- E.
    rewrite array_items_ok; [reflexivity|done|done|].
    change (jsize (JArr (x :: l)))
      with (S (list_sum (map (fun x => S (jsize x)) (x :: l)))) in Hf. lia.
  - destruct m as [|kv m]; [reflexivity|].
    change (iterencode ind lvl (JObj (kv :: m)))
      with ([lbrace] ++ newline_indent ind (S lvl)
            ++ join_items (item_sep (S lvl)) (map (member_chunk (S lvl)) (kv :: m))
            ++ newline_indent ind lvl ++ [rbrace]).
    rewrite <- !app_assoc. cbn [app scan_once].
    change (lbrace =? quote) with false. change (lbrace =? lbrace) with true.
    cbn iota.
    change (newline :: ?a ++ ?b) with ((newline :: a) ++ b).
    change (newline :: repeat space (ind * S lvl)) with (newline_indent ind (S lvl)).
    rewrite skip_ws_indent_value by apply member_chunks_start.
    destruct (member_chunks_start (S lvl) (item_sep (S lvl)) m kv) as (c & t & E & Hc).
    assert ((c =? rbrace) = false) as Hr.
    { unfold value_start in Hc.
      repeat (apply orb_prop in Hc as [Hc|Hc]); apply N.eqb_eq in Hc; by subst. }
    rewrite E at 1. cbn [app]. rewrite Hr.
    change (c :: t ++ ?X) with ((c :: t) ++ X). rewrite <- E.
    rewrite object_members_ok; [reflexivity|done|done|].
    change (jsize (JObj (kv :: m)))
      with (S (list_sum (map (fun kv => S (jsize kv.2)) (kv :: m)))) in Hf. lia.
Qed.




Lemma join_items_length_ge {A} (f : A -> nat) (enc : A -> str) sepr l :
  (1 <= length sepr)%nat ->
  Forall (fun x => (f x <= length (enc x))%nat) l -> l <> [] ->
  (list_sum (map (fun x => S (f x)) l) <= S (length (join_items sepr (map enc l))))%nat.
Proof.
  intros Hs. induction 1 as [|x l Hx Hl IH]; [done|]. intros _.
  rewrite list_sum_map_cons. destruct l as [|y l].
  - cbn. lia.
  - change (join_items sepr (map enc (x :: y :: l)))
      with (enc x ++ sepr ++ join_items sepr (map enc (y :: l))).
    rewrite !length_app. specialize (IH ltac:(done)). lia.
Qed.

Lemma jsize_le_length v : forall lvl, (jsize v <= length (iterencode ind lvl v))%nat.
Proof.
  induction v as [|s|l IH|m IH] using json_ind; intros lvl.
  - cbn. lia.
  - cbn [iterencode jsize]. unfold encode_basestring. rewrite !length_app. cbn. lia.
  - destruct l as [|x l]; [cbn; lia|].
    change (iterencode ind lvl (JArr (x :: l)))
      with ([lbracket] ++ newline_indent ind (S lvl)
            ++ join_items (item_sep (S lvl)) (map (iterencode ind (S lvl)) (x :: l))
            ++ newline_indent ind lvl ++ [rbracket]).
    change (jsize (JArr (x :: l)))
      with (S (list_sum (map (fun x => S (jsize x)) (x :: l)))).
    rewrite !length_app.
    pose proof (join_items_length_ge jsize (iterencode ind (S lvl))
                  (item_sep (S lvl)) (x :: l)) as H.
    specialize (H ltac:(cbn; lia)).
    specialize (H ltac:(eapply Forall_impl; [exact IH|]; cbn; intros; auto) ltac:(done)).
    cbn [length newline_indent] in *. lia.
  - destruct m as [|kv m]; [cbn; lia|].
    change (iterencode ind lvl (JObj (kv :: m)))
      with ([lbrace] ++ newline_indent ind (S lvl)
            ++ join_items (item_sep (S lvl)) (map (member_chunk (S lvl)) (kv :: m))
            ++ newline_indent ind lvl ++ [rbrace]).
    change (jsize (JObj (kv :: m)))
      with (S (list_sum (map (fun kv => S (jsize kv.2)) (kv :: m)))).
    rewrite !length_app.
    pose proof (join_items_length_ge (fun kv => jsize kv.2) (member_chunk (S lvl))
                  (item_sep (S lvl)) (kv :: m)) as H.
    specialize (H ltac:(cbn; lia)).
    specialize (H ltac:(eapply Forall_impl; [exact IH|]; intros ? Hx; cbn beta;
                        unfold member_chunk; rewrite !length_app;
                        specialize (Hx (S lvl)); cbn [length]; lia) ltac:(done)).
    cbn [length newline_indent] in *. lia.
Qed.

Theorem loads_dumps v : loads (dumps ind v) = Some v.
Proof.
  unfold loads, dumps.
  destruct (iterencode_start ind 0 v) as (c & t & E & Hc).
  assert (startswith (iterencode ind 0 v) [65279] = false) as ->.
  { rewrite E. cbn. unfold value_start in Hc.
    repeat (apply orb_prop in Hc as [Hc|Hc]); apply N.eqb_eq in Hc; by subst. }
  rewrite <- (app_nil_r (iterencode ind 0 v)) at 2.
  rewrite skip_ws_value by eauto.
  rewrite scan_once_iterencode by apply jsize_le_length.
  reflexivity.
Qed.
End Roundtrip.

(** No carriage return in the encoded text. *)
Lemma universal_newlines_id s : Forall (fun c => c <> 13) s -> universal_newlines s = s.
Proof.
  induction 1 as [|c s Hc Hs IH]; [done|]. cbn [universal_newlines].
  rewrite (proj2 (N.eqb_neq _ _) Hc). by rewrite IH.
Qed.

Lemma escape_char_no_cr c : Forall (fun c => c <> 13) (escape_char c).
Proof.
  unfold escape_char.
  destruct (N.eqb_spec c quote); [by repeat constructor|].
  destruct (N.eqb_spec c backslash); [by repeat constructor|].
  destruct (N.eqb_spec c 10); [by repeat constructor|].
  destruct (N.eqb_spec c 13); [by repeat constructor|].
  destruct (N.eqb_spec c 9); [by repeat constructor|].
  destruct (N.eqb_spec c 8); [by repeat constructor|].
  destruct (N.eqb_spec c 12); [by repeat constructor|].
  destruct (N.ltb_spec c 32) as [H|H]; [|by repeat constructor].
  apply (N_below_32 (fun c => Forall (fun c => c <> 13) (escape_u c))); [|exact H].
  let l := eval vm_compute in (map N.of_nat (seq 0 32)) in
  change (map N.of_nat (seq 0 32)) with l.
  repeat (constructor; [by repeat constructor|]). constructor.
Qed.

Lemma encode_basestring_no_cr s : Forall (fun c => c <> 13) (encode_basestring s).
Proof.
  unfold encode_basestring. apply Forall_app. split; [by repeat constructor|].
  apply Forall_app. split; [|by repeat constructor].
  induction s; cbn [flat_map]; [constructor|].
  apply Forall_app. split; [apply escape_char_no_cr|done].
Qed.

Lemma newline_indent_no_cr ind lvl : Forall (fun c => c <> 13) (newline_indent ind lvl).
Proof.
  unfold newline_indent. constructor; [done|].
  induction (ind * lvl)%nat; cbn; by constructor.
Qed.

Lemma join_items_no_cr sepr chunks :
  Forall (fun c => c <> 13) sepr ->
  Forall (Forall (fun c => c <> 13)) chunks ->
  Forall (fun c => c <> 13) (join_items sepr chunks).
Proof.
  intros Hs. induction 1 as [|x l Hx Hl IH]; [constructor|].
  destruct l as [|y l]; [done|].
  change (join_items sepr (x :: y :: l)) with (x ++ sepr ++ join_items sepr (y :: l)).
  by rewrite !Forall_app.
Qed.

Lemma iterencode_no_cr ind v : forall lvl, Forall (fun c => c <> 13) (iterencode ind lvl v).
Proof.
  induction v as [|s|l IH|m IH] using json_ind; intros lvl.
  - by repeat constructor.
  - apply encode_basestring_no_cr.
  - destruct l as [|x l]; [by repeat constructor|].
    change (iterencode ind lvl (JArr (x :: l)))
      with ([lbracket] ++ newline_indent ind (S lvl)
            ++ join_items (item_sep ind (S lvl)) (map (iterencode ind (S lvl)) (x :: l))
            ++ newline_indent ind lvl ++ [rbracket]).
    rewrite !Forall_app. split_and!; try apply newline_indent_no_cr; try by repeat constructor.
    apply join_items_no_cr.
    + constructor; [done|apply newline_indent_no_cr].
    + apply Forall_map. eapply Forall_impl; [exact IH|]. cbn. auto.
  - destruct m as [|kv m]; [by repeat constructor|].
    change (iterencode ind lvl (JObj (kv :: m)))
      with ([lbrace] ++ newline_indent ind (S lvl)
            ++ join_items (item_sep ind (S lvl)) (map (member_chunk ind (S lvl)) (kv :: m))
            ++ newline_indent ind lvl ++ [rbrace]).
    rewrite !Forall_app. split_and!; try apply newline_indent_no_cr; try by repeat constructor.
    apply join_items_no_cr.
    + constructor; [done|apply newline_indent_no_cr].
    + apply Forall_map. eapply Forall_impl; [exact IH|]. intros kv' H. cbn beta.
      unfold member_chunk. rewrite !Forall_app.
      split_and!; first [apply encode_basestring_no_cr | by repeat constructor | auto].
Qed.

Lemma event_of_json_of_event e : event_of_json (json_of_event e) = Some e.
Proof. destruct e as [a b c d e [f|]]; vm_compute; reflexivity. Qed.

Lemma mapM_event l : mapM event_of_json (map json_of_event l) = Some l.
Proof.
  induction l as [|e l IH]; [done|].
  cbn [map mapM]. rewrite event_of_json_of_event, IH. reflexivity.
Qed.

Lemma record_of_json_of_record r : record_of_json (json_of_record r) = Some r.
Proof.
  destruct r as [a b c d e f]. unfold json_of_record, record_of_json.
  cbn [token original_name stored_name created_utc status responses].
  set (l := map json_of_event f).
  assert (H : forall k, 
    record_of_json (JObj [(lit "token", JStr a); (lit "original_name", JStr b);
       (lit "stored_name", JStr c); (lit "created_utc", JStr d); (lit "status", JStr e);
       (lit "responses", JArr k)]) = f' ← mapM event_of_json k; Some (Record_ a b c d e f')).
  { intros k. vm_compute. reflexivity. }
  unfold record_of_json in H. rewrite H. unfold l. by rewrite mapM_event.
Qed.

Theorem parse_record_dumps r : parse_record (dumps 2 (json_of_record r)) = Some r.
Proof.
  unfold parse_record.
  rewrite universal_newlines_id by apply iterencode_no_cr.
  rewrite loads_dumps. cbn [mbind option_bind]. apply record_of_json_of_record.
Qed.

(** * The record store and the decision workflow *)

Section Properties.

Variable cfg : config.
Variable unicode_lower unicode_upper : str -> str.
Variable FuturesTimeout_is_TimeoutError : bool.

Local Abbreviation load_record := (load_record cfg).
Local Abbreviation save_record := (save_record cfg).
Local Abbreviation record_path := (record_path cfg).
Local Abbreviation notify :=
  (notify cfg unicode_upper FuturesTimeout_is_TimeoutError).
Local Abbreviation respond_form :=
  (respond_form cfg unicode_lower unicode_upper FuturesTimeout_is_TimeoutError).
Local Abbreviation upload_post := (upload_post cfg unicode_lower).
Local Abbreviation api_upload := (api_upload cfg unicode_lower).
Local Abbreviation store_upload := (store_upload cfg).
Local Abbreviation submitted_decision := (submitted_decision unicode_lower).
Local Abbreviation submitted_event := (submitted_event unicode_lower).
Local Abbreviation valid_submission := (valid_submission unicode_lower).
Local Abbreviation reachable :=
  (reachable cfg unicode_lower unicode_upper FuturesTimeout_is_TimeoutError).
Local Abbreviation saved := (saved cfg).

Lemma save_record_eq tok rec w : save_record tok rec w = (Return tt, saved tok rec w).
Proof. reflexivity. Qed.

Lemma load_record_world tok w : (load_record tok w).2 = w.
Proof.
  unfold Server.load_record.
  destruct (files w !! record_path tok) as [text|]; [|done].
  by destruct (parse_record text).
Qed.

Lemma load_record_found tok w rec :
  (load_record tok w).1 = Return (Some rec) ->
  load_record tok w = (Return (Some rec), w).
Proof.
  intros H. pose proof (load_record_world tok w) as Hw.
  destruct (load_record tok w) as [r w']. cbn in *. by subst.
Qed.

Lemma load_record_lookup tok w rec :
  (load_record tok w).1 = Return (Some rec) <->
  exists text, files w !! record_path tok = Some text /\ parse_record text = Some rec.
Proof.
  unfold Server.load_record.
  destruct (files w !! record_path tok) as [text|] eqn:E.
  - destruct (parse_record text) as [r|] eqn:P; cbn; split.
    + intros [= ->]. eauto.
    + intros (t & [= <-] & Ht). rewrite P in Ht. by injection Ht as ->.
    + discriminate.
    + intros (t & [= <-] & Ht). congruence.
  - cbn. split; [discriminate|]. by intros (t & ? & _).
Qed.

Lemma load_record_missing tok w :
  files w !! record_path tok = None -> load_record tok w = (Return None, w).
Proof. intros H. unfold Server.load_record. by rewrite H. Qed.

Lemma load_saved tok rec w :
  load_record tok (saved tok rec w) = (Return (Some rec), saved tok rec w).
Proof.
  unfold Server.load_record, saved. cbn [files].
  by rewrite lookup_insert_eq, parse_record_dumps.
Qed.

(** The two tests of [respond_form] on a valid submission. *)
Lemma lit_approved_rejected : lit "approved" <> lit "rejected".
Proof. by vm_compute. Qed.

Lemma str_eqb_true a b : a = b -> str_eqb a b = true.
Proof. intros. by apply bool_decide_eq_true_2. Qed.

Lemma str_eqb_false a b : a <> b -> str_eqb a b = false.
Proof. intros. by apply bool_decide_eq_false_2. Qed.

Lemma truthy_nonempty s : s <> [] -> truthy s = true.
Proof. by destruct s. Qed.

Lemma valid_passes req :
  valid_submission req ->
  negb (str_eqb (submitted_decision req) (lit "approved")
        || str_eqb (submitted_decision req) (lit "rejected")) = false
  /\ str_eqb (submitted_decision req) (lit "rejected")
     && negb (truthy (submitted_comment req)) = false.
Proof.
  intros [H|[H Hc]]; rewrite H.
  - rewrite (str_eqb_true _ _ eq_refl), (str_eqb_false _ _ lit_approved_rejected).
    done.
  - rewrite (str_eqb_true _ _ eq_refl), truthy_nonempty by done.
    by rewrite orb_true_r.
Qed.

(** [respond_form] on an existing record and a valid submission: the
    record is saved, then the notification (if any) runs in the world that
    has it. *)
Lemma respond_form_valid tok req now smtp w rec :
  (load_record tok w).1 = Return (Some rec) ->
  valid_submission req ->
  let ev := submitted_event req now in
  let rec' := decided rec ev in
  respond_form tok req now smtp w
  = if str_eqb (EMAIL_MODE cfg) (lit "off")
    then (Return (Recorded tok rec' []), saved tok rec' w)
    else
      match notify req smtp rec' (decision ev) ev (saved tok rec' w) with
      | (Return warning, w') => (Return (Recorded tok rec' warning), w')
      | (Raise e, w') => (Raise e, w')
      end.
Proof.
  intros Hload Hvalid ev rec'. apply load_record_found in Hload.
  destruct (valid_passes req Hvalid) as [H1 H2].
  unfold Server.respond_form, bind at 1. rewrite Hload.
  fold (submitted_decision req). fold (submitted_comment req).
  rewrite H1, H2.
  change (Event _ _ _ _ _ _) with ev.
  change (Record_ _ _ _ _ _ _) with rec'.
  unfold bind. rewrite save_record_eq.
  destruct (str_eqb (EMAIL_MODE cfg) (lit "off")); [reflexivity|].
  by destruct (notify _ _ _ _ _ _) as [[?|?] ?].
Qed.

(** [notify] always returns: the two calls are traced and the warning says
    what was observed of the send. *)
Lemma warning_failed_nonempty e : warning_failed cfg e <> [].
Proof. unfold warning_failed. by vm_compute. Qed.

Lemma warning_background_nonempty : warning_background cfg <> [].
Proof. unfold warning_background. by vm_compute. Qed.

Lemma notify_returns req smtp rec dec ev w :
  let msg := email_body cfg unicode_upper req rec dec ev in
  let out := smtp msg.1.1 msg.1.2 msg.2 in
  exists warning,
    notify req smtp rec dec ev w
    = (Return warning,
       World (files w) (blobs w)
         (calls w ++ [EmailBody rec dec ev; SendEmail msg.1.1 msg.1.2 msg.2]))
    /\ (send_went_wrong cfg out = true ->
        warning = warning_background cfg \/ exists e, warning = warning_failed cfg e)
    /\ (send_went_wrong cfg out = false -> warning = [])
    /\ (EMAIL_MODE cfg <> lit "sync" ->
        forall final, out = Running final -> warning = warning_background cfg).
Proof.
  intros msg out. unfold Server.notify, send_went_wrong.
  fold msg. destruct msg as [[subj html] text] eqn:Emsg. cbn [fst snd] in out.
  unfold bind, trace, send_email, bind, trace, ret. cbn [files blobs calls].
  fold out. rewrite <- !app_assoc. cbn [app].
  unfold str_eqb. case_bool_decide as Hsync.
  - destruct out as [|e|[e|]]; eexists; (split; [reflexivity|]);
      split_and!; intros; try done; eauto.
  - destruct out as [|e|final]; [| |].
    + eexists; (split; [reflexivity|]); split_and!; intros; done.
    + destruct (FuturesTimeout_is_TimeoutError && is_TimeoutError e);
        eexists; (split; [reflexivity|]); split_and!; intros; try done; eauto.
    + eexists; (split; [reflexivity|]); split_and!; intros; try done; eauto.
Qed.

(** C4. When no record file exists for the token, [respond_form] answers
    with the not-found page whatever the form holds (the lookup comes
    before every validation), and the world is left as it was: no event,
    no write, no call. *)
Theorem unknown_token_record_not_found
    (tok : str) (req : request) (now : str) (smtp : channel) (w : world) :
  files w !! record_path tok = None ->
  respond_form tok req now smtp w = (Return (RecordNotFound tok), w).
Proof.
  intros H. unfold Server.respond_form, bind.
  by rewrite (load_record_missing _ _ H).
Qed.

Lemma respond_form_invalid_decision tok req now smtp w rec :
  (load_record tok w).1 = Return (Some rec) ->
  submitted_decision req <> lit "approved" ->
  submitted_decision req <> lit "rejected" ->
  respond_form tok req now smtp w = (Return (InvalidDecision tok rec), w).
Proof.
  intros Hload Ha Hr. apply load_record_found in Hload.
  unfold Server.respond_form, bind. rewrite Hload.
  fold (submitted_decision req).
  by rewrite (str_eqb_false _ _ Ha), (str_eqb_false _ _ Hr).
Qed.

Lemma respond_form_comment_required tok req now smtp w rec :
  (load_record tok w).1 = Return (Some rec) ->
  submitted_decision req = lit "rejected" ->
  submitted_comment req = [] ->
  respond_form tok req now smtp w = (Return (CommentRequired tok rec), w).
Proof.
  intros Hload Hr Hc. apply load_record_found in Hload.
  unfold Server.respond_form, bind. rewrite Hload.
  fold (submitted_decision req). fold (submitted_comment req).
  rewrite Hr, Hc.
  rewrite (str_eqb_false _ _ (not_eq_sym lit_approved_rejected)).
  by rewrite (str_eqb_true _ _ eq_refl).
Qed.

(** C3. On an existing record, a decision other than ["approved"] and
    ["rejected"] gets the invalid-decision page, and a ["rejected"] with a
    comment that is empty once stripped gets the comment-required page;
    either way the world is left as it was, so the stored record, its
    history and its status are unchanged. *)
Theorem invalid_submission_rejected_unchanged
    (tok : str) (req : request) (now : str) (smtp : channel) (w : world)
    (rec : record) :
  (load_record tok w).1 = Return (Some rec) ->
  (submitted_decision req <> lit "approved" ->
   submitted_decision req <> lit "rejected" ->
   respond_form tok req now smtp w = (Return (InvalidDecision tok rec), w))
  /\ (submitted_decision req = lit "rejected" ->
      submitted_comment req = [] ->
      respond_form tok req now smtp w = (Return (CommentRequired tok rec), w)).
Proof.
  intros Hload. split.
  - by apply respond_form_invalid_decision.
  - by apply respond_form_comment_required.
Qed.

(** The record is stored after a valid submission, whatever the channel
    does. *)
Lemma respond_form_valid_world tok req now smtp w rec :
  (load_record tok w).1 = Return (Some rec) ->
  valid_submission req ->
  let ev := submitted_event req now in
  let rec' := decided rec ev in
  let msg := email_body cfg unicode_upper req rec' (decision ev) ev in
  let out := smtp msg.1.1 msg.1.2 msg.2 in
  exists warning,
    respond_form tok req now smtp w
    = (Return (Recorded tok rec' warning),
       World (files (saved tok rec' w)) (blobs w)
         (calls w ++ SaveRecord tok rec'
            :: (if str_eqb (EMAIL_MODE cfg) (lit "off") then []
                else [EmailBody rec' (decision ev) ev;
                      SendEmail msg.1.1 msg.1.2 msg.2])))
    /\ (if str_eqb (EMAIL_MODE cfg) (lit "off") then warning = []
        else (send_went_wrong cfg out = true ->
              warning = warning_background cfg
              \/ exists e, warning = warning_failed cfg e)
             /\ (send_went_wrong cfg out = false -> warning = [])
             /\ (EMAIL_MODE cfg <> lit "sync" ->
                 forall final, out = Running final ->
                 warning = warning_background cfg)).
Proof.
  intros Hload Hvalid ev rec' msg out.
  rewrite (respond_form_valid _ _ _ _ _ _ Hload Hvalid).
  fold ev. fold rec'.
  destruct (str_eqb (EMAIL_MODE cfg) (lit "off")).
  - exists []. split; [|done]. unfold saved. cbn [files]. done.
  - destruct (notify_returns req smtp rec' (decision ev) ev (saved tok rec' w))
      as (warning & Heq & Hbad & Hgood & Hslow).
    exists warning. rewrite Heq. split; [|by split_and!].
    unfold saved. cbn [files blobs calls]. by rewrite <- app_assoc.
Qed.

Lemma load_record_files tok w w' :
  files w = files w' -> (load_record tok w).1 = (load_record tok w').1.
Proof.
  intros H. unfold Server.load_record. rewrite H.
  destruct (files w' !! record_path tok) as [text|]; [|done].
  by destruct (parse_record text).
Qed.

Lemma load_after_save tok rec w w' :
  files w' = files (saved tok rec w) ->
  (load_record tok w').1 = Return (Some rec).
Proof.
  intros H. rewrite (load_record_files _ _ _ H). by rewrite load_saved.
Qed.

(** C2. On an existing record a valid submission (approved, or rejected
    with a comment that is not empty once stripped) is answered with the
    recorded page, appends exactly one event carrying the decision and sets
    the status to it.  A second valid submission for the same token is
    answered the same way: the history then holds both events, two more
    than before (two in all for a new record), and the status is the second
    decision. *)
Theorem valid_submission_appends_event
    (tok : str) (w : world) (rec : record)
    (req1 : request) (now1 : str) (smtp1 : channel)
    (req2 : request) (now2 : str) (smtp2 : channel) :
  (load_record tok w).1 = Return (Some rec) ->
  valid_submission req1 ->
  valid_submission req2 ->
  let ev1 := submitted_event req1 now1 in
  let ev2 := submitted_event req2 now2 in
  let r1 := respond_form tok req1 now1 smtp1 w in
  let r2 := respond_form tok req2 now2 smtp2 r1.2 in
  (exists warning rec1,
     r1.1 = Return (Recorded tok rec1 warning)
     /\ (load_record tok r1.2).1 = Return (Some rec1)
     /\ responses rec1 = responses rec ++ [ev1]
     /\ decision ev1 = submitted_decision req1
     /\ status rec1 = submitted_decision req1)
  /\ (exists warning rec2,
       r2.1 = Return (Recorded tok rec2 warning)
       /\ (load_record tok r2.2).1 = Return (Some rec2)
       /\ responses rec2 = responses rec ++ [ev1; ev2]
       /\ length (responses rec2) = (length (responses rec) + 2)%nat
       /\ (responses rec = [] -> length (responses rec2) = 2%nat)
       /\ status rec2 = submitted_decision req2).
Proof.
  intros Hload Hv1 Hv2 ev1 ev2 r1 r2.
  destruct (respond_form_valid_world tok req1 now1 smtp1 w rec Hload Hv1)
    as (wn1 & E1 & _).
  fold ev1 in E1. fold r1 in E1.
  assert (Hload1 : (load_record tok r1.2).1 = Return (Some (decided rec ev1))).
  { rewrite E1. by eapply load_after_save. }
  destruct (respond_form_valid_world tok req2 now2 smtp2 r1.2 _ Hload1 Hv2)
    as (wn2 & E2 & _).
  fold ev2 in E2. fold r2 in E2.
  split.
  - exists wn1, (decided rec ev1). rewrite E1 in *. done.
  - exists wn2, (decided (decided rec ev1) ev2). rewrite E2. cbn [fst snd].
    split_and!; try done.
    + by eapply load_after_save.
    + cbn. by rewrite <- app_assoc.
    + cbn. rewrite !length_app. cbn. lia.
    + intros H. cbn. rewrite H. done.
Qed.

Lemma notify_eq req smtp rec dec ev w :
  let msg := email_body cfg unicode_upper req rec dec ev in
  let out := smtp msg.1.1 msg.1.2 msg.2 in
  notify req smtp rec dec ev w
  = (Return
       (if str_eqb (EMAIL_MODE cfg) (lit "sync") then
          match out with
          | Sent | Running None => []
          | Failed e | Running (Some e) => warning_failed cfg e
          end
        else
          match out with
          | Sent => []
          | Running _ => warning_background cfg
          | Failed e =>
              if FuturesTimeout_is_TimeoutError && is_TimeoutError e
              then warning_background cfg
              else warning_failed cfg e
          end),
     World (files w) (blobs w)
       (calls w ++ [EmailBody rec dec ev; SendEmail msg.1.1 msg.1.2 msg.2])).
Proof.
  intros msg out. unfold Server.notify.
  fold msg. destruct msg as [[subj html] text] eqn:Emsg. cbn [fst snd] in out.
  unfold bind, trace, send_email, bind, trace, ret. cbn [files blobs calls].
  fold out. rewrite <- !app_assoc. cbn [app].
  destruct (str_eqb (EMAIL_MODE cfg) (lit "sync")).
  - by destruct out as [|e|[e|]].
  - destruct out as [|e|final]; [done| |done].
    by destruct (FuturesTimeout_is_TimeoutError && is_TimeoutError e).
Qed.

(** C5. On an existing record and a valid submission the call returns the
    recorded page whatever the channel does.  The trace gains [save_record]
    first, and the composition and the send (if the mode is not ["off"])
    after it; the files are those [save_record] left, so the record with
    the new event is what [load_record] finds afterwards.  The warning is
    fixed by what the send did.  In ["sync"] mode a send that raises, at
    once or in the end, leaves the failure text with the host, the port and
    the text of that exception, and a send that returns leaves none.  In
    the default mode a send still running at the timeout leaves the text
    that says it goes on in the background, with the timeout; a send that
    raises leaves the failure text with the text of that exception (the
    background text where the exception is a [TimeoutError] and that class
    is the one the wait raises); a send that returns leaves none.  So the
    warning is not empty whenever the send was seen to fail or not to
    finish in time. *)
Theorem notification_failure_is_a_warning
    (tok : str) (req : request) (now : str) (smtp : channel) (w : world)
    (rec : record) :
  (load_record tok w).1 = Return (Some rec) ->
  valid_submission req ->
  let ev := submitted_event req now in
  let rec' := decided rec ev in
  let msg := email_body cfg unicode_upper req rec' (decision ev) ev in
  let out := smtp msg.1.1 msg.1.2 msg.2 in
  let r := respond_form tok req now smtp w in
  let failed (e : exn) : str :=
    lit "Email send failed (" ++ SMTP_HOST cfg ++ lit ":"
    ++ str_of_int (SMTP_PORT cfg) ++ lit "): " ++ exn_str e in
  let background : str :=
    lit "Email is sending in background (timeout "
    ++ str_of_int (SMTP_TIMEOUT cfg) ++ lit "s)." in
  exists warning,
    r.1 = Return (Recorded tok rec' warning)
    /\ files r.2 = files (saved tok rec' w)
    /\ (load_record tok r.2).1 = Return (Some rec')
    /\ calls r.2
       = calls w ++ SaveRecord tok rec'
           :: (if str_eqb (EMAIL_MODE cfg) (lit "off") then []
               else [EmailBody rec' (decision ev) ev;
                     SendEmail msg.1.1 msg.1.2 msg.2])
    /\ (EMAIL_MODE cfg = lit "sync" ->
        (forall e, out = Failed e \/ out = Running (Some e) -> warning = failed e)
        /\ (out = Sent \/ out = Running None -> warning = []))
    /\ (EMAIL_MODE cfg <> lit "off" -> EMAIL_MODE cfg <> lit "sync" ->
        (forall final, out = Running final -> warning = background)
        /\ (forall e, out = Failed e ->
            warning = if FuturesTimeout_is_TimeoutError && is_TimeoutError e
                      then background else failed e)
        /\ (out = Sent -> warning = []))
    /\ (EMAIL_MODE cfg <> lit "off" ->
        send_went_wrong cfg out = true ->
        warning <> []
        /\ (warning = background \/ exists e, warning = failed e)).
Proof.
  intros Hload Hvalid ev rec' msg out r failed background.
  assert (Hfailed : forall e, warning_failed cfg e = failed e) by done.
  assert (Hbackground : warning_background cfg = background) by done.
  unfold r. rewrite (respond_form_valid _ _ _ _ _ _ Hload Hvalid).
  fold ev rec'. destruct (decide (EMAIL_MODE cfg = lit "off")) as [Hoff|Hoff].
  - rewrite !(str_eqb_true _ _ Hoff). exists []. cbn [fst snd].
    split_and!; try done.
    + by apply (load_after_save _ _ w).
    + intros Hsync. rewrite Hoff in Hsync. by vm_compute in Hsync.
  - rewrite !(str_eqb_false _ _ Hoff). rewrite notify_eq. fold msg out.
    eexists. cbn [fst snd files calls].
    split; [reflexivity|]. unfold saved. cbn [files blobs calls].
    split_and!; try done.
    + by apply (load_after_save _ _ w).
    + by rewrite <- app_assoc.
    + intros Hsync. rewrite (str_eqb_true _ _ Hsync).
      split; [intros e [->| ->]; done|intros [->| ->]; done].
    + intros _ Hsync. rewrite (str_eqb_false _ _ Hsync).
      split_and!; [by intros final ->|by intros e ->|by intros ->].
    + intros _. unfold send_went_wrong. rewrite <- Hbackground.
      assert (Hne : forall e, warning_failed cfg e <> [])
        by (intros e; apply warning_failed_nonempty).
      pose proof warning_background_nonempty as Hnb.
      destruct (str_eqb (EMAIL_MODE cfg) (lit "sync")), out as [|e|[e|]];
        intros Hbad; try discriminate Hbad;
        try destruct (FuturesTimeout_is_TimeoutError && is_TimeoutError e);
        (split; [done|]); eauto.
Qed.

(** C8. With [EMAIL_MODE] ["off"], a valid submission on an existing
    record returns the recorded page with the empty warning, for every
    channel, and the only call it adds to the trace is [save_record]:
    [email_body] and [send_email] are not called. *)
Theorem mode_off_sends_nothing
    (tok : str) (req : request) (now : str) (smtp : channel) (w : world)
    (rec : record) :
  EMAIL_MODE cfg = lit "off" ->
  (load_record tok w).1 = Return (Some rec) ->
  valid_submission req ->
  let rec' := decided rec (submitted_event req now) in
  let r := respond_form tok req now smtp w in
  r.1 = Return (Recorded tok rec' [])
  /\ calls r.2 = calls w ++ [SaveRecord tok rec']
  /\ (forall c, c ∈ drop (length (calls w)) (calls r.2) ->
      match c with
      | EmailBody _ _ _ | SendEmail _ _ _ => False
      | _ => True
      end).
Proof.
  intros Hoff Hload Hvalid rec' r.
  destruct (respond_form_valid_world tok req now smtp w rec Hload Hvalid)
    as (warning & E & Hw).
  rewrite (str_eqb_true _ _ Hoff) in E, Hw. subst warning.
  fold rec' r in E. rewrite E. cbn [fst snd calls].
  split_and!; try done.
  rewrite drop_app_length. intros c Hc.
  apply list_elem_of_singleton in Hc. by subst.
Qed.

(** C9. The decision is compared after [lower()]: on an existing record a
    submission whose lowercased decision is valid is recorded, and the
    event that is appended and the status both hold the lowercased string,
    one of the two lowercase words, and not the submitted spelling when
    that differs.  ["APPROVED"] and ["Rejected"] lowercase to the two
    words. *)
Theorem decision_is_case_insensitive
    (tok : str) (req : request) (now : str) (smtp : channel) (w : world)
    (rec : record) (raw : str) :
  (load_record tok w).1 = Return (Some rec) ->
  form_decision req = Some raw ->
  valid_submission req ->
  let r := respond_form tok req now smtp w in
  (exists warning rec' ev,
     r.1 = Return (Recorded tok rec' warning)
     /\ (load_record tok r.2).1 = Return (Some rec')
     /\ last (responses rec') = Some ev
     /\ decision ev = lower unicode_lower raw
     /\ status rec' = lower unicode_lower raw
     /\ (lower unicode_lower raw = lit "approved"
         \/ lower unicode_lower raw = lit "rejected")
     /\ (raw <> lower unicode_lower raw ->
         decision ev <> raw /\ status rec' <> raw))
  /\ lower unicode_lower (lit "APPROVED") = lit "approved"
  /\ lower unicode_lower (lit "Rejected") = lit "rejected".
Proof.
  intros Hload Hraw Hvalid r.
  destruct (respond_form_valid_world tok req now smtp w rec Hload Hvalid)
    as (warning & E & _).
  fold r in E.
  assert (Hd : submitted_decision req = lower unicode_lower raw).
  { unfold Server.submitted_decision. by rewrite Hraw. }
  split; [|split; reflexivity].
  exists warning, (decided rec (submitted_event req now)), (submitted_event req now).
  rewrite E. cbn [fst snd].
  split_and!; try done.
  - by eapply load_after_save.
  - cbn. apply last_snoc.
  - destruct Hvalid as [H|[H _]]; rewrite <- Hd, H; auto.
  - intros Hne. cbn. fold (submitted_decision req). rewrite Hd. split; congruence.
Qed.

(** *** The status follows the history *)

Lemma store_consistent_same w w' :
  files w' = files w -> store_consistent w -> store_consistent w'.
Proof. intros H Hw path text rec. rewrite H. apply Hw. Qed.

Lemma store_consistent_saved tok rec w w' :
  files w' = files (saved tok rec w) ->
  status rec = derived_status (responses rec) ->
  store_consistent w -> store_consistent w'.
Proof.
  intros H Hrec Hw path text r. rewrite H. unfold saved. cbn [files].
  destruct (decide (record_path tok = path)) as [<-|Hne].
  - rewrite lookup_insert_eq. intros [= <-]. rewrite parse_record_dumps.
    by intros [= <-].
  - rewrite lookup_insert_ne by done. apply Hw.
Qed.

Lemma store_upload_eq f name uuid4_hex now w :
  let tok := take 12 uuid4_hex in
  let pdf_path := path_join (path_join (UPLOAD_DIR cfg) tok) (safe_name_of name) in
  let rec := Record_ tok name (safe_name_of name) (now ++ lit "Z") (lit "pending") [] in
  store_upload f name uuid4_hex now w
  = if names_directory pdf_path
    then (Raise (lit "IsADirectoryError"),
          World (files w) (blobs w) (calls w ++ [FileSave pdf_path]))
    else
      match save_error f pdf_path with
      | Some e =>
          (Raise e, World (files w) (blobs w) (calls w ++ [FileSave pdf_path]))
      | None =>
          (Return rec,
           World (files (saved tok rec w)) (<[pdf_path := content f]> (blobs w))
             (calls w ++ [FileSave pdf_path; SaveRecord tok rec]))
      end.
Proof.
  intros tok pdf_path rec.
  unfold Server.store_upload, bind, file_save, bind, trace, ret, raise.
  fold tok. fold pdf_path. destruct (names_directory pdf_path); [reflexivity|].
  destruct (save_error f pdf_path); [reflexivity|].
  rewrite save_record_eq. unfold saved. cbn [files blobs calls].
  by rewrite <- app_assoc.
Qed.

Lemma store_upload_files f name uuid4_hex now w :
  files (store_upload f name uuid4_hex now w).2 = files w
  \/ exists tok rec,
       files (store_upload f name uuid4_hex now w).2 = files (saved tok rec w)
       /\ status rec = lit "pending" /\ responses rec = [].
Proof.
  rewrite store_upload_eq. destruct (names_directory _); [by left|].
  destruct (save_error _ _); [by left|].
  right. by eexists _, _.
Qed.

Lemma bind_world {A B} (m : M A) (k : A -> M B) (w : world) :
  (forall a w1, (k a w1).2 = w1) -> (bind m k w).2 = (m w).2.
Proof. intros Hk. unfold bind. destruct (m w) as [[a|e] w1]; [apply Hk|done]. Qed.

Lemma upload_post_files req uuid4_hex now w :
  files (upload_post req uuid4_hex now w).2 = files w
  \/ exists tok rec,
       files (upload_post req uuid4_hex now w).2 = files (saved tok rec w)
       /\ status rec = lit "pending" /\ responses rec = [].
Proof.
  unfold Server.upload_post.
  destruct (not_a_pdf unicode_lower (files_file req)); [by left|].
  destruct (files_file req) as [f|]; [|by left].
  rewrite bind_world by done. apply store_upload_files.
Qed.

Lemma api_upload_files req uuid4_hex now w :
  files (api_upload req uuid4_hex now w).2 = files w
  \/ exists tok rec,
       files (api_upload req uuid4_hex now w).2 = files (saved tok rec w)
       /\ status rec = lit "pending" /\ responses rec = [].
Proof.
  unfold Server.api_upload.
  destruct (not_a_pdf unicode_lower (files_file req)); [by left|].
  destruct (files_file req) as [f|]; [|by left].
  rewrite bind_world by done. apply store_upload_files.
Qed.

Lemma respond_form_files tok req now smtp w :
  files (respond_form tok req now smtp w).2 = files w
  \/ exists rec ev,
       (load_record tok w).1 = Return (Some rec)
       /\ files (respond_form tok req now smtp w).2
          = files (saved tok (decided rec ev) w).
Proof.
  destruct (load_record tok w) as [found w0] eqn:Eload.
  assert (w0 = w) as -> by (by rewrite <- (load_record_world tok w), Eload).
  destruct found as [[rec|]|e].
  - assert (Hload : (load_record tok w).1 = Return (Some rec)) by (by rewrite Eload).
    clear Eload.
    set (d := submitted_decision req). set (c := submitted_comment req).
    destruct (decide (d = lit "approved")) as [Ha|Ha];
      [|destruct (decide (d = lit "rejected")) as [Hr|Hr];
        [destruct (decide (c = [])) as [Hc|Hc]|]].
    + right. exists rec, (submitted_event req now). split; [done|].
      destruct (respond_form_valid_world tok req now smtp w rec) as (wn & E & _);
        [done|by left|]. by rewrite E.
    + left. by rewrite (respond_form_comment_required tok req now smtp w rec).
    + right. exists rec, (submitted_event req now). split; [done|].
      destruct (respond_form_valid_world tok req now smtp w rec) as (wn & E & _);
        [done|by right|]. by rewrite E.
    + left. by rewrite (respond_form_invalid_decision tok req now smtp w rec).
  - left. unfold Server.respond_form, bind. by rewrite Eload.
  - left. unfold Server.respond_form, bind. by rewrite Eload.
Qed.

Lemma derived_status_decided rec ev :
  status (decided rec ev) = derived_status (responses (decided rec ev)).
Proof. unfold derived_status. cbn. by rewrite last_snoc. Qed.

Lemma reachable_store_consistent w : reachable w -> store_consistent w.
Proof.
  induction 1 as [|w w' Hreach IH Hstep].
  - intros path text rec H.
    change (files initial_world) with (∅ : gmap str str) in H.
    by rewrite lookup_empty in H.
  - destruct Hstep as [req u now w|req u now w|tok req now smtp w].
    + destruct (upload_post_files req u now w) as [H|(tok & rec & H & Hs & Hr)].
      * by eapply store_consistent_same.
      * eapply store_consistent_saved; [exact H| |exact IH]. by rewrite Hs, Hr.
    + destruct (api_upload_files req u now w) as [H|(tok & rec & H & Hs & Hr)].
      * by eapply store_consistent_same.
      * eapply store_consistent_saved; [exact H| |exact IH]. by rewrite Hs, Hr.
    + destruct (respond_form_files tok req now smtp w) as [H|(rec & ev & _ & H)].
      * by eapply store_consistent_same.
      * eapply store_consistent_saved; [exact H| |exact IH].
        apply derived_status_decided.
Qed.

(** C1. In every world reached from the empty store by the public
    operations (the two uploads and the decision submission, with any
    input), every record that [load_record] returns has as status the
    decision of the last event of its history, or ["pending"] when the
    history is empty. *)
Theorem status_is_derived_from_history (w : world) (tok : str) (rec : record) :
  reachable w ->
  (load_record tok w).1 = Return (Some rec) ->
  status rec = derived_status (responses rec).
Proof.
  intros Hreach Hload. apply load_record_lookup in Hload as (text & Hfile & Hparse).
  exact (reachable_store_consistent w Hreach _ _ _ Hfile Hparse).
Qed.

(** *** Stored names and paths *)

Lemma replace_one old x s :
  replace old [x] s = map (fun c => if c =? old then x else c) s.
Proof.
  induction s as [|c s IH]; [done|]. cbn [replace flat_map map].
  fold (replace old [x] s). rewrite IH. by destruct (c =? old).
Qed.

Lemma safe_name_of_map name : safe_name_of name = map underscore_separators name.
Proof.
  unfold safe_name_of. change (lit "_") with [95]. rewrite !replace_one, map_map.
  apply map_ext. intros c. unfold underscore_separators.
  destruct (N.eqb_spec c sep) as [->|H]; [reflexivity|]. cbn [orb].
  by destruct (c =? backslash).
Qed.

Lemma underscore_separators_neither c :
  underscore_separators c <> sep /\ underscore_separators c <> backslash.
Proof.
  unfold underscore_separators.
  destruct (N.eqb_spec c sep) as [H1|H1]; [done|]. cbn [orb].
  destruct (N.eqb_spec c backslash) as [H2|H2]; done.
Qed.

Lemma safe_name_of_no_separator name :
  (sep ∉ safe_name_of name) /\ (backslash ∉ safe_name_of name).
Proof.
  rewrite safe_name_of_map.
  split; intros H; apply list_elem_of_In, in_map_iff in H as (c & Hc & _);
    by destruct (underscore_separators_neither c).
Qed.

Lemma split_last_sep_none t : sep ∉ t -> split_last_sep t = None.
Proof.
  induction t as [|c t IH]; [done|]. intros H.
  apply not_elem_of_cons in H as [Hc Ht]. cbn [split_last_sep].
  rewrite IH by done. by rewrite (proj2 (N.eqb_neq _ _) (not_eq_sym Hc)).
Qed.

Lemma split_last_sep_app h t :
  sep ∉ t -> split_last_sep (h ++ sep :: t) = Some (h ++ [sep], t).
Proof.
  intros Ht. induction h as [|c h IH]; cbn [app split_last_sep].
  - by rewrite split_last_sep_none.
  - by rewrite IH.
Qed.

Lemma path_split_inside d c name :
  c <> sep -> sep ∉ name ->
  path_split ((d ++ [c]) ++ [sep] ++ name) = (d ++ [c], name).
Proof.
  intros Hc Hn. unfold path_split. cbn [app].
  rewrite split_last_sep_app by done.
  assert (forallb (fun x => x =? sep) ((d ++ [c]) ++ [sep]) = false) as ->.
  { rewrite !forallb_app. cbn. rewrite (proj2 (N.eqb_neq _ _) Hc).
    by rewrite andb_false_r. }
  unfold rstrip, rstrip_with. rewrite !rev_app_distr. cbn [rev app lstrip_with].
  rewrite bool_decide_eq_true_2 by apply list_elem_of_here.
  rewrite bool_decide_eq_false_2.
  2:{ intros H. apply list_elem_of_singleton in H. done. }
  cbn [rev]. by rewrite rev_involutive.
Qed.

Lemma path_join_inside d c name :
  c <> sep -> sep ∉ name ->
  path_join (d ++ [c]) name = (d ++ [c]) ++ [sep] ++ name.
Proof.
  intros Hc Hn. unfold path_join.
  assert (startswith name [sep] = false) as ->.
  { destruct name as [|x name]; [done|].
    change (startswith (x :: name) [sep]) with ((sep =? x) && true).
    apply not_elem_of_cons in Hn as [Hx _].
    by rewrite (proj2 (N.eqb_neq _ _) Hx). }
  assert (truthy (d ++ [c]) = true) as -> by (by destruct d).
  unfold endswith. rewrite rev_app_distr.
  change (startswith (rev [c] ++ rev d) (rev [sep])) with ((sep =? c) && true).
  by rewrite (proj2 (N.eqb_neq _ _) (not_eq_sym Hc)).
Qed.

Lemma is_hex_digit_not_sep c : is_hex_digit c = true -> c <> sep.
Proof. intros H ->. done. Qed.

Lemma token_dir_shape base uuid4_hex :
  is_uuid_hex uuid4_hex = true ->
  exists d c, path_join base (take 12 uuid4_hex) = d ++ [c] /\ c <> sep.
Proof.
  unfold is_uuid_hex. intros H. apply andb_prop in H as [Hlen Hhex].
  apply Nat.eqb_eq in Hlen.
  set (tok := take 12 uuid4_hex).
  assert (Htok : forallb is_hex_digit tok = true).
  { apply forallb_forall. intros x Hx. rewrite forallb_forall in Hhex. apply Hhex.
    apply list_elem_of_In, (subseteq_take 12 uuid4_hex), list_elem_of_In, Hx. }
  assert (Hl : length tok = 12%nat) by (unfold tok; rewrite length_take; lia).
  destruct (exists_last (l:=tok)) as (t0 & c & Et); [by destruct tok|].
  assert (c <> sep) as Hc.
  { apply is_hex_digit_not_sep. rewrite forallb_forall in Htok. apply Htok.
    rewrite Et. apply in_or_app. right. by left. }
  unfold path_join.
  assert (startswith tok [sep] = false) as ->.
  { destruct tok as [|x tok']; [done|].
    change (startswith (x :: tok') [sep]) with ((sep =? x) && true).
    cbn [forallb] in Htok. apply andb_prop in Htok as [Hx _].
    by rewrite (proj2 (N.eqb_neq _ _) (not_eq_sym (is_hex_digit_not_sep _ Hx))). }
  rewrite Et. destruct (negb (truthy base) || endswith base [sep]).
  - exists (base ++ t0), c. by rewrite <- app_assoc.
  - exists (base ++ [sep] ++ t0), c. by rewrite <- !app_assoc.
Qed.

Lemma underscore_separators_dot c : underscore_separators c = 46 -> c = 46.
Proof.
  unfold underscore_separators.
  by destruct ((c =? sep) || (c =? backslash)).
Qed.

Lemma safe_name_of_dots name :
  safe_name_of name ∈ [[]; lit "."; lit ".."] -> name ∈ [[]; lit "."; lit ".."].
Proof.
  rewrite safe_name_of_map. change (lit ".") with [46]. change (lit "..") with [46; 46].
  rewrite !elem_of_cons, !elem_of_nil.
  destruct name as [|a [|b [|c name]]]; cbn [map]; intros [H|[H|[H|[]]]];
    try discriminate H; auto.
  - injection H as H. apply underscore_separators_dot in H. subst. auto.
  - injection H as H1 H2. apply underscore_separators_dot in H1, H2. subst. auto.
Qed.

(** The name of an accepted file ends in [".pdf"]: it names a file. *)
Lemma pdf_name_is_file f :
  not_a_pdf unicode_lower (Some f) = false ->
  safe_name_of (filename f) ∉ [[]; lit "."; lit ".."].
Proof.
  intros Hpdf Hin. apply safe_name_of_dots in Hin. destruct f as [name data].
  cbn [filename] in Hin.
  rewrite !elem_of_cons, elem_of_nil in Hin.
  destruct Hin as [->|[->|[->|[]]]]; vm_compute in Hpdf; discriminate Hpdf.
Qed.

Lemma store_upload_inside f name uuid4_hex now w :
  is_uuid_hex uuid4_hex = true ->
  let tok := take 12 uuid4_hex in
  let token_dir := path_join (UPLOAD_DIR cfg) tok in
  let safe_name := safe_name_of name in
  let pdf_path := path_join token_dir safe_name in
  let rec := Record_ tok name safe_name (now ++ lit "Z") (lit "pending") [] in
  let r := store_upload f name uuid4_hex now w in
  safe_name = map underscore_separators name
  /\ (sep ∉ safe_name) /\ (backslash ∉ safe_name)
  /\ pdf_path = token_dir ++ [sep] ++ safe_name
  /\ path_split pdf_path = (token_dir, safe_name)
  /\ (forall p, p <> pdf_path -> blobs r.2 !! p = blobs w !! p)
  /\ (safe_name ∈ [[]; lit "."; lit ".."] ->
      r = (Raise (lit "IsADirectoryError"),
           World (files w) (blobs w) (calls w ++ [FileSave pdf_path])))
  /\ (forall e,
        safe_name ∉ [[]; lit "."; lit ".."] -> save_error f pdf_path = Some e ->
        r = (Raise e, World (files w) (blobs w) (calls w ++ [FileSave pdf_path])))
  /\ (safe_name ∉ [[]; lit "."; lit ".."] -> save_error f pdf_path = None ->
      r.1 = Return rec
      /\ blobs r.2 !! pdf_path = Some (content f)
      /\ (load_record tok r.2).1 = Return (Some rec)
      /\ calls r.2 = calls w ++ [FileSave pdf_path; SaveRecord tok rec]).
Proof.
  intros Hhex tok token_dir safe_name pdf_path rec r.
  destruct (safe_name_of_no_separator name) as [Hsep Hback].
  destruct (token_dir_shape (UPLOAD_DIR cfg) uuid4_hex Hhex) as (d & c & Ed & Hc).
  assert (Epath : pdf_path = token_dir ++ [sep] ++ safe_name).
  { unfold pdf_path, token_dir, tok. rewrite Ed. by apply path_join_inside. }
  assert (Esplit : path_split pdf_path = (token_dir, safe_name)).
  { rewrite Epath. unfold token_dir, tok. rewrite Ed. by apply path_split_inside. }
  unfold r. rewrite store_upload_eq.
  fold tok token_dir safe_name pdf_path rec.
  unfold names_directory. rewrite Esplit. cbn [snd].
  split_and!; try done.
  - apply safe_name_of_map.
  - intros p Hp. case_bool_decide; cbn [snd blobs]; [done|].
    destruct (save_error f pdf_path); cbn [snd blobs]; [done|].
    by rewrite lookup_insert_ne.
  - intros Hdot. by rewrite bool_decide_eq_true_2.
  - intros e Hfile He. by rewrite bool_decide_eq_false_2, He.
  - intros Hfile He. rewrite bool_decide_eq_false_2, He by done.
    cbn [fst snd blobs calls].
    split_and!; try done.
    + apply lookup_insert_eq.
    + by eapply load_after_save.
Qed.

(** When an upload is stored: the name is one of a file and [file.save]
    took the path. *)
Lemma store_upload_returns f name uuid4_hex now w :
  is_uuid_hex uuid4_hex = true ->
  let pdf_path :=
    path_join (path_join (UPLOAD_DIR cfg) (take 12 uuid4_hex)) (safe_name_of name) in
  (exists rec, (store_upload f name uuid4_hex now w).1 = Return rec)
  <-> (safe_name_of name ∉ [[]; lit "."; lit ".."])
      /\ save_error f pdf_path = None.
Proof.
  intros Hhex pdf_path.
  pose proof (store_upload_inside f name uuid4_hex now w Hhex)
    as (_ & _ & _ & _ & _ & _ & Hdir & Herr & Hok).
  cbv zeta in Hdir, Herr, Hok. fold pdf_path in Hdir, Herr, Hok.
  split.
  - intros (rec & Hret).
    destruct (decide (safe_name_of name ∈ [[]; lit "."; lit ".."])) as [Hd|Hd].
    { rewrite (Hdir Hd) in Hret. discriminate Hret. }
    split; [done|].
    destruct (save_error f pdf_path) as [e|] eqn:He; [|done].
    rewrite (Herr e Hd eq_refl) in Hret. discriminate Hret.
  - intros [Hd He]. destruct (Hok Hd He) as (Hret & _). by eexists.
Qed.

(** C10. For an upload that passes the [.pdf] test, by [upload_post] (the
    name is the file's) and by [api_upload] (the name is the form's
    [original_name], or the file's): the stored name is the name with every
    ["/"] and ["\\"] replaced by ["_"] and so holds neither; the path handed
    to [file.save] is the token directory, one separator and the stored
    name, and splits into exactly these two; no other path of the upload
    directory is written.  When the handler returns, the stored name names
    a file (it is not empty, ["."] or [".."]), [file.save] took the path,
    the answer is the page with the link, the file is at that path and the
    record keeps the stored name.  The handler returns whenever the stored
    name names a file and [file.save] takes the path; when it raises,
    nothing is stored.  The stored name of [upload_post] always names a
    file. *)
Theorem stored_name_stays_in_token_dir
    (req : request) (f : file_storage) (uuid4_hex now : str) (w : world) :
  files_file req = Some f ->
  not_a_pdf unicode_lower (Some f) = false ->
  is_uuid_hex uuid4_hex = true ->
  let tok := take 12 uuid4_hex in
  let token_dir := path_join (UPLOAD_DIR cfg) tok in
  let link := base_url cfg req ++ lit "/proof/" ++ tok in
  let inside (name : str) (r : result response * world) (page : response) : Prop :=
    let safe_name := safe_name_of name in
    let pdf_path := path_join token_dir safe_name in
    let rec := Record_ tok name safe_name (now ++ lit "Z") (lit "pending") [] in
    safe_name = map underscore_separators name
    /\ (sep ∉ safe_name) /\ (backslash ∉ safe_name)
    /\ pdf_path = token_dir ++ [sep] ++ safe_name
    /\ path_split pdf_path = (token_dir, safe_name)
    /\ (forall p, p <> pdf_path -> blobs r.2 !! p = blobs w !! p)
    /\ ((exists answer, r.1 = Return answer) ->
        (safe_name ∉ [[]; lit "."; lit ".."])
        /\ save_error f pdf_path = None
        /\ r.1 = Return page
        /\ blobs r.2 !! pdf_path = Some (content f)
        /\ (load_record tok r.2).1 = Return (Some rec)
        /\ calls r.2 = calls w ++ [FileSave pdf_path; SaveRecord tok rec])
    /\ (safe_name ∉ [[]; lit "."; lit ".."] -> save_error f pdf_path = None ->
        r.1 = Return page)
    /\ (forall e, r.1 = Raise e ->
        files r.2 = files w /\ blobs r.2 = blobs w
        /\ calls r.2 = calls w ++ [FileSave pdf_path]) in
  inside (filename f) (upload_post req uuid4_hex now w)
    (uploaded_html true None (Some link) (Some tok) (Some (filename f)))
  /\ (safe_name_of (filename f) ∉ [[]; lit "."; lit ".."])
  /\ inside (default (filename f) (form_original_name req))
       (api_upload req uuid4_hex now w) (api_json_ok tok link).
Proof.
  intros Hfile Hpdf Hhex tok token_dir link inside.
  assert (Hgen : forall name (k : record -> M response) page,
    (forall rec w1, (k rec w1).2 = w1) ->
    (forall w1,
       k (Record_ tok name (safe_name_of name) (now ++ lit "Z") (lit "pending") [])
         w1
       = (Return page, w1)) ->
    inside name (bind (store_upload f name uuid4_hex now) k w) page).
  { intros name k page Hworld Hk.
    pose proof (store_upload_inside f name uuid4_hex now w Hhex)
      as (H1 & H2 & H3 & H4 & H5 & H6 & Hdir & Herr & Hok).
    cbv zeta in Hdir, Herr, Hok. fold tok token_dir in Hdir, Herr, Hok.
    unfold inside. split_and!; try done.
    - intros p Hp. rewrite bind_world by done. by apply H6.
    - intros (answer & Hret).
      destruct (decide (safe_name_of name ∈ [[]; lit "."; lit ".."])) as [Hd|Hd].
      { unfold bind in Hret. rewrite (Hdir Hd) in Hret. discriminate Hret. }
      destruct (save_error f (path_join token_dir (safe_name_of name)))
        as [e|] eqn:He.
      { unfold bind in Hret. rewrite (Herr e Hd eq_refl) in Hret.
        discriminate Hret. }
      destruct (Hok Hd eq_refl) as (Hr & Hblob & Hload & Hcalls).
      unfold bind.
      destruct (store_upload f name uuid4_hex now w) as [[rec|e] w1];
        cbn [fst snd] in *; [|discriminate Hr].
      injection Hr as ->. rewrite Hk. done.
    - intros Hd He. destruct (Hok Hd He) as (Hr & _). unfold bind.
      destruct (store_upload f name uuid4_hex now w) as [[rec|e] w1];
        cbn [fst snd] in *; [|discriminate Hr].
      injection Hr as ->. by rewrite Hk.
    - intros e Hraise.
      destruct (decide (safe_name_of name ∈ [[]; lit "."; lit ".."])) as [Hd|Hd].
      { unfold bind. by rewrite (Hdir Hd). }
      destruct (save_error f (path_join token_dir (safe_name_of name)))
        as [e'|] eqn:He.
      { unfold bind. by rewrite (Herr e' Hd eq_refl). }
      destruct (Hok Hd eq_refl) as (Hr & _). unfold bind in Hraise.
      destruct (store_upload f name uuid4_hex now w) as [[rec|e'] w1];
        cbn [fst snd] in *; [|discriminate Hr].
      injection Hr as ->. rewrite Hk in Hraise. discriminate Hraise. }
  split_and!.
  - unfold Server.upload_post. rewrite Hfile, Hpdf. by apply Hgen.
  - by apply pdf_name_is_file.
  - unfold Server.api_upload. rewrite Hfile, Hpdf. by apply Hgen.
Qed.

(** *** The composed message *)

Lemma occurs_in_here x post : occurs_in x (x ++ post).
Proof. by exists [], post. Qed.

Lemma occurs_in_end x : occurs_in x x.
Proof. exists [], []. by rewrite app_nil_r. Qed.

Lemma occurs_in_skip x a t : occurs_in x t -> occurs_in x (a ++ t).
Proof. intros (pre & post & ->). exists (a ++ pre), post. by rewrite <- app_assoc. Qed.

Ltac find_occurrence :=
  repeat first [apply occurs_in_here | apply occurs_in_end | apply occurs_in_skip].

Lemma replace_newline_no_newline s : 10 ∉ replace 10 (lit "<br>") s.
Proof.
  induction s as [|c s IH]; [by apply not_elem_of_nil|].
  cbn [replace flat_map]. fold (replace 10 (lit "<br>") s).
  destruct (N.eqb_spec c 10) as [->|Hc].
  - intros H. apply elem_of_app in H as [H|H]; [|done].
    vm_compute in H. by repeat (apply elem_of_cons in H as [H|H]; [done|]);
      apply elem_of_nil in H.
  - cbn [app]. by apply not_elem_of_cons.
Qed.

(** C6, as the code has it. [email_body] has no effect and its result is
    fixed by the record, the decision, the event and the base URL (the
    [BASE_URL] override when there is one, else the host of the request
    being served): two calls that agree on these return the same
    [(subject, html, text)], and with an override the request does not
    matter at all.  The subject holds the file name and the decision in
    upper case; the text and the HTML body hold the link, the decision,
    the reviewer's name and e-mail, the comment, the time and the IP; in
    the HTML body every newline of the comment is [<br>]. *)
Theorem email_body_fixed_by_inputs_and_base_url
    (req1 req2 : request) (rec : record) (dec : str) (ev : event) :
  base_url cfg req1 = base_url cfg req2 ->
  let proof_url := base_url cfg req1 ++ lit "/proof/" ++ token rec in
  let br_comment := replace 10 (lit "<br>") (comment ev) in
  let '(subject, html, text) := email_body cfg unicode_upper req1 rec dec ev in
  email_body cfg unicode_upper req2 rec dec ev = (subject, html, text)
  /\ (truthy (BASE_URL_OVERRIDE cfg) = true ->
      forall req, email_body cfg unicode_upper req rec dec ev = (subject, html, text))
  /\ Forall (fun part => occurs_in part subject)
       [original_name rec; upper unicode_upper dec]
  /\ Forall (fun part => occurs_in part text)
       [proof_url; dec; viewer_name ev; viewer_email ev; comment ev; ts_utc ev;
        format_opt (ip ev)]
  /\ Forall (fun part => occurs_in part html)
       [proof_url; dec; viewer_name ev; viewer_email ev; br_comment; ts_utc ev;
        format_opt (ip ev)]
  /\ (10 ∉ br_comment)
  /\ br_comment
     = flat_map (fun c => if c =? 10 then lit "<br>" else [c]) (comment ev).
Proof.
  intros Hbase proof_url br_comment. unfold email_body.
  split_and!.
  - by rewrite Hbase.
  - intros Hover req. unfold base_url. by rewrite Hover.
  - repeat (apply List.Forall_cons); try apply List.Forall_nil;
      find_occurrence.
  - repeat (apply List.Forall_cons); try apply List.Forall_nil;
      unfold proof_url; find_occurrence.
  - repeat (apply List.Forall_cons); try apply List.Forall_nil;
      unfold proof_url, br_comment; find_occurrence.
  - apply replace_newline_no_newline.
  - reflexivity.
Qed.

(** * More of the server *)

(** *** [strip] *)

Lemma lstrip_with_split p s :
  exists k, s = k ++ lstrip_with p s.
Proof.
  induction s as [|c s [k IH]]; [by exists []|]. cbn [lstrip_with].
  destruct (p c); [|by exists []]. exists (c :: k). cbn. by rewrite <- IH.
Qed.

Lemma lstrip_with_head p s c t : lstrip_with p s = c :: t -> p c = false.
Proof.
  induction s as [|d s IH]; [done|]. cbn [lstrip_with].
  destruct (p d) eqn:E; [exact IH|]. by intros [= <- _].
Qed.

Lemma lstrip_with_id p s :
  (forall c t, s = c :: t -> p c = false) -> lstrip_with p s = s.
Proof.
  destruct s as [|c t]; [done|]. intros H. cbn [lstrip_with].
  by rewrite (H c t eq_refl).
Qed.

Lemma strip_idempotent s : strip (strip s) = strip s.
Proof.
  unfold strip, rstrip_with.
  set (a := lstrip_with isspace s).
  destruct (lstrip_with_split isspace (rev a)) as [k Hk].
  set (y := lstrip_with isspace (rev a)) in *.
  assert (Ha : a = rev y ++ rev k).
  { rewrite <- (rev_involutive a), Hk. apply rev_app_distr. }
  assert (Hb : lstrip_with isspace (rev y) = rev y).
  { apply lstrip_with_id. intros c t E.
    apply (lstrip_with_head isspace s c (t ++ rev k)).
    fold a. by rewrite Ha, E. }
  rewrite Hb, rev_involutive. f_equal.
  apply lstrip_with_id. intros c t E.
  by apply (lstrip_with_head isspace (rev a) c t).
Qed.

(** *** What the operations write *)

Lemma store_upload_files_exact f name uuid4_hex now w :
  let tok := take 12 uuid4_hex in
  files (store_upload f name uuid4_hex now w).2 = files w
  \/ files (store_upload f name uuid4_hex now w).2
     = files (saved tok (Record_ tok name (safe_name_of name) (now ++ lit "Z")
                           (lit "pending") []) w).
Proof.
  intros tok. rewrite store_upload_eq. destruct (names_directory _); [by left|].
  destruct (save_error _ _); [by left|].
  by right.
Qed.

Lemma upload_post_files_exact req uuid4_hex now w :
  let tok := take 12 uuid4_hex in
  files (upload_post req uuid4_hex now w).2 = files w
  \/ exists name,
       files (upload_post req uuid4_hex now w).2
       = files (saved tok (Record_ tok name (safe_name_of name) (now ++ lit "Z")
                             (lit "pending") []) w).
Proof.
  intros tok. unfold Server.upload_post.
  destruct (not_a_pdf unicode_lower (files_file req)); [by left|].
  destruct (files_file req) as [f|]; [|by left].
  rewrite bind_world by done.
  destruct (store_upload_files_exact f (filename f) uuid4_hex now w); eauto.
Qed.

Lemma api_upload_files_exact req uuid4_hex now w :
  let tok := take 12 uuid4_hex in
  files (api_upload req uuid4_hex now w).2 = files w
  \/ exists name,
       files (api_upload req uuid4_hex now w).2
       = files (saved tok (Record_ tok name (safe_name_of name) (now ++ lit "Z")
                             (lit "pending") []) w).
Proof.
  intros tok. unfold Server.api_upload.
  destruct (not_a_pdf unicode_lower (files_file req)); [by left|].
  destruct (files_file req) as [f|]; [|by left].
  rewrite bind_world by done.
  destruct (store_upload_files_exact f (default (filename f) (form_original_name req))
              uuid4_hex now w); eauto.
Qed.

Lemma valid_submission_dec req :
  valid_submission req \/ ~ valid_submission req.
Proof.
  unfold Server.valid_submission.
  destruct (decide (submitted_decision req = lit "approved")); [by left; left|].
  destruct (decide (submitted_decision req = lit "rejected")) as [Hr|Hr].
  - destruct (decide (Server.submitted_comment req = [])) as [Hc|Hc].
    + right. intros [?|[_ ?]]; done.
    + left. by right.
  - right. intros [?|[? _]]; done.
Qed.

Lemma respond_form_invalid_world tok req now smtp w :
  ~ valid_submission req -> (respond_form tok req now smtp w).2 = w.
Proof.
  intros Hinv.
  destruct (load_record tok w) as [found w0] eqn:Eload.
  assert (w0 = w) as -> by (by rewrite <- (load_record_world tok w), Eload).
  destruct found as [[rec|]|e].
  - assert (Hload : (load_record tok w).1 = Return (Some rec)) by (by rewrite Eload).
    destruct (decide (submitted_decision req = lit "approved")) as [Ha|Ha];
      [by destruct Hinv; left|].
    destruct (decide (submitted_decision req = lit "rejected")) as [Hr|Hr].
    + destruct (decide (Server.submitted_comment req = [])) as [Hc|Hc];
        [|by destruct Hinv; right].
      by rewrite (respond_form_comment_required tok req now smtp w rec).
    + by rewrite (respond_form_invalid_decision tok req now smtp w rec).
  - unfold Server.respond_form, bind. by rewrite Eload.
  - unfold Server.respond_form, bind. by rewrite Eload.
Qed.

Lemma respond_form_files_exact tok req now smtp w :
  files (respond_form tok req now smtp w).2 = files w
  \/ exists rec,
       (load_record tok w).1 = Return (Some rec)
       /\ valid_submission req
       /\ files (respond_form tok req now smtp w).2
          = files (saved tok (decided rec (submitted_event req now)) w).
Proof.
  destruct (valid_submission_dec req) as [Hv|Hv];
    [|left; by rewrite respond_form_invalid_world].
  destruct (load_record tok w) as [found w0] eqn:Eload.
  assert (w0 = w) as -> by (by rewrite <- (load_record_world tok w), Eload).
  destruct found as [[rec|]|e].
  - assert (Hload : (load_record tok w).1 = Return (Some rec)) by (by rewrite Eload).
    right. exists rec. split_and!; try done.
    destruct (respond_form_valid_world tok req now smtp w rec Hload Hv)
      as (wn & E & _). by rewrite E.
  - left. unfold Server.respond_form, bind. by rewrite Eload.
  - left. unfold Server.respond_form, bind. by rewrite Eload.
Qed.

(** Induction over the records of a reachable store: a property of a
    token and a record that holds of a new upload and is kept by a valid
    submission holds of every stored record, under some token with the
    path of the file. *)
Lemma stored_records_ind (P : str -> record -> Prop) :
  (forall uuid4_hex name now,
     P (take 12 uuid4_hex)
       (Record_ (take 12 uuid4_hex) name (safe_name_of name) (now ++ lit "Z")
          (lit "pending") [])) ->
  (forall tok rec req now,
     P tok rec -> valid_submission req ->
     P tok (decided rec (submitted_event req now))) ->
  forall w, reachable w ->
  forall path text rec,
    files w !! path = Some text -> parse_record text = Some rec ->
    exists tok, path = record_path tok /\ P tok rec.
Proof.
  intros Hnew Hkeep w Hreach.
  induction Hreach as [|w w' Hreach IH Hstep].
  - intros path text rec H.
    change (files initial_world) with (∅ : gmap str str) in H.
    by rewrite lookup_empty in H.
  - assert (Hsaved : forall tok r,
      (exists tok0, record_path tok = record_path tok0 /\ P tok0 r) ->
      files w' = files (saved tok r w) ->
      forall path text rec,
        files w' !! path = Some text -> parse_record text = Some rec ->
        exists tok1, path = record_path tok1 /\ P tok1 rec).
    { intros tok r (tok0 & Hpath & HP) Hfiles path text rec.
      rewrite Hfiles. unfold Server.saved. cbn [files].
      destruct (decide (record_path tok = path)) as [<-|Hne].
      - rewrite lookup_insert_eq. intros [= <-]. rewrite parse_record_dumps.
        intros [= <-]. eauto.
      - rewrite lookup_insert_ne by done. apply IH. }
    destruct Hstep as [req u now w|req u now w|tok req now smtp w].
    + destruct (upload_post_files_exact req u now w) as [H|(name & H)].
      * intros path text rec. rewrite H. apply IH.
      * eapply Hsaved; [|exact H]. eexists. split; [reflexivity|apply Hnew].
    + destruct (api_upload_files_exact req u now w) as [H|(name & H)].
      * intros path text rec. rewrite H. apply IH.
      * eapply Hsaved; [|exact H]. eexists. split; [reflexivity|apply Hnew].
    + destruct (respond_form_files_exact tok req now smtp w)
        as [H|(rec0 & Hload & Hv & H)].
      * intros path text rec. rewrite H. apply IH.
      * apply load_record_lookup in Hload as (text0 & Hfile & Hparse).
        destruct (IH _ _ _ Hfile Hparse) as (tok0 & Hpath & HP).
        eapply Hsaved; [|exact H]. exists tok0. split; [done|by apply Hkeep].
Qed.

(** *** Invariants of the stored records *)

Lemma submitted_event_well_formed req now :
  valid_submission req -> event_well_formed (submitted_event req now).
Proof.
  intros Hv. unfold event_well_formed, Server.submitted_event. cbn.
  split_and!; try apply strip_idempotent. exact Hv.
Qed.

(** X1. In every world reached by the public operations, every event in
    the history of a stored record is one that [respond_form] lets in: its
    decision is ["approved"], or ["rejected"] with a comment that is not
    empty, and its comment, reviewer name and reviewer e-mail carry no
    leading or trailing whitespace; and the status of the record is one of
    ["pending"], ["approved"] and ["rejected"]. *)
Theorem stored_history_is_well_formed (w : world) (tok : str) (rec : record) :
  reachable w ->
  (load_record tok w).1 = Return (Some rec) ->
  Forall event_well_formed (responses rec)
  /\ status rec ∈ [lit "pending"; lit "approved"; lit "rejected"].
Proof.
  intros Hreach Hload. apply load_record_lookup in Hload as (text & Hfile & Hparse).
  assert (Hall : Forall event_well_formed (responses rec)).
  { destruct (stored_records_ind
                (fun _ r => Forall event_well_formed (responses r)))
      with (w := w) (path := record_path tok) (text := text) (rec := rec)
      as (tok0 & _ & H); try done.
    intros tok1 r req now Hr Hv. cbn. apply Forall_app. split; [done|].
    constructor; [by apply submitted_event_well_formed|constructor]. }
  split; [exact Hall|].
  rewrite (reachable_store_consistent w Hreach _ _ _ Hfile Hparse).
  unfold derived_status. destruct (last (responses rec)) as [ev|] eqn:El.
  - apply last_Some in El as (l & El). rewrite El in Hall.
    apply Forall_app in Hall as [_ Hev]. apply Forall_cons in Hev as [[Hd _] _].
    destruct Hd as [->|[-> _]]; set_solver.
  - set_solver.
Qed.

(** X2. In every world reached by the public operations, the stored name
    of every stored record is its original name with ["/"] and ["\\"]
    replaced by ["_"], and holds neither of the two: no decision
    submission changes what the upload wrote. *)
Theorem stored_name_is_always_safe (w : world) (tok : str) (rec : record) :
  reachable w ->
  (load_record tok w).1 = Return (Some rec) ->
  stored_name rec = map underscore_separators (original_name rec)
  /\ (sep ∉ stored_name rec) /\ (backslash ∉ stored_name rec).
Proof.
  intros Hreach Hload. apply load_record_lookup in Hload as (text & Hfile & Hparse).
  destruct (stored_records_ind
              (fun _ r => stored_name r = safe_name_of (original_name r)))
    with (w := w) (path := record_path tok) (text := text) (rec := rec)
    as (tok0 & _ & H); try done.
  rewrite H. destruct (safe_name_of_no_separator (original_name rec)).
  split_and!; try done. apply safe_name_of_map.
Qed.

Lemma record_path_segment tok :
  segment tok ->
  record_path tok
  = (if negb (truthy (DATA_DIR cfg)) || endswith (DATA_DIR cfg) [sep]
     then DATA_DIR cfg else DATA_DIR cfg ++ [sep])
    ++ tok ++ lit ".json".
Proof.
  unfold segment, Server.record_path, path_join. intros Hseg.
  assert (startswith (tok ++ lit ".json") [sep] = false) as ->.
  { destruct tok as [|c t]; [reflexivity|exact Hseg]. }
  destruct (negb (truthy (DATA_DIR cfg)) || endswith (DATA_DIR cfg) [sep]);
    [done|]. by rewrite <- app_assoc.
Qed.

Lemma record_path_inj tok tok' :
  segment tok -> segment tok' -> record_path tok = record_path tok' -> tok = tok'.
Proof.
  intros H H' E. rewrite !record_path_segment in E by done.
  apply app_inv_head in E. by apply app_inv_tail in E.
Qed.

(** X3. In every world reached by the public operations, a record is
    stored in the file of its own token: the record found under a token
    names, in its [token] field, a token with the same file, which is that
    token itself when both are single path segments. *)
Theorem stored_token_is_its_key (w : world) (tok : str) (rec : record) :
  reachable w ->
  (load_record tok w).1 = Return (Some rec) ->
  record_path (token rec) = record_path tok
  /\ (segment tok -> segment (token rec) -> token rec = tok).
Proof.
  intros Hreach Hload. apply load_record_lookup in Hload as (text & Hfile & Hparse).
  destruct (stored_records_ind (fun t r => token r = t))
    with (w := w) (path := record_path tok) (text := text) (rec := rec)
    as (tok0 & Hpath & H); try done.
  subst tok0. split; [done|]. intros Hs Hs'. by apply record_path_inj.
Qed.

(** X4. Whatever is submitted, valid or not, and whatever the channel
    does, [respond_form] leaves a record under the token of an existing
    record that has the same token, names and creation time, and either
    is the record as it was, or has exactly the event of this submission
    added at the end of its history: no event of the past is changed or
    removed. *)
Theorem respond_form_only_appends
    (tok : str) (req : request) (now : str) (smtp : channel) (w : world)
    (rec : record) :
  (load_record tok w).1 = Return (Some rec) ->
  exists rec',
    (load_record tok (respond_form tok req now smtp w).2).1 = Return (Some rec')
    /\ token rec' = token rec
    /\ original_name rec' = original_name rec
    /\ stored_name rec' = stored_name rec
    /\ created_utc rec' = created_utc rec
    /\ (rec' = rec
        \/ (valid_submission req
            /\ responses rec' = responses rec ++ [submitted_event req now]
            /\ status rec' = submitted_decision req)).
Proof.
  intros Hload.
  destruct (respond_form_files_exact tok req now smtp w)
    as [H|(rec0 & Hload0 & Hv & H)].
  - exists rec. rewrite (load_record_files _ _ _ H). split_and!; auto.
  - rewrite Hload in Hload0. injection Hload0 as <-.
    exists (decided rec (submitted_event req now)).
    split_and!; try done; [by eapply load_after_save|]. right. done.
Qed.

Lemma load_record_saved_other tok tok' r w w' :
  files w' = files w \/ files w' = files (saved tok r w) ->
  record_path tok <> record_path tok' ->
  (load_record tok' w').1 = (load_record tok' w).1.
Proof.
  intros [H|H] Hne; [by apply load_record_files|].
  unfold Server.load_record. rewrite H. unfold Server.saved. cbn [files].
  rewrite lookup_insert_ne by done.
  destruct (files w !! record_path tok') as [text|]; [|done].
  by destruct (parse_record text).
Qed.

(** X5. Records do not interfere: for two different tokens that are
    single path segments, a decision submitted for one, and an upload that
    draws one, leave what [load_record] returns for the other as it was. *)
Theorem other_tokens_are_untouched
    (tok tok' : str) (req : request) (uuid4_hex now : str) (smtp : channel)
    (w : world) :
  segment tok -> segment tok' -> tok <> tok' ->
  (load_record tok' (respond_form tok req now smtp w).2).1 = (load_record tok' w).1
  /\ (take 12 uuid4_hex = tok ->
      (load_record tok' (upload_post req uuid4_hex now w).2).1
      = (load_record tok' w).1
      /\ (load_record tok' (api_upload req uuid4_hex now w).2).1
         = (load_record tok' w).1).
Proof.
  intros Hs Hs' Hne.
  assert (Hpath : record_path tok <> record_path tok').
  { intros E. by apply Hne, record_path_inj. }
  split; [|intros <-; split].
  - destruct (respond_form_files_exact tok req now smtp w)
      as [H|(rec0 & _ & _ & H)]; [by apply load_record_files|].
    eapply load_record_saved_other; [right; exact H|done].
  - destruct (upload_post_files_exact req uuid4_hex now w) as [H|(name & H)];
      [by apply load_record_files|].
    eapply load_record_saved_other; [right; exact H|done].
  - destruct (api_upload_files_exact req uuid4_hex now w) as [H|(name & H)];
      [by apply load_record_files|].
    eapply load_record_saved_other; [right; exact H|done].
Qed.

(** *** Uploads that are turned away *)

Lemma startswith_iff s p : startswith s p = true <-> exists k, s = p ++ k.
Proof.
  revert s. induction p as [|a p IH]; intros s; cbn [startswith].
  - split; [by exists s|done].
  - destruct s as [|b s]; [split; [done|by intros (k & ?)]|].
    rewrite andb_true_iff, N.eqb_eq, IH. split.
    + intros (-> & k & ->). by exists k.
    + intros (k & [= <- ->]). eauto.
Qed.

Lemma endswith_iff s p : endswith s p = true <-> exists k, s = k ++ p.
Proof.
  unfold endswith. rewrite startswith_iff. split.
  - intros (k & E). exists (rev k).
    by rewrite <- (rev_involutive s), E, rev_app_distr, rev_involutive.
  - intros (k & ->). exists (rev k). apply rev_app_distr.
Qed.

Lemma ascii_lower_is c (l : N) :
  ascii_lower c = l ->
  c = l \/ (c + 32 = l /\ 65 <= c <= 90).
Proof.
  unfold ascii_lower.
  destruct (N.leb_spec 65 c), (N.leb_spec c 90); cbn [andb]; intros <-; auto.
Qed.

Lemma map_ascii_lower_pdf name :
  (exists k, map ascii_lower name = k ++ lit ".pdf")
  <-> exists stem p d f,
        name = stem ++ [46; p; d; f]
        /\ p ∈ [112; 80] /\ d ∈ [100; 68] /\ f ∈ [102; 70].
Proof.
  change (lit ".pdf") with [46; 112; 100; 102]. split.
  - intros (k & E). apply map_eq_app in E as (stem & ext & -> & _ & E).
    destruct ext as [|a [|p [|d [|f [|]]]]]; try discriminate E.
    injection E as Ea Ep Ed Ef. exists stem, p, d, f.
    apply ascii_lower_is in Ea, Ep, Ed, Ef.
    assert (a = 46) as -> by lia.
    split_and!; [done| | |]; rewrite !elem_of_cons; lia.
  - intros (stem & p & d & f & -> & Hp & Hd & Hf).
    exists (map ascii_lower stem). rewrite map_app. f_equal.
    rewrite !elem_of_cons, elem_of_nil in Hp, Hd, Hf.
    destruct Hp as [->|[->|[]]], Hd as [->|[->|[]]], Hf as [->|[->|[]]];
      reflexivity.
Qed.

(** X6. An upload without a file, or with a file whose name does not end
    in [".pdf"], is turned away by both upload handlers with their error
    answer, and nothing is stored or traced.  For a name of ASCII
    characters, the name is accepted exactly when it ends in a dot followed
    by [p], [d], [f], each in either case. *)
Theorem upload_accepts_pdf_names_only
    (req : request) (uuid4_hex now : str) (w : world) :
  (not_a_pdf unicode_lower (files_file req) = true ->
   upload_post req uuid4_hex now w
   = (Return (uploaded_html false (Some (lit "Please choose a .pdf file."))
                None None None), w)
   /\ api_upload req uuid4_hex now w
      = (Return (api_json_error (lit "Please upload a .pdf file") 400), w))
  /\ not_a_pdf unicode_lower None = true
  /\ (forall f,
        forallb is_ascii (filename f) = true ->
        (not_a_pdf unicode_lower (Some f) = false
         <-> exists stem p d e,
               filename f = stem ++ [46; p; d; e]
               /\ p ∈ [112; 80] /\ d ∈ [100; 68] /\ e ∈ [102; 70])).
Proof.
  split_and!.
  - intros H. unfold Server.upload_post, Server.api_upload. by rewrite H.
  - reflexivity.
  - intros f Hascii. unfold not_a_pdf, lower. rewrite Hascii.
    rewrite <- map_ascii_lower_pdf, <- endswith_iff.
    destruct (endswith (map ascii_lower (filename f)) (lit ".pdf")) eqn:E.
    + destruct (filename f) as [|c t]; [discriminate E|]. done.
    + rewrite orb_true_r. done.
Qed.

(** *** The proof page *)

Lemma proof_page_eq tok req w rec :
  (load_record tok w).1 = Return (Some rec) ->
  proof_page cfg tok req w
  = (Return (proof_html tok (original_name rec) (tok, stored_name rec)
               (base_url cfg req)), w).
Proof.
  intros Hload. apply load_record_found in Hload.
  unfold proof_page, bind. by rewrite Hload.
Qed.

Lemma respond_form_blobs tok req now smtp w :
  blobs (respond_form tok req now smtp w).2 = blobs w.
Proof.
  destruct (valid_submission_dec req) as [Hv|Hv];
    [|by rewrite respond_form_invalid_world].
  destruct (load_record tok w) as [found w0] eqn:Eload.
  assert (w0 = w) as -> by (by rewrite <- (load_record_world tok w), Eload).
  destruct found as [[rec|]|e].
  - assert (Hload : (load_record tok w).1 = Return (Some rec)) by (by rewrite Eload).
    destruct (respond_form_valid_world tok req now smtp w rec Hload Hv)
      as (wn & E & _). by rewrite E.
  - unfold Server.respond_form, bind. by rewrite Eload.
  - unfold Server.respond_form, bind. by rewrite Eload.
Qed.

Lemma respond_form_keeps_names tok tok' req now smtp w rec :
  (load_record tok w).1 = Return (Some rec) ->
  exists rec',
    (load_record tok (respond_form tok' req now smtp w).2).1 = Return (Some rec')
    /\ original_name rec' = original_name rec
    /\ stored_name rec' = stored_name rec.
Proof.
  intros Hload.
  destruct (respond_form_files_exact tok' req now smtp w)
    as [H|(rec0 & Hload0 & Hv & H)].
  - exists rec. by rewrite (load_record_files _ _ _ H).
  - destruct (decide (record_path tok' = record_path tok)) as [E|Hne].
    + assert (rec0 = rec) as ->.
      { apply load_record_lookup in Hload as (t & Hf & Hp).
        apply load_record_lookup in Hload0 as (t0 & Hf0 & Hp0).
        rewrite E in Hf0. congruence. }
      exists (decided rec (submitted_event req now)). split; [|done].
      apply load_record_lookup. eexists. rewrite H. unfold Server.saved.
      cbn [files]. rewrite E, lookup_insert_eq. split; [done|].
      apply parse_record_dumps.
    + exists rec. split; [|done].
      rewrite <- Hload. eapply load_record_saved_other; [right; exact H|done].
Qed.

(** An upload that [upload_post] answered with the page that carries the
    link: the request held a file, the token and the name on the page are
    the token drawn and the file's name, the record is stored and the
    bytes are at their path. *)
Lemma upload_post_answered req uuid4_hex now w link tok name :
  is_uuid_hex uuid4_hex = true ->
  (upload_post req uuid4_hex now w).1
  = Return (uploaded_html true None (Some link) (Some tok) (Some name)) ->
  exists f,
    files_file req = Some f
    /\ tok = take 12 uuid4_hex
    /\ name = filename f
    /\ link = base_url cfg req ++ lit "/proof/" ++ tok
    /\ (load_record tok (upload_post req uuid4_hex now w).2).1
       = Return (Some (Record_ tok name (safe_name_of name) (now ++ lit "Z")
                         (lit "pending") []))
    /\ blobs (upload_post req uuid4_hex now w).2
         !! (path_join (UPLOAD_DIR cfg) tok ++ [sep] ++ safe_name_of name)
       = Some (content f).
Proof.
  intros Hhex. unfold Server.upload_post.
  destruct (not_a_pdf unicode_lower (files_file req)) eqn:Hpdf;
    [intros H; discriminate H|].
  destruct (files_file req) as [f|]; [|intros H; discriminate H].
  pose proof (store_upload_inside f (filename f) uuid4_hex now w Hhex)
    as (_ & _ & _ & Hpath & _ & _ & Hdir & Herr & Hok).
  cbv zeta in Hpath, Hdir, Herr, Hok.
  destruct (decide (safe_name_of (filename f) ∈ [[]; lit "."; lit ".."]))
    as [Hd|Hd].
  { unfold bind. rewrite (Hdir Hd). intros H. discriminate H. }
  destruct (save_error f
              (path_join (path_join (UPLOAD_DIR cfg) (take 12 uuid4_hex))
                 (safe_name_of (filename f)))) as [e|] eqn:He.
  { unfold bind. rewrite (Herr e Hd eq_refl). intros H. discriminate H. }
  destruct (Hok Hd eq_refl) as (Hret & Hblob & Hload & _).
  rewrite Hpath in Hblob. unfold bind.
  destruct (store_upload f (filename f) uuid4_hex now w) as [[rec|e] w1];
    cbn [fst snd] in *; [|discriminate Hret].
  injection Hret as ->. cbn [token original_name]. intros [= <- <- <-].
  exists f. done.
Qed.

(** X7. The proof page of an upload stays what the upload made it.  After
    [upload_post] has answered with the page that carries the link, and
    after any run of decision submissions for any tokens, [proof_page] for
    the token on that page shows the name on that page and links to its
    stored name, the uploaded bytes are still at the path the upload
    wrote, and the page request itself changes nothing. *)
Theorem uploaded_proof_stays_viewable
    (req : request) (uuid4_hex now : str) (w : world) (link tok name : str)
    (subs : list submission) (page_req : request) :
  is_uuid_hex uuid4_hex = true ->
  (upload_post req uuid4_hex now w).1
  = Return (uploaded_html true None (Some link) (Some tok) (Some name)) ->
  let safe_name := safe_name_of name in
  let w' :=
    after_submissions cfg unicode_lower unicode_upper
      FuturesTimeout_is_TimeoutError subs (upload_post req uuid4_hex now w).2 in
  proof_page cfg tok page_req w'
  = (Return (proof_html tok name (tok, safe_name) (base_url cfg page_req)), w')
  /\ exists f,
       files_file req = Some f
       /\ name = filename f
       /\ blobs w' !! (path_join (UPLOAD_DIR cfg) tok ++ [sep] ++ safe_name)
          = Some (content f).
Proof.
  intros Hhex Hup safe_name.
  destruct (upload_post_answered req uuid4_hex now w link tok name Hhex Hup)
    as (f & Hfile & _ & Hname & _ & Hload & Hblob).
  fold safe_name in Hblob, Hload.
  set (w1 := (upload_post req uuid4_hex now w).2) in *.
  assert (Hinv : exists rec,
    (load_record tok w1).1 = Return (Some rec)
    /\ original_name rec = name /\ stored_name rec = safe_name)
    by (eexists; split; [exact Hload|done]).
  clearbody w1. clear Hload Hup. intros w'. subst w'.
  revert w1 Hblob Hinv. induction subs as [|s subs IH]; intros w1 Hblob Hinv.
  - cbn [after_submissions]. destruct Hinv as (rec & Hload & Hn & Hs).
    split; [|by exists f]. by rewrite (proof_page_eq _ _ _ _ Hload), Hn, Hs.
  - cbn [after_submissions]. apply IH.
    + by rewrite respond_form_blobs.
    + destruct Hinv as (rec & Hload & Hn & Hs).
      destruct (respond_form_keeps_names tok (sub_token s) (sub_request s)
                  (sub_now s) (sub_channel s) w1 rec Hload)
        as (rec' & Hload' & Hn' & Hs').
      exists rec'. split_and!; congruence.
Qed.

(** *** The warning *)

(** X8. On an existing record and a valid submission, the warning of the
    recorded page is empty exactly when the mode is ["off"] or the send was
    not seen to go wrong: a send that returns in time, and in ["sync"] mode
    one that returns at all, leaves no warning. *)
Theorem warning_is_empty_iff_nothing_went_wrong
    (tok : str) (req : request) (now : str) (smtp : channel) (w : world)
    (rec : record) :
  (load_record tok w).1 = Return (Some rec) ->
  valid_submission req ->
  let ev := submitted_event req now in
  let rec' := decided rec ev in
  let msg := email_body cfg unicode_upper req rec' (decision ev) ev in
  let out := smtp msg.1.1 msg.1.2 msg.2 in
  exists warning,
    (respond_form tok req now smtp w).1 = Return (Recorded tok rec' warning)
    /\ (warning = []
        <-> EMAIL_MODE cfg = lit "off" \/ send_went_wrong cfg out = false).
Proof.
  intros Hload Hvalid ev rec' msg out.
  destruct (respond_form_valid_world tok req now smtp w rec Hload Hvalid)
    as (warning & E & Hw).
  fold ev rec' msg out in E, Hw. exists warning. rewrite E. split; [done|].
  unfold str_eqb in Hw. case_bool_decide as Hoff.
  - split; auto.
  - destruct Hw as (Hbad & Hgood & _).
    destruct (send_went_wrong cfg out) eqn:Es.
    + split; [|by intros [?|?]]. intros ->.
      destruct (Hbad eq_refl) as [H|[e H]]; symmetry in H.
      * by apply warning_background_nonempty in H.
      * by apply warning_failed_nonempty in H.
    + split; auto.
Qed.

Lemma notify_failed req smtp rec dec ev w e :
  let msg := email_body cfg unicode_upper req rec dec ev in
  smtp msg.1.1 msg.1.2 msg.2 = Failed e ->
  (notify req smtp rec dec ev w).1
  = Return (if str_eqb (EMAIL_MODE cfg) (lit "sync") then warning_failed cfg e
            else if FuturesTimeout_is_TimeoutError && is_TimeoutError e
                 then warning_background cfg
                 else warning_failed cfg e).
Proof.
  intros msg Hout. unfold Server.notify.
  fold msg. destruct msg as [[subj html] text] eqn:Emsg. cbn [fst snd] in Hout.
  unfold bind, trace, send_email, bind, trace, ret. rewrite Hout.
  destruct (str_eqb (EMAIL_MODE cfg) (lit "sync")); [done|].
  by destruct (FuturesTimeout_is_TimeoutError && is_TimeoutError e).
Qed.

Lemma warning_failed_not_background e :
  warning_failed cfg e <> warning_background cfg.
Proof.
  unfold warning_failed, warning_background. intros H.
  vm_compute in H. discriminate H.
Qed.

(** X9. Where [concurrent.futures.TimeoutError] is the builtin
    [TimeoutError], a send that fails with a [TimeoutError] before the wait
    is over is reported, in the default mode, by the warning that says the
    e-mail is still being sent in the background, and not by the failure
    warning; every other failure, and every failure in ["sync"] mode, is
    reported by the failure warning with the text of the exception. *)
Theorem failed_send_with_timeout_error_is_reported_as_background
    (tok : str) (req : request) (now : str) (smtp : channel) (w : world)
    (rec : record) (e : exn) :
  (load_record tok w).1 = Return (Some rec) ->
  valid_submission req ->
  EMAIL_MODE cfg <> lit "off" ->
  let ev := submitted_event req now in
  let rec' := decided rec ev in
  let msg := email_body cfg unicode_upper req rec' (decision ev) ev in
  smtp msg.1.1 msg.1.2 msg.2 = Failed e ->
  let page := (respond_form tok req now smtp w).1 in
  (EMAIL_MODE cfg <> lit "sync" ->
   FuturesTimeout_is_TimeoutError = true -> is_TimeoutError e = true ->
   page = Return (Recorded tok rec' (warning_background cfg))
   /\ page <> Return (Recorded tok rec' (warning_failed cfg e)))
  /\ (EMAIL_MODE cfg = lit "sync"
      \/ FuturesTimeout_is_TimeoutError = false \/ is_TimeoutError e = false ->
      page = Return (Recorded tok rec' (warning_failed cfg e))).
Proof.
  intros Hload Hvalid Hoff ev rec' msg Hout page.
  assert (Hpage : page
    = Return (Recorded tok rec'
        (if str_eqb (EMAIL_MODE cfg) (lit "sync") then warning_failed cfg e
         else if FuturesTimeout_is_TimeoutError && is_TimeoutError e
              then warning_background cfg
              else warning_failed cfg e))).
  { unfold page. rewrite (respond_form_valid _ _ _ _ _ _ Hload Hvalid).
    fold ev rec'. rewrite (str_eqb_false _ _ Hoff).
    pose proof (notify_failed req smtp rec' (decision ev) ev (saved tok rec' w) e Hout)
      as Hn.
    destruct (notify req smtp rec' (decision ev) ev (saved tok rec' w))
      as [[wn|x] w1]; cbn [fst] in Hn; [|discriminate Hn].
    by injection Hn as ->. }
  rewrite Hpage. split.
  - intros Hsync Halias Htimeout.
    rewrite (str_eqb_false _ _ Hsync), Halias, Htimeout. cbn [andb].
    split; [done|]. intros H.
    apply (f_equal (fun r : result response =>
                      match r with
                      | Return (result_html _ _ (Some x) _ _) => x
                      | _ => []
                      end)) in H.
    cbv beta iota delta [Recorded] in H.
    symmetry in H. by apply warning_failed_not_background in H.
  - intros [Hsync|[Halias|Htimeout]].
    + by rewrite (str_eqb_true _ _ Hsync).
    + rewrite Halias. cbn [andb]. by destruct (str_eqb _ _).
    + rewrite Htimeout, andb_false_r. by destruct (str_eqb _ _).
Qed.

(** *** The base URL *)

Lemma rstrip_with_split p s :
  exists k, s = rstrip_with p s ++ k /\ forallb p k = true.
Proof.
  unfold rstrip_with.
  assert (H : forall x, exists k, x = k ++ lstrip_with p x /\ forallb p k = true).
  { induction x as [|c x (k & IH & Hk)]; [by exists []|]. cbn [lstrip_with].
    destruct (p c) eqn:E; [|by exists []]. exists (c :: k). cbn.
    rewrite E, Hk. by rewrite <- IH. }
  destruct (H (rev s)) as (k & E & Hk). exists (rev k). split.
  - rewrite <- (rev_involutive s) at 1. rewrite E at 1. apply rev_app_distr.
  - apply forallb_forall. intros x Hx. rewrite forallb_forall in Hk.
    apply Hk. by apply in_rev.
Qed.

Lemma rstrip_with_last p s t c : rstrip_with p s = t ++ [c] -> p c = false.
Proof.
  unfold rstrip_with. intros H.
  apply (f_equal (@rev N)) in H. rewrite rev_involutive, rev_app_distr in H.
  by apply lstrip_with_head in H.
Qed.

(** X10. Without a [BASE_URL] override, the base URL of a link is the host
    URL of the request (the local default when that is empty) with all its
    trailing slashes removed, and only those: it never ends in a slash, so
    a link has exactly one slash before [proof]. *)
Theorem base_url_is_host_without_trailing_slashes (req : request) :
  BASE_URL_OVERRIDE cfg = [] ->
  let host :=
    if truthy (host_url req) then host_url req
    else lit "http://127.0.0.1:5000/" in
  (exists slashes,
     host = base_url cfg req ++ slashes /\ Forall (fun c => c = sep) slashes)
  /\ endswith (base_url cfg req) [sep] = false
  /\ (host_url req = [] -> base_url cfg req = lit "http://127.0.0.1:5000").
Proof.
  intros Hover host. unfold base_url. rewrite Hover. cbn [truthy]. fold host.
  unfold rstrip. split_and!.
  - destruct (rstrip_with_split (fun c => bool_decide (c ∈ [sep])) host)
      as (k & E & Hk).
    exists k. split; [exact E|]. apply Forall_forall. intros c Hc.
    rewrite forallb_forall in Hk. apply list_elem_of_In, Hk in Hc.
    apply bool_decide_eq_true_1 in Hc. by apply list_elem_of_singleton in Hc.
  - unfold endswith. set (x := rstrip_with _ host).
    destruct (rev x) as [|c t] eqn:E; [reflexivity|].
    apply (f_equal (@rev N)) in E. rewrite rev_involutive in E. cbn [rev] in E.
    apply rstrip_with_last in E. apply bool_decide_eq_false_1 in E.
    change (startswith (c :: t) (rev [sep])) with ((sep =? c) && true).
    rewrite andb_true_r. apply N.eqb_neq. intros <-. apply E, list_elem_of_here.
  - intros Hhost. unfold host. rewrite Hhost. reflexivity.
Qed.

(** *** Record files cut short *)

Lemma scan_mono fuel :
  (forall s r fuel', (fuel <= fuel')%nat ->
     scan_once fuel s = Some r -> scan_once fuel' s = Some r)
  /\ (forall s r fuel', (fuel <= fuel')%nat ->
        array_items fuel s = Some r -> array_items fuel' s = Some r)
  /\ (forall s r fuel', (fuel <= fuel')%nat ->
        object_members fuel s = Some r -> object_members fuel' s = Some r).
Proof.
  induction fuel as [|n (IH1 & IH2 & IH3)]; [by split_and!|].
  split_and!; intros s r [|n'] Hle H; try lia;
    cbn [scan_once array_items object_members] in H |- *;
    unfold mbind, option_bind in *;
    repeat match goal with
    | E : scan_once n ?s = Some ?p |- context [scan_once n' ?s] =>
        rewrite (IH1 s p n' ltac:(lia) E)
    | E : array_items n ?s = Some ?p |- context [array_items n' ?s] =>
        rewrite (IH2 s p n' ltac:(lia) E)
    | E : object_members n ?s = Some ?p |- context [object_members n' ?s] =>
        rewrite (IH3 s p n' ltac:(lia) E)
    | H : context [match ?x with _ => _ end] |- _ =>
        destruct x eqn:?; try discriminate H
    end; try done.
Qed.

Lemma scan_once_sound ind v fuel lvl rest r :
  scan_once fuel (iterencode ind lvl v ++ rest) = Some r -> r = (v, rest).
Proof.
  intros H.
  apply (proj1 (scan_mono fuel) _ _ (max fuel (jsize v)) ltac:(lia)) in H.
  rewrite scan_once_iterencode in H by lia. by injection H.
Qed.


Lemma prefix_app_split (p a b : str) :
  p `prefix_of` a ++ b ->
  cut_inside p a \/ exists p', p = a ++ p' /\ p' `prefix_of` b.
Proof.
  intros [k E]. symmetry in E. apply app_eq_app in E as [l [[-> ->]|[-> ->]]].
  - right. exists l. split; [done|]. by exists k.
  - destruct l as [|c l].
    + right. exists []. split; [by rewrite !app_nil_r|]. by exists b.
    + left. by exists (c :: l).
Qed.

Lemma cut_inside_app_split (p a b : str) :
  cut_inside p (a ++ b) ->
  cut_inside p a \/ exists p', p = a ++ p' /\ cut_inside p' b.
Proof.
  intros (k & E & Hk). symmetry in E. apply app_eq_app in E as [l [[-> ->]|[-> ->]]].
  - right. exists l. split; [done|]. by exists k.
  - destruct l as [|c l].
    + right. exists []. split; [by rewrite !app_nil_r|]. by exists b.
    + left. by exists (c :: l).
Qed.

Lemma cut_inside_prefix p s : cut_inside p s -> p `prefix_of` s.
Proof. intros (k & -> & _). by exists k. Qed.

Lemma scanstring_cut_escape c q :
  cut_inside q (escape_char c) -> scanstring q = None.
Proof.
  intros (k & E & Hk). unfold escape_char in E.
  destruct (N.eqb_spec c quote); [destruct q as [|? [|? [|]]]; cbn [app] in E; by simplify_eq|].
  destruct (N.eqb_spec c backslash); [destruct q as [|? [|? [|]]]; cbn [app] in E; by simplify_eq|].
  destruct (N.eqb_spec c 10); [destruct q as [|? [|? [|]]]; cbn [app] in E; by simplify_eq|].
  destruct (N.eqb_spec c 13); [destruct q as [|? [|? [|]]]; cbn [app] in E; by simplify_eq|].
  destruct (N.eqb_spec c 9); [destruct q as [|? [|? [|]]]; cbn [app] in E; by simplify_eq|].
  destruct (N.eqb_spec c 8); [destruct q as [|? [|? [|]]]; cbn [app] in E; by simplify_eq|].
  destruct (N.eqb_spec c 12); [destruct q as [|? [|? [|]]]; cbn [app] in E; by simplify_eq|].
  destruct (c <? 32).
  - unfold escape_u in E.
    destruct q as [|? [|? [|? [|? [|? [|? [|]]]]]]]; cbn [app] in E;
      simplify_eq; try done.
  - destruct q as [|? [|]]; cbn [app] in E; by simplify_eq.
Qed.

Lemma scanstring_prefix s q :
  q `prefix_of` flat_map escape_char s -> scanstring q = None.
Proof.
  revert q. induction s as [|c s IH]; intros q Hq.
  - apply prefix_nil_inv in Hq. by subst.
  - cbn [flat_map] in Hq. apply prefix_app_split in Hq as [Hq|(q' & -> & Hq')].
    + by apply scanstring_cut_escape in Hq.
    + rewrite scanstring_escape_char, (IH _ Hq'). done.
Qed.

Lemma scanstring_cut_basestring s q :
  cut_inside q (flat_map escape_char s ++ [quote]) -> scanstring q = None.
Proof.
  intros Hq. apply cut_inside_app_split in Hq as [Hq|(q' & -> & Hq')].
  - apply (scanstring_prefix s). by apply cut_inside_prefix.
  - destruct Hq' as (k & E & Hk). destruct q' as [|? [|]]; cbn [app] in E;
      simplify_eq.
    rewrite app_nil_r. by apply (scanstring_prefix s).
Qed.



Lemma scan_once_nil fuel : scan_once fuel [] = None.
Proof. by destruct fuel. Qed.

Lemma array_items_nil fuel : array_items fuel [] = None.
Proof. destruct fuel; [done|]. cbn. by rewrite scan_once_nil. Qed.

Lemma object_members_nil fuel : object_members fuel [] = None.
Proof. by destruct fuel. Qed.

Lemma cut_inside_snoc q s c : cut_inside q (s ++ [c]) -> q `prefix_of` s.
Proof.
  intros Hq. apply cut_inside_app_split in Hq as [Hq|(q' & -> & k & E & Hk)].
  - by apply cut_inside_prefix.
  - destruct q' as [|? [|]]; cbn [app] in E; simplify_eq.
    rewrite app_nil_r. done.
Qed.

Lemma cut_inside_cons q c s :
  cut_inside q (c :: s) -> q = [] \/ exists q', q = c :: q' /\ cut_inside q' s.
Proof.
  intros (k & E & Hk). destruct q as [|d q]; [by left|].
  cbn [app] in E. simplify_eq. right. exists q. split; [done|]. by exists k.
Qed.

Lemma prefix_cons_inv' (q : str) c s :
  q `prefix_of` c :: s -> q = [] \/ exists q', q = c :: q' /\ q' `prefix_of` s.
Proof.
  intros (k & E). destruct q as [|d q]; [by left|].
  cbn [app] in E. simplify_eq. right. exists q. split; [done|]. by exists k.
Qed.

Lemma skip_ws_all_ws w : Forall (fun c => is_ws c = true) w -> skip_ws w = [].
Proof.
  induction 1 as [|c w Hc Hw IH]; [done|]. unfold skip_ws in *.
  cbn [lstrip_with]. by rewrite Hc.
Qed.

Lemma newline_indent_ws ind lvl :
  Forall (fun c => is_ws c = true) (newline_indent ind lvl).
Proof.
  unfold newline_indent. constructor; [done|].
  induction (ind * lvl)%nat; cbn; by constructor.
Qed.

Lemma skip_ws_prefix_indent ind lvl (w : str) :
  w `prefix_of` newline_indent ind lvl -> skip_ws w = [].
Proof.
  intros (k & E). apply skip_ws_all_ws.
  pose proof (newline_indent_ws ind lvl) as H. rewrite E in H.
  by apply Forall_app in H as [H _].
Qed.

(** After an indent: nothing, or a part of what follows that is not empty. *)
Lemma skip_ws_prefix_indent_value ind lvl (q b : str) :
  starts_value b ->
  q `prefix_of` newline_indent ind lvl ++ b ->
  skip_ws q = []
  \/ exists c t, skip_ws q = c :: t /\ c :: t `prefix_of` b /\ value_start c = true.
Proof.
  intros (c & t & -> & Hc) Hq.
  apply prefix_app_split in Hq as [Hq|(q' & -> & Hq')].
  - left. eapply skip_ws_prefix_indent, cut_inside_prefix, Hq.
  - apply prefix_cons_inv' in Hq' as [->|(q'' & -> & Hq'')].
    + left. rewrite app_nil_r. by eapply skip_ws_prefix_indent.
    + right. exists c, q''. rewrite skip_ws_indent by (by apply value_start_not_ws).
      split_and!; try done. by apply prefix_cons.
Qed.

Lemma value_start_neq c d :
  value_start c = true -> value_start d = false -> (c =? d) = false.
Proof. intros Hc Hd. apply N.eqb_neq. intros ->. congruence. Qed.

Section Cut.
Variable ind : nat.

Lemma array_items_cut l :
  Forall (cut_fails ind) l -> l <> [] ->
  forall fuel lvl lvl' q,
    q `prefix_of` join_items (item_sep ind lvl) (map (iterencode ind lvl) l)
                  ++ newline_indent ind lvl' ->
    array_items fuel q = None.
Proof.
  induction 1 as [|x l Hx Hl IH]; [done|]. intros _ fuel lvl lvl' q Hq.
  destruct fuel as [|n]; [done|]. cbn [array_items].
  assert (Hhead : forall tail,
    q `prefix_of` iterencode ind lvl x ++ tail ->
    (forall w, w `prefix_of` tail ->
       match skip_ws w with
       | [] => None
       | c :: s1 =>
           if c =? rbracket then Some ([x], s1)
           else if c =? comma then
             q0 ← array_items n (skip_ws s1); Some (x :: q0.1, q0.2)
           else None
       end = None) ->
    scan_once n q ≫= (fun p =>
      match skip_ws p.2 with
      | [] => None
      | c :: s1 =>
          if c =? rbracket then Some ([p.1], s1)
          else if c =? comma then
            q0 ← array_items n (skip_ws s1); Some (p.1 :: q0.1, q0.2)
          else None
      end) = None).
  { intros tail Hq' Htail.
    apply prefix_app_split in Hq' as [Hin|(w & -> & Hw)].
    - by rewrite (Hx _ _ _ Hin).
    - destruct (scan_once n (iterencode ind lvl x ++ w)) as [r|] eqn:E; [|done].
      apply scan_once_sound in E as ->. cbn [mbind option_bind fst snd].
      by apply Htail. }
  destruct l as [|y l].
  - cbn [map join_items] in Hq. apply (Hhead _ Hq). intros w Hw.
    by rewrite (skip_ws_prefix_indent _ _ _ Hw).
  - change (join_items (item_sep ind lvl) (map (iterencode ind lvl) (x :: y :: l)))
      with (iterencode ind lvl x ++ item_sep ind lvl
            ++ join_items (item_sep ind lvl) (map (iterencode ind lvl) (y :: l)))
      in Hq.
    rewrite <- !app_assoc in Hq. apply (Hhead _ Hq). intros w Hw.
    unfold item_sep in Hw at 1. cbn [app] in Hw.
    apply prefix_cons_inv' in Hw as [->|(w' & -> & Hw')]; [done|].
    rewrite skip_ws_start by reflexivity.
    change (comma =? rbracket) with false. change (comma =? comma) with true.
    cbn iota.
    apply skip_ws_prefix_indent_value in Hw' as [->|(c & t & -> & Hp & Hc)].
    + by rewrite array_items_nil.
    + rewrite (IH ltac:(done) n lvl lvl' _ Hp). done.
    + destruct (join_items_start ind lvl (item_sep ind lvl) l y) as (c & t & E & Hc).
      exists c, (t ++ newline_indent ind lvl'). by rewrite E.
Qed.

Lemma object_members_cut m :
  Forall (fun kv => cut_fails ind kv.2) m -> m <> [] ->
  forall fuel lvl lvl' q,
    q `prefix_of` join_items (item_sep ind lvl) (map (member_chunk ind lvl) m)
                  ++ newline_indent ind lvl' ->
    object_members fuel q = None.
Proof.
  induction 1 as [|[k v] m Hx Hm IH]; [done|]. intros _ fuel lvl lvl' q Hq.
  cbn [snd] in Hx.
  destruct fuel as [|n]; [done|].
  assert (Hhead : forall tail,
    q `prefix_of` member_chunk ind lvl (k, v) ++ tail ->
    (forall w, w `prefix_of` tail ->
       match skip_ws w with
       | [] => None
       | c2 :: s3 =>
           if c2 =? rbrace then Some ([(k, v)], s3)
           else if c2 =? comma then
             q0 ← object_members n (skip_ws s3); Some ((k, v) :: q0.1, q0.2)
           else None
       end = None) ->
    object_members (S n) q = None).
  { intros tail Hq' Htail. unfold member_chunk, encode_basestring in Hq'.
    cbn [fst snd] in Hq'. rewrite <- !app_assoc in Hq'. cbn [app] in Hq'.
    apply prefix_cons_inv' in Hq' as [->|(q1 & -> & Hq1)]; [done|].
    cbn [object_members]. change (quote =? quote) with true. cbn iota.
    apply prefix_app_split in Hq1 as [Hin|(q2 & -> & Hq2)].
    { by rewrite (scanstring_prefix k q1 (cut_inside_prefix _ _ Hin)). }
    apply prefix_cons_inv' in Hq2 as [->|(q3 & -> & Hq3)].
    { rewrite app_nil_r. by rewrite (scanstring_prefix k _ (reflexivity _)). }
    rewrite scanstring_encode. cbn [mbind option_bind fst snd].
    apply prefix_cons_inv' in Hq3 as [->|(q4 & -> & Hq4)]; [done|].
    rewrite skip_ws_start by reflexivity.
    change (colon =? colon) with true. cbn iota.
    apply prefix_cons_inv' in Hq4 as [->|(q5 & -> & Hq5)];
      [by rewrite scan_once_nil|].
    change (skip_ws (space :: q5)) with (skip_ws q5).
    apply prefix_app_split in Hq5 as [Hin|(w & -> & Hw)].
    - destruct q5 as [|c t]; [by rewrite scan_once_nil|].
      destruct (iterencode_start ind lvl v) as (c' & t' & E & Hc).
      destruct Hin as (k' & Ek & Hk). rewrite E in Ek. cbn [app] in Ek.
      injection Ek as <- ->.
      rewrite skip_ws_start by (by apply value_start_not_ws).
      rewrite (Hx n lvl (c' :: t)); [done|]. exists k'. by rewrite E.
    - rewrite skip_ws_value by apply iterencode_start.
      destruct (scan_once n (iterencode ind lvl v ++ w)) as [r|] eqn:E; [|done].
      apply scan_once_sound in E as ->. cbn [mbind option_bind fst snd].
      by apply Htail. }
  destruct m as [|kv m].
  - cbn [map join_items] in Hq. apply (Hhead _ Hq). intros w Hw.
    by rewrite (skip_ws_prefix_indent _ _ _ Hw).
  - change (join_items (item_sep ind lvl) (map (member_chunk ind lvl) ((k, v) :: kv :: m)))
      with (member_chunk ind lvl (k, v) ++ item_sep ind lvl
            ++ join_items (item_sep ind lvl) (map (member_chunk ind lvl) (kv :: m)))
      in Hq.
    rewrite <- !app_assoc in Hq. apply (Hhead _ Hq). intros w Hw.
    unfold item_sep in Hw at 1. cbn [app] in Hw.
    apply prefix_cons_inv' in Hw as [->|(w' & -> & Hw')]; [done|].
    rewrite skip_ws_start by reflexivity.
    change (comma =? rbrace) with false. change (comma =? comma) with true.
    cbn iota.
    apply skip_ws_prefix_indent_value in Hw' as [->|(c & t & -> & Hp & Hc)].
    + by rewrite object_members_nil.
    + rewrite (IH ltac:(done) n lvl lvl' _ Hp). done.
    + destruct (member_chunks_start ind lvl (item_sep ind lvl) m kv) as (c & t & E & Hc).
      exists c, (t ++ newline_indent ind lvl'). by rewrite E.
Qed.

Theorem scan_once_cut v : cut_fails ind v.
Proof.
  induction v as [|s|l IH|m IH] using json_ind; intros fuel lvl p Hp;
    (destruct fuel as [|n]; [done|]).
  - destruct Hp as (k & E & Hk).
    change (iterencode ind lvl JNull) with [110; 117; 108; 108] in E.
    destruct p as [|? [|? [|? [|? [|]]]]]; cbn [app] in E; simplify_eq; done.
  - cbn [iterencode] in Hp. unfold encode_basestring in Hp. cbn [app] in Hp.
    apply cut_inside_cons in Hp as [->|(q & -> & Hq)]; [done|].
    cbn [scan_once]. change (quote =? quote) with true. cbn iota.
    by rewrite (scanstring_cut_basestring s q Hq).
  - destruct l as [|x l].
    { destruct Hp as (k & E & Hk). change (iterencode ind lvl (JArr [])) with [91; 93] in E.
      destruct p as [|? [|? [|]]]; cbn [app] in E; simplify_eq; done. }
    change (iterencode ind lvl (JArr (x :: l)))
      with ([lbracket] ++ newline_indent ind (S lvl)
            ++ join_items (item_sep ind (S lvl)) (map (iterencode ind (S lvl)) (x :: l))
            ++ newline_indent ind lvl ++ [rbracket]) in Hp.
    cbn [app] in Hp. apply cut_inside_cons in Hp as [->|(q & -> & Hq)]; [done|].
    rewrite !app_assoc in Hq. apply cut_inside_snoc in Hq.
    rewrite <- !app_assoc in Hq.
    cbn [scan_once].
    change (lbracket =? quote) with false. change (lbracket =? lbrace) with false.
    change (lbracket =? lbracket) with true. cbn iota.
    apply skip_ws_prefix_indent_value in Hq as [->|(c & t & -> & Hpre & Hc)]; [done| |].
    + rewrite (value_start_neq c rbracket Hc eq_refl).
      by rewrite (array_items_cut (x :: l) IH ltac:(done) n (S lvl) lvl _ Hpre).
    + destruct (join_items_start ind (S lvl) (item_sep ind (S lvl)) l x) as (c & t & E & Hc).
      exists c, (t ++ newline_indent ind lvl). by rewrite E.
  - destruct m as [|kv m].
    { destruct Hp as (k & E & Hk). change (iterencode ind lvl (JObj [])) with [123; 125] in E.
      destruct p as [|? [|? [|]]]; cbn [app] in E; simplify_eq; done. }
    change (iterencode ind lvl (JObj (kv :: m)))
      with ([lbrace] ++ newline_indent ind (S lvl)
            ++ join_items (item_sep ind (S lvl)) (map (member_chunk ind (S lvl)) (kv :: m))
            ++ newline_indent ind lvl ++ [rbrace]) in Hp.
    cbn [app] in Hp. apply cut_inside_cons in Hp as [->|(q & -> & Hq)]; [done|].
    rewrite !app_assoc in Hq. apply cut_inside_snoc in Hq.
    rewrite <- !app_assoc in Hq.
    cbn [scan_once].
    change (lbrace =? quote) with false. change (lbrace =? lbrace) with true.
    cbn iota.
    apply skip_ws_prefix_indent_value in Hq as [->|(c & t & -> & Hpre & Hc)]; [done| |].
    + rewrite (value_start_neq c rbrace Hc eq_refl).
      by rewrite (object_members_cut (kv :: m) IH ltac:(done) n (S lvl) lvl _ Hpre).
    + destruct (member_chunks_start ind (S lvl) (item_sep ind (S lvl)) m kv) as (c & t & E & Hc).
      exists c, (t ++ newline_indent ind lvl). by rewrite E.
Qed.

Theorem loads_cut v p : cut_inside p (dumps ind v) -> loads p = None.
Proof.
  intros Hp. unfold loads.
  destruct p as [|c t]; [reflexivity|].
  assert (Hc : value_start c = true).
  { destruct (iterencode_start ind 0 v) as (c' & t' & E & Hc).
    destruct Hp as (k & Ek & _). unfold dumps in Ek. rewrite E in Ek.
    cbn [app] in Ek. by injection Ek as <- _. }
  assert (startswith (c :: t) [65279] = false) as ->.
  { change (startswith (c :: t) [65279]) with ((65279 =? c) && true).
    rewrite andb_true_r, N.eqb_sym. by apply value_start_neq. }
  rewrite skip_ws_start by (by apply value_start_not_ws).
  by rewrite (scan_once_cut v _ 0%nat _ Hp).
Qed.

End Cut.

Lemma parse_record_cut rec p :
  cut_inside p (dumps 2 (json_of_record rec)) -> parse_record p = None.
Proof.
  intros Hp. unfold parse_record.
  rewrite universal_newlines_id.
  - by rewrite (loads_cut 2 _ _ Hp).
  - destruct Hp as (k & E & _).
    pose proof (iterencode_no_cr 2 (json_of_record rec) 0) as H.
    unfold dumps in E. rewrite E in H. by apply Forall_app in H as [H _].
Qed.

(** X14. A record file that holds only the beginning of what
    [save_record] writes for a record, down to the empty file, is not read
    as a record and not as a missing one: [load_record] raises, and so do
    [respond_form], for every submission, and [proof_page], both leaving
    the world as it is, the file included. *)
Theorem truncated_record_file_raises
    (tok : str) (w : world) (rec : record) (p : str)
    (req : request) (now : str) (smtp : channel) :
  files w !! record_path tok = Some p ->
  cut_inside p (dumps 2 (json_of_record rec)) ->
  load_record tok w = (Raise (lit "JSONDecodeError"), w)
  /\ respond_form tok req now smtp w = (Raise (lit "JSONDecodeError"), w)
  /\ proof_page cfg tok req w = (Raise (lit "JSONDecodeError"), w).
Proof.
  intros Hfile Hcut.
  assert (Hload : load_record tok w = (Raise (lit "JSONDecodeError"), w)).
  { unfold Server.load_record. by rewrite Hfile, (parse_record_cut rec p Hcut). }
  split_and!; [done| |].
  - unfold Server.respond_form, bind. by rewrite Hload.
  - unfold proof_page, bind. by rewrite Hload.
Qed.

(** *** The two directories *)

Lemma path_join_relative base x :
  startswith x [sep] = false ->
  path_join base x
  = (if negb (truthy base) || endswith base [sep] then base else base ++ [sep])
    ++ x.
Proof.
  intros Hx. unfold path_join. rewrite Hx.
  destruct (negb (truthy base) || endswith base [sep]); [done|].
  by rewrite <- app_assoc.
Qed.

Lemma not_elem_startswith x : sep ∉ x -> startswith x [sep] = false.
Proof.
  destruct x as [|c t]; [done|]. intros H.
  apply not_elem_of_cons in H as [Hc _].
  change (startswith (c :: t) [sep]) with ((sep =? c) && true).
  by rewrite (proj2 (N.eqb_neq _ _) Hc).
Qed.

Lemma record_path_stays_in_data_dir_aux (tok : str) :
  sep ∉ tok ->
  record_path tok = DATA_DIR cfg ++ [sep] ++ tok ++ lit ".json"
  /\ path_split (record_path tok) = (DATA_DIR cfg, tok ++ lit ".json").
Proof.
  intros Htok.
  assert (Hname : sep ∉ tok ++ lit ".json").
  { rewrite elem_of_app. intros [H|H]; [done|].
    vm_compute in H. repeat (apply elem_of_cons in H as [H|H]; [done|]).
    by apply elem_of_nil in H. }
  assert (Hdir : exists d, DATA_DIR cfg = d ++ [97]).
  { unfold DATA_DIR. rewrite path_join_relative by reflexivity.
    eexists (_ ++ lit "dat"). rewrite <- app_assoc. reflexivity. }
  destruct Hdir as (d & Hd).
  assert (Hpath : record_path tok = DATA_DIR cfg ++ [sep] ++ tok ++ lit ".json").
  { unfold Server.record_path. rewrite Hd. by apply path_join_inside. }
  assert (Hsplit : path_split (record_path tok) = (DATA_DIR cfg, tok ++ lit ".json")).
  { rewrite Hpath, Hd. by apply path_split_inside. }
  done.
Qed.


(** C7. A record written by [save_record] and read back by [load_record]
    under the same token is the record that was written, field for field,
    with its whole history and its status.  For a token that [open] takes
    and a record whose text the UTF-8 writer takes, [save_record] returns,
    the file [<token>.json] of [DATA_DIR] holds the text of
    [json.dumps(record, indent=2, ensure_ascii=False)], and the
    [load_record] that follows returns that record and leaves the world as
    it is. *)
Theorem save_then_load_roundtrip (tok : str) (rec : record) (w : world) :
  usable_token tok = true ->
  encodable (dumps 2 (json_of_record rec)) = true ->
  let r := save_record tok rec w in
  r.1 = Return tt
  /\ files r.2 !! (DATA_DIR cfg ++ [sep] ++ tok ++ lit ".json")
     = Some (dumps 2 (json_of_record rec))
  /\ load_record tok r.2 = (Return (Some rec), r.2).
Proof.
  intros Htok _ r. unfold r. rewrite save_record_eq.
  split; [reflexivity|]. split; [|apply load_saved].
  assert (Hsep : sep ∉ tok).
  { unfold usable_token in Htok. apply andb_prop in Htok as [Htok _].
    apply andb_prop in Htok as [Htok _]. intros Hin.
    rewrite forallb_forall in Htok. apply list_elem_of_In, Htok in Hin.
    by rewrite N.eqb_refl in Hin. }
  destruct (record_path_stays_in_data_dir_aux tok Hsep) as [<- _].
  unfold saved. cbn [snd files]. apply lookup_insert_eq.
Qed.

(** X15. For every token without a slash, as every token that Flask takes
    from a URL segment is, the record file is the file [<token>.json]
    directly inside [DATA_DIR]: the path is [DATA_DIR], one separator and
    that name, it splits into exactly these two, and the name is a file
    name, not [.] or [..]. *)
Theorem record_path_stays_in_data_dir (tok : str) :
  sep ∉ tok ->
  record_path tok = DATA_DIR cfg ++ [sep] ++ tok ++ lit ".json"
  /\ path_split (record_path tok) = (DATA_DIR cfg, tok ++ lit ".json")
  /\ names_directory (record_path tok) = false.
Proof.
  intros Htok.
  destruct (record_path_stays_in_data_dir_aux tok Htok) as [Hpath Hsplit].
  split_and!; try done.
  unfold names_directory. rewrite Hsplit. cbn [snd].
  apply bool_decide_eq_false_2. intros H.
  rewrite !elem_of_cons, elem_of_nil in H.
  change (lit ".json") with [46; 106; 115; 111; 110] in H.
  change (lit "..") with [46; 46] in H. change (lit ".") with [46] in H.
  destruct H as [H|[H|[H|[]]]]; apply (f_equal length) in H;
    rewrite length_app in H; cbn [length] in H; lia.
Qed.

Lemma uploads_no_trailing_sep b :
  negb (truthy (b ++ lit "uploads")) || endswith (b ++ lit "uploads") [sep] = false.
Proof.
  unfold endswith. rewrite rev_app_distr.
  assert (truthy (b ++ lit "uploads") = true) as -> by (by destruct b).
  reflexivity.
Qed.

(** X16. An uploaded file is never written over a record file: for a
    token drawn from a UUID and any name, the path [file.save] is given is
    not the record path of any token without a slash. *)
Theorem upload_path_is_no_record_path (uuid4_hex name tok' : str) :
  is_uuid_hex uuid4_hex = true ->
  sep ∉ tok' ->
  path_join (path_join (UPLOAD_DIR cfg) (take 12 uuid4_hex)) (safe_name_of name)
  <> record_path tok'.
Proof.
  intros Hhex Htok' E.
  destruct (token_dir_shape (UPLOAD_DIR cfg) uuid4_hex Hhex) as (d & c & Ed & Hc).
  destruct (safe_name_of_no_separator name) as [Hsep _].
  destruct (record_path_stays_in_data_dir_aux tok' Htok') as [_ Hsplit].
  rewrite Ed, (path_join_inside d c _ Hc Hsep) in E.
  rewrite <- E, (path_split_inside d c _ Hc Hsep) in Hsplit.
  injection Hsplit as Hdir _. rewrite <- Ed in Hdir. clear -Hdir Hhex.
  assert (Htok : startswith (take 12 uuid4_hex) [sep] = false).
  { unfold is_uuid_hex in Hhex. apply andb_prop in Hhex as [Hlen Hall].
    apply Nat.eqb_eq in Hlen.
    destruct uuid4_hex as [|x u]; [done|]. cbn [take forallb] in *.
    apply andb_prop in Hall as [Hx _].
    change (startswith (x :: take 11 u) [sep]) with ((sep =? x) && true).
    by rewrite (proj2 (N.eqb_neq _ _) (not_eq_sym (is_hex_digit_not_sep _ Hx))). }
  unfold UPLOAD_DIR, DATA_DIR in Hdir.
  rewrite (path_join_relative (BASE_DIR cfg) (lit "uploads")) in Hdir by reflexivity.
  rewrite (path_join_relative (BASE_DIR cfg) (lit "data")) in Hdir by reflexivity.
  rewrite (path_join_relative _ _ Htok) in Hdir.
  rewrite uploads_no_trailing_sep, <- !app_assoc in Hdir.
  apply app_inv_head in Hdir.
  vm_compute in Hdir. discriminate Hdir.
Qed.

(** *** From the upload to the notification *)

(** X17. The notification of a decision points where the upload pointed.
    After [upload_post] has answered with the page that carries the link,
    a valid submission for the token on that page, served under the same
    base URL and in a mode other than ["off"], ends with one [send_email]
    whose text and HTML body both hold that very link and whose subject
    holds the name on that page. *)
Theorem notification_carries_the_upload_link
    (up_req : request) (uuid4_hex up_now : str) (w : world)
    (link tok name : str) (req : request) (now : str) (smtp : channel) :
  is_uuid_hex uuid4_hex = true ->
  let up := upload_post up_req uuid4_hex up_now w in
  up.1 = Return (uploaded_html true None (Some link) (Some tok) (Some name)) ->
  valid_submission req ->
  EMAIL_MODE cfg <> lit "off" ->
  base_url cfg req = base_url cfg up_req ->
  exists subject html text,
    last (calls (respond_form tok req now smtp up.2).2)
    = Some (SendEmail subject html text)
    /\ occurs_in link text
    /\ occurs_in link html
    /\ occurs_in name subject.
Proof.
  intros Hhex up Hup Hvalid Hmode Hbase.
  destruct (upload_post_answered up_req uuid4_hex up_now w link tok name Hhex Hup)
    as (f & _ & _ & _ & Hlink & Hload & _).
  fold up in Hload.
  destruct (respond_form_valid_world tok req now smtp up.2 _ Hload Hvalid)
    as (warning & E & _).
  rewrite (str_eqb_false _ _ Hmode) in E.
  eexists _, _, _. rewrite E. cbn [snd calls].
  split.
  { rewrite last_app. reflexivity. }
  unfold email_body. cbn [fst snd decided token original_name]. rewrite Hbase, Hlink.
  split_and!; find_occurrence.
Qed.

(** X18. [api_upload] takes the name from the form field [original_name]
    when the request has one, and the [.pdf] test is not applied to it:
    whatever file name the field gives, when [file.save] takes the path it
    makes, is the record's original name and, separators replaced, the name
    the bytes are stored under.  A field that names no file (empty, [.] or
    [..]) and a path that [file.save] does not take make the handler raise
    with no record and no file written.  Without the field, [api_upload]
    leaves exactly the world [upload_post] leaves. *)
Theorem api_upload_names_the_file_after_the_form_field
    (req : request) (f : file_storage) (uuid4_hex now : str) (w : world) :
  files_file req = Some f ->
  not_a_pdf unicode_lower (Some f) = false ->
  is_uuid_hex uuid4_hex = true ->
  let tok := take 12 uuid4_hex in
  let name := default (filename f) (form_original_name req) in
  let pdf_path := path_join (path_join (UPLOAD_DIR cfg) tok) (safe_name_of name) in
  let r := api_upload req uuid4_hex now w in
  (form_original_name req = None -> r.2 = (upload_post req uuid4_hex now w).2)
  /\ (safe_name_of name ∉ [[]; lit "."; lit ".."] ->
      save_error f pdf_path = None ->
      r.1 = Return (api_json_ok tok (base_url cfg req ++ lit "/proof/" ++ tok))
      /\ (load_record tok r.2).1
         = Return (Some (Record_ tok name (safe_name_of name) (now ++ lit "Z")
                           (lit "pending") []))
      /\ pdf_path = path_join (UPLOAD_DIR cfg) tok ++ [sep] ++ safe_name_of name
      /\ blobs r.2 !! pdf_path = Some (content f))
  /\ (safe_name_of name ∈ [[]; lit "."; lit ".."] ->
      r.1 = Raise (lit "IsADirectoryError")
      /\ files r.2 = files w /\ blobs r.2 = blobs w)
  /\ (forall e,
        safe_name_of name ∉ [[]; lit "."; lit ".."] ->
        save_error f pdf_path = Some e ->
        r.1 = Raise e /\ files r.2 = files w /\ blobs r.2 = blobs w).
Proof.
  intros Hfile Hpdf Hhex tok name pdf_path r.
  assert (Er : r = let s := store_upload f name uuid4_hex now w in
                   match s.1 with
                   | Return rec =>
                       (Return (api_json_ok (token rec)
                                  (base_url cfg req ++ lit "/proof/" ++ token rec)),
                        s.2)
                   | Raise e => (Raise e, s.2)
                   end).
  { unfold r, Server.api_upload. rewrite Hfile, Hpdf. unfold bind. fold name.
    cbv zeta. by destruct (store_upload f name uuid4_hex now w) as [[rec|e] w1]. }
  cbv zeta in Er.
  pose proof (store_upload_inside f name uuid4_hex now w Hhex)
    as (_ & _ & _ & Hpath & _ & _ & Hdir & Herr & Hok).
  cbv zeta in Hpath, Hdir, Herr, Hok. fold tok pdf_path in Hpath, Hdir, Herr, Hok.
  split_and!.
  - intros Hnone. unfold r, name, Server.api_upload, Server.upload_post.
    rewrite Hfile, Hpdf, Hnone. cbn [default]. unfold bind.
    by destruct (store_upload f (filename f) uuid4_hex now w) as [[rec|e] w1].
  - intros Hname He. destruct (Hok Hname He) as (Hret & Hblob & Hload & _).
    rewrite Er. rewrite Hret. cbn [fst snd token]. done.
  - intros Hname. by rewrite Er, (Hdir Hname).
  - intros e Hname He. by rewrite Er, (Herr e Hname He).
Qed.

Lemma respond_form_other_token tok tok' req now smtp w :
  segment tok -> segment tok' -> tok' <> tok ->
  (load_record tok (respond_form tok' req now smtp w).2).1 = (load_record tok w).1.
Proof.
  intros Hseg Hseg' Hne.
  assert (Hpath : record_path tok' <> record_path tok).
  { intros E. by apply Hne, record_path_inj. }
  destruct (respond_form_files_exact tok' req now smtp w) as [H|(r & _ & _ & H)].
  - by apply load_record_files.
  - by eapply load_record_saved_other; [right; exact H|].
Qed.

(** X19. The history is the run of valid submissions.  Starting from an
    existing record and after any run of submissions for any tokens, valid
    or not and whatever the channels do, the record is there, its history
    is the one before followed by the events of exactly the valid
    submissions for its token, in the order they came, and its status is
    the decision of the last of them; with none of them the record is as
    it was. *)
Theorem history_is_the_run_of_valid_submissions
    (tok : str) (subs : list submission) (w : world) (rec : record) :
  (load_record tok w).1 = Return (Some rec) ->
  segment tok ->
  Forall (fun s => segment (sub_token s)) subs ->
  let w' :=
    after_submissions cfg unicode_lower unicode_upper
      FuturesTimeout_is_TimeoutError subs w in
  let events := events_for unicode_lower tok subs in
  exists rec',
    (load_record tok w').1 = Return (Some rec')
    /\ responses rec' = responses rec ++ events
    /\ (events = [] -> rec' = rec)
    /\ (forall ev, last events = Some ev -> status rec' = decision ev).
Proof.
  intros Hload Hseg Hsubs. cbv zeta. revert w rec Hload.
  induction Hsubs as [|s subs Hs _ IH]; intros w rec Hload.
  - exists rec. cbn. rewrite app_nil_r. split_and!; try done.
  - cbn [after_submissions]. unfold events_for.
    destruct (decide (sub_token s = tok /\ valid_submission (sub_request s)))
      as [[Htok Hvalid]|Hnot].
    + rewrite filter_cons_True by done. cbn [map]. rewrite Htok.
      destruct (respond_form_valid_world tok (sub_request s) (sub_now s)
                  (sub_channel s) w rec Hload Hvalid) as (warning & E & _).
      set (ev := submitted_event (sub_request s) (sub_now s)) in *.
      assert (Hload' : (load_record tok
                          (respond_form tok (sub_request s) (sub_now s)
                             (sub_channel s) w).2).1
                       = Return (Some (decided rec ev))).
      { apply (load_after_save _ _ w). by rewrite E. }
      destruct (IH _ _ Hload') as (rec' & Hl & Hr & Hnone & Hlast).
      exists rec'. fold (events_for unicode_lower tok subs) in *.
      split_and!; [done| |done|].
      * rewrite Hr. cbn [decided responses]. by rewrite <- app_assoc.
      * intros ev'. destruct (events_for unicode_lower tok subs) as [|e l] eqn:El.
        -- cbn. intros [= <-]. by rewrite (Hnone eq_refl).
        -- intros H. apply Hlast. exact H.
    + rewrite filter_cons_False by done.
      assert (Hload' : (load_record tok
                          (respond_form (sub_token s) (sub_request s) (sub_now s)
                             (sub_channel s) w).2).1
                       = Return (Some rec)).
      { destruct (decide (sub_token s = tok)) as [Htok|Htok].
        - rewrite respond_form_invalid_world; [done|]. intros Hv. by apply Hnot.
        - rewrite respond_form_other_token; done. }
      apply (IH _ _ Hload').
Qed.

End Properties.

(** * The theorems at concrete inputs *)

(** C1 at the world reached by one upload and one rejection. *)
Lemma status_is_derived_from_history_witness :
  let w := (respond cfg_async tok0
              (decision_request "Rejected" "blurry" "http://proofs.example/")
              (lit "2024-05-02T09:30:00") silent_channel (uploaded cfg_async)).2 in
  exists rec,
    (load_record cfg_async tok0 w).1 = Return (Some rec)
    /\ status rec = lit "rejected"
    /\ status rec = derived_status (responses rec).
Proof.
  intros w. eexists. split; [vm_compute; reflexivity|].
  split; [vm_compute; reflexivity|].
  apply (status_is_derived_from_history cfg_async no_case_mapping
           no_case_mapping true w tok0).
  - eapply reachable_step;
      [eapply reachable_step; [apply reachable_initial|apply step_upload_post]
      |apply step_respond_form].
  - vm_compute. reflexivity.
Defined.

(** C2: a rejection, then an approval, of the uploaded record. *)
Lemma valid_submission_appends_event_witness :
  let r1 := respond cfg_async tok0
              (decision_request "rejected" "blurry" "http://proofs.example/")
              (lit "2024-05-02T09:30:00") silent_channel (uploaded cfg_async) in
  let r2 := respond cfg_async tok0
              (decision_request "approved" "" "http://proofs.example/")
              (lit "2024-05-03T08:00:00") silent_channel r1.2 in
  exists rec2,
    (load_record cfg_async tok0 r2.2).1 = Return (Some rec2)
    /\ length (responses rec2) = 2%nat
    /\ status rec2 = lit "approved".
Proof.
  intros r1 r2.
  destruct (valid_submission_appends_event cfg_async no_case_mapping
              no_case_mapping true tok0 (uploaded cfg_async) rec0
              (decision_request "rejected" "blurry" "http://proofs.example/")
              (lit "2024-05-02T09:30:00") silent_channel
              (decision_request "approved" "" "http://proofs.example/")
              (lit "2024-05-03T08:00:00") silent_channel)
    as [_ (warning & rec2 & _ & Hload & _ & _ & Hlen & Hstatus)].
  - vm_compute. reflexivity.
  - right. split; [vm_compute; reflexivity|vm_compute; discriminate].
  - left. vm_compute. reflexivity.
  - exists rec2. split; [exact Hload|]. split; [exact (Hlen eq_refl)|].
    rewrite Hstatus. vm_compute. reflexivity.
Defined.

(** C3: ["maybe"], and a rejection whose comment is blank. *)
Lemma invalid_submission_rejected_unchanged_witness :
  respond cfg_async tok0 (decision_request "maybe" "fine" "http://proofs.example/")
    (lit "2024-05-02T09:30:00") silent_channel (uploaded cfg_async)
  = (Return (InvalidDecision tok0 rec0), uploaded cfg_async)
  /\ respond cfg_async tok0 (decision_request "rejected" "   " "http://proofs.example/")
       (lit "2024-05-02T09:30:00") silent_channel (uploaded cfg_async)
     = (Return (CommentRequired tok0 rec0), uploaded cfg_async).
Proof.
  split.
  - apply (invalid_submission_rejected_unchanged cfg_async no_case_mapping
             no_case_mapping true tok0 _ _ silent_channel (uploaded cfg_async) rec0).
    + vm_compute. reflexivity.
    + vm_compute. discriminate.
    + vm_compute. discriminate.
  - apply (invalid_submission_rejected_unchanged cfg_async no_case_mapping
             no_case_mapping true tok0 _ _ silent_channel (uploaded cfg_async) rec0).
    + vm_compute. reflexivity.
    + vm_compute. reflexivity.
    + vm_compute. reflexivity.
Defined.

(** C4: an unknown token and an invalid decision, on the empty store. *)
Lemma unknown_token_record_not_found_witness :
  respond cfg_async tok0 (decision_request "maybe" "" "http://proofs.example/")
    (lit "2024-05-02T09:30:00") silent_channel initial_world
  = (Return (RecordNotFound tok0), initial_world).
Proof.
  apply (unknown_token_record_not_found cfg_async no_case_mapping
           no_case_mapping true).
  vm_compute. reflexivity.
Defined.

(** C5: the channel never answers; the call succeeds with the background
    warning. *)
Lemma notification_failure_is_a_warning_witness :
  let req := decision_request "approved" "" "http://proofs.example/" in
  let slow := respond cfg_async tok0 req (lit "2024-05-02T09:30:00")
                silent_channel (uploaded cfg_async) in
  let refused := respond cfg_async tok0 req (lit "2024-05-02T09:30:00")
                   refusing_channel (uploaded cfg_async) in
  exists rec',
    slow.1
    = Return (Recorded tok0 rec'
                (lit "Email is sending in background (timeout 10s)."))
    /\ (load_record cfg_async tok0 slow.2).1 = Return (Some rec')
    /\ refused.1
       = Return (Recorded tok0 rec'
                   (lit "Email send failed (smtp.example.com:587): Connection refused"))
    /\ (load_record cfg_async tok0 refused.2).1 = Return (Some rec').
Proof.
  intros req slow refused.
  destruct (notification_failure_is_a_warning cfg_async no_case_mapping
              no_case_mapping true tok0 req (lit "2024-05-02T09:30:00")
              silent_channel (uploaded cfg_async) rec0)
    as (warning1 & Hr1 & _ & Hload1 & _ & _ & Hasync1 & _).
  - vm_compute. reflexivity.
  - left. vm_compute. reflexivity.
  - destruct (notification_failure_is_a_warning cfg_async no_case_mapping
                no_case_mapping true tok0 req (lit "2024-05-02T09:30:00")
                refusing_channel (uploaded cfg_async) rec0)
      as (warning2 & Hr2 & _ & Hload2 & _ & _ & Hasync2 & _).
    + vm_compute. reflexivity.
    + left. vm_compute. reflexivity.
    + assert (Hoff : EMAIL_MODE cfg_async <> lit "off") by (vm_compute; discriminate).
      assert (Hsync : EMAIL_MODE cfg_async <> lit "sync") by (vm_compute; discriminate).
      destruct (Hasync1 Hoff Hsync) as (Hrunning & _).
      destruct (Hasync2 Hoff Hsync) as (_ & Hfailed & _).
      rewrite (Hrunning None eq_refl) in Hr1.
      rewrite (Hfailed _ eq_refl) in Hr2.
      eexists. split; [exact Hr1|]. split; [exact Hload1|].
      split; [exact Hr2|exact Hload2].
Defined.

(** C7 at a record with a history whose comment holds a quote, a line
    break and characters outside ASCII. *)
Lemma save_then_load_roundtrip_witness :
  let rec :=
    decided rec0
      (Event (lit "2024-05-02T09:30:00Z") (lit "rejected")
         (lit "too dark" ++ [34; 10; 233; 128512]) (lit "Ann")
         (lit "ann@example.com") (Some (lit "10.0.0.7"))) in
  let r := save_record cfg_async tok0 rec initial_world in
  r.1 = Return tt /\ load_record cfg_async tok0 r.2 = (Return (Some rec), r.2).
Proof.
  intros rec r.
  destruct (save_then_load_roundtrip cfg_async tok0 rec initial_world)
    as (Hret & _ & Hload).
  - vm_compute. reflexivity.
  - vm_compute. reflexivity.
  - split; [exact Hret|exact Hload].
Defined.

(** C8: the mode is ["off"]. *)
Lemma mode_off_sends_nothing_witness :
  let r := respond cfg_off tok0
             (decision_request "approved" "" "http://proofs.example/")
             (lit "2024-05-02T09:30:00") silent_channel (uploaded cfg_off) in
  exists rec',
    r.1 = Return (Recorded tok0 rec' [])
    /\ calls r.2 = calls (uploaded cfg_off) ++ [SaveRecord tok0 rec'].
Proof.
  intros r.
  destruct (mode_off_sends_nothing cfg_off no_case_mapping no_case_mapping true
              tok0 (decision_request "approved" "" "http://proofs.example/")
              (lit "2024-05-02T09:30:00") silent_channel (uploaded cfg_off) rec0)
    as (Hr & Hcalls & _).
  - vm_compute. reflexivity.
  - vm_compute. reflexivity.
  - left. vm_compute. reflexivity.
  - eexists. split; [exact Hr|exact Hcalls].
Defined.

(** C9: ["APPROVED"] is stored as ["approved"]. *)
Lemma decision_is_case_insensitive_witness :
  let r := respond cfg_async tok0
             (decision_request "APPROVED" "" "http://proofs.example/")
             (lit "2024-05-02T09:30:00") silent_channel (uploaded cfg_async) in
  exists rec',
    (load_record cfg_async tok0 r.2).1 = Return (Some rec')
    /\ status rec' = lit "approved".
Proof.
  intros r.
  destruct (decision_is_case_insensitive cfg_async no_case_mapping
              no_case_mapping true tok0
              (decision_request "APPROVED" "" "http://proofs.example/")
              (lit "2024-05-02T09:30:00") silent_channel (uploaded cfg_async) rec0
              (lit "APPROVED"))
    as [(warning & rec' & ev & _ & Hload & _ & _ & Hstatus & _) _].
  - vm_compute. reflexivity.
  - reflexivity.
  - left. vm_compute. reflexivity.
  - exists rec'. split; [exact Hload|]. rewrite Hstatus. vm_compute. reflexivity.
Defined.

(** C10: the upload of ["a/b\c.PDF"]. *)
Lemma stored_name_stays_in_token_dir_witness :
  let w' := uploaded cfg_async in
  let refused :=
    upload_post cfg_async no_case_mapping long_name_request uuid0
      (lit "2024-05-01T10:00:00") initial_world in
  safe_name_of (lit "a/b\c.PDF") = lit "a_b_c.PDF"
  /\ blobs w' !! lit "/srv/app/uploads/0123456789ab/a_b_c.PDF"
     = Some [37; 80; 68; 70]
  /\ path_split (lit "/srv/app/uploads/0123456789ab/a_b_c.PDF")
     = (lit "/srv/app/uploads/0123456789ab", lit "a_b_c.PDF")
  /\ refused.1 = Raise (lit "OSError")
  /\ files refused.2 = files initial_world
  /\ blobs refused.2 = blobs initial_world.
Proof.
  intros w' refused.
  destruct (stored_name_stays_in_token_dir cfg_async no_case_mapping
              upload_request pdf0 uuid0 (lit "2024-05-01T10:00:00") initial_world)
    as [(_ & _ & _ & _ & Hsplit & _ & Hsaved & Hreturns & _) [Hname _]].
  - reflexivity.
  - vm_compute. reflexivity.
  - vm_compute. reflexivity.
  - destruct (stored_name_stays_in_token_dir cfg_async no_case_mapping
                long_name_request long_pdf uuid0 (lit "2024-05-01T10:00:00")
                initial_world)
      as [(_ & _ & _ & _ & _ & _ & _ & _ & Hraise) _].
    + reflexivity.
    + vm_compute. reflexivity.
    + vm_compute. reflexivity.
    + assert (Hr : refused.1 = Raise (lit "OSError")) by (vm_compute; reflexivity).
      destruct (Hraise _ Hr) as (Hfiles & Hblobs & _).
      destruct (Hsaved (ex_intro _ _ (Hreturns Hname eq_refl))) as (_ & _ & _ & Hblob & _).
      split; [vm_compute; reflexivity|]. split; [exact Hblob|].
      split; [exact Hsplit|]. split; [exact Hr|]. split; [exact Hfiles|exact Hblobs].
Defined.

(** C6, the claim as stated: the same record and event, composed while
    serving requests for two hosts, give two different messages. *)
Lemma email_body_depends_on_request_host :
  let ev := Event (lit "2024-05-02T09:30:00Z") (lit "approved") [] [] [] None in
  email_body cfg_async no_case_mapping (empty_request "http://proofs.example/")
    rec0 (decision ev) ev
  <> email_body cfg_async no_case_mapping (empty_request "http://evil.example/")
       rec0 (decision ev) ev.
Proof. vm_compute. discriminate. Qed.

(** C6 as amended: two requests with the same host. *)
Lemma email_body_fixed_by_inputs_and_base_url_witness :
  let ev := Event (lit "2024-05-02T09:30:00Z") (lit "approved") [] [] [] None in
  email_body cfg_async no_case_mapping
    (decision_request "approved" "" "http://proofs.example/") rec0 (decision ev) ev
  = email_body cfg_async no_case_mapping (empty_request "http://proofs.example/")
      rec0 (decision ev) ev.
Proof.
  intros ev.
  pose proof (email_body_fixed_by_inputs_and_base_url cfg_async no_case_mapping
                (empty_request "http://proofs.example/")
                (decision_request "approved" "" "http://proofs.example/")
                rec0 (decision ev) ev eq_refl) as H.
  cbv zeta in H.
  destruct (email_body cfg_async no_case_mapping
              (empty_request "http://proofs.example/") rec0 (decision ev) ev)
    as [[subject html] text].
  exact (proj1 H).
Defined.

(** * The SMTP session of [send_email] *)

Section SmtpProperties.

Import Smtp.

Variable cfg : config.
Variable mail : mail_config.
Variable srv : server.
Variable date subject html text : str.

Ltac step_session :=
  repeat match goal with
  | |- context [srv ?h] =>
      let E := fresh "E" in destruct (srv h) as [?|] eqn:E
  end.

(** X11. Whatever the server does, the calls of one [send_email] start
    with the constructor for the configured transport, host, port and
    timeout; a login is made only with the configured user and password
    and only when a user is configured; only the message built from the
    arguments is sent; with [SMTP_SSL] neither [ehlo] nor [starttls] is
    called; and [send_email] returns normally only after the calls ended
    with that message and [__exit__], the login before it when a user is
    configured. *)
Theorem send_email_calls_are_in_order :
  let msg := build_message mail date subject html text in
  let run := send_email cfg mail srv date subject html text [] in
  head run.2
  = Some (connect (SMTP_SSL mail) (SMTP_HOST cfg) (SMTP_PORT cfg) (SMTP_TIMEOUT cfg))
  /\ (forall user password,
        login user password ∈ run.2 ->
        user = SMTP_USER mail /\ password = SMTP_PASS mail /\ SMTP_USER mail <> [])
  /\ (forall m, send_message m ∈ run.2 -> m = msg)
  /\ (SMTP_SSL mail = true -> (ehlo ∉ run.2) /\ (starttls ∉ run.2))
  /\ (run.1 = Done tt ->
      exists before,
        run.2 = before ++ [send_message msg; exit]
        /\ (send_message msg ∉ before)
        /\ (SMTP_USER mail <> [] ->
            exists setup, before = setup ++ [login (SMTP_USER mail) (SMTP_PASS mail)])).
Proof.
  cbv zeta.
  unfold Smtp.send_email, with_smtp, seq, try_pass, login_if_user, call, pass.
  destruct (SMTP_SSL mail), (SMTP_USER mail) as [|u0 user] eqn:Euser;
    cbn [truthy app]; step_session; cbn [fst snd head app];
    (split_and!;
     [ reflexivity
     | intros ? ? H; repeat (apply elem_of_cons in H as [H|H]; [try discriminate H|]);
       try (by apply elem_of_nil in H); try (injection H as -> ->; done)
     | intros ? H; repeat (apply elem_of_cons in H as [H|H]; [try discriminate H|]);
       try (by apply elem_of_nil in H); try (by injection H as ->)
     | intros Hssl; try discriminate Hssl;
       split; intros H; repeat (apply elem_of_cons in H as [H|H]; [discriminate H|]);
       by apply elem_of_nil in H
     | intros Hdone; try discriminate Hdone ]).
  all: match goal with
       | |- exists before, ?l = _ /\ _ =>
           exists (take (length l - 2) l); cbn [length Nat.sub take]
       end;
       (split; [reflexivity|]); split;
       [ intros H; repeat (apply elem_of_cons in H as [H|H]; [discriminate H|]);
         by apply elem_of_nil in H
       | intros Hu; try done;
         match goal with
         | |- exists setup, ?l = _ =>
             exists (take (length l - 1) l); reflexivity
         end ].
Qed.

Lemma send_email_returns_if_only_starttls_raises :
  (forall h, srv h <> None -> last h = Some starttls) ->
  (send_email cfg mail srv date subject html text []).1 = Done tt.
Proof.
  intros Honly.
  assert (Hnone : forall h c, c <> starttls -> srv (h ++ [c]) = None).
  { intros h c Hc. destruct (srv (h ++ [c])) eqn:E; [|done].
    assert (Hl : last (h ++ [c]) = Some starttls) by (apply Honly; by rewrite E).
    rewrite last_snoc in Hl. by injection Hl. }
  unfold Smtp.send_email, with_smtp, seq, try_pass, login_if_user, call, pass.
  destruct (SMTP_SSL mail), (truthy (SMTP_USER mail));
    repeat (rewrite Hnone by discriminate; cbn [fst snd]);
    try reflexivity;
    destruct (srv (_ ++ [starttls])); cbn [fst snd];
    repeat (rewrite Hnone by discriminate; cbn [fst snd]); reflexivity.
Qed.

(** X12. Without [SMTP_SSL], a [starttls] that raises does not end the
    session: the exception is dropped, no second [ehlo] and no second
    [starttls] follow, and the next call on the same connection is the
    login with the configured user and password when a user is configured
    and else the sending of the message. *)
Theorem refused_starttls_is_swallowed (e : exn) :
  let msg := build_message mail date subject html text in
  let run := send_email cfg mail srv date subject html text [] in
  SMTP_SSL mail = false ->
  let c0 := connect false (SMTP_HOST cfg) (SMTP_PORT cfg) (SMTP_TIMEOUT cfg) in
  srv [c0] = None ->
  srv [c0; ehlo] = None ->
  srv [c0; ehlo; starttls] = Some e ->
  exists rest,
    run.2 = [c0; ehlo; starttls] ++ rest
    /\ head rest
       = Some (if truthy (SMTP_USER mail)
               then login (SMTP_USER mail) (SMTP_PASS mail)
               else send_message msg)
    /\ (ehlo ∉ rest) /\ (starttls ∉ rest).
Proof.
  intros msg run Hssl c0 H0 H1 H2. subst msg run.
  unfold Smtp.send_email, with_smtp, seq, try_pass, login_if_user, call, pass.
  rewrite Hssl. fold c0. cbn [app]. rewrite H0. cbn [app]. rewrite H1.
  cbn [app]. rewrite H2.
  destruct (truthy (SMTP_USER mail)); cbn [app]; step_session; cbn [fst snd];
    (eexists; split; [reflexivity|]; split; [reflexivity|];
     split; intros H; repeat (apply elem_of_cons in H as [H|H]; [discriminate H|]);
     by apply elem_of_nil in H).
Qed.

(** X20. [send_email] stops at the first error and closes what it opened.
    When the constructor raises, it is the only call and its exception is
    the one raised.  When it returns, [__exit__] is called exactly once and
    last, and an exception of [__exit__] is the one raised.  A [login], a
    [send_message] or the first [ehlo] that raises is followed by
    [__exit__] only: no message is sent after a failed login, and
    [send_email] raises, with that exception when [__exit__] returns. *)
Theorem send_email_stops_at_the_first_error_and_closes :
  let msg := build_message mail date subject html text in
  let run := send_email cfg mail srv date subject html text [] in
  let c0 :=
    connect (SMTP_SSL mail) (SMTP_HOST cfg) (SMTP_PORT cfg) (SMTP_TIMEOUT cfg) in
  (forall e, srv [c0] = Some e -> run = (Raised e, [c0]))
  /\ (srv [c0] = None ->
      exists body,
        run.2 = c0 :: body ++ [exit]
        /\ (exit ∉ body)
        /\ (forall e, srv run.2 = Some e -> run.1 = Raised e))
  /\ (forall pre c post,
        run.2 = pre ++ c :: post ->
        srv (pre ++ [c]) <> None ->
        (exists u p, c = login u p) \/ (exists m, c = send_message m)
        \/ (c = ehlo /\ pre = [c0]) ->
        post = [exit]
        /\ exists e, run.1 = Raised e
                     /\ (srv run.2 = None -> srv (pre ++ [c]) = Some e)).
Proof.
  cbv zeta.
  unfold Smtp.send_email, with_smtp, seq, try_pass, login_if_user, call, pass.
  destruct (SMTP_SSL mail), (truthy (SMTP_USER mail));
    repeat (cbn [fst snd app];
            match goal with
            | |- context [srv ?h] =>
                let E := fresh "E" in destruct (srv h) as [?|] eqn:E
            end);
    cbn [fst snd app].
  all: split_and!;
    [ intros ? He; try discriminate He; by injection He as ->
    | intros Hc;
      first
        [ discriminate Hc
        | match goal with
          | |- exists body, _ :: ?l = _ /\ _ =>
              exists (take (length l - 1) l); cbn [length Nat.sub take app]
          end;
          split; [reflexivity|]; split;
          [ intros H; repeat (apply elem_of_cons in H as [H|H]; [discriminate H|]);
            by apply elem_of_nil in H
          | intros ? He; congruence ] ]
    | ].
  all: intros pre c post Hrun Hraise Hkind.
  all: repeat (destruct pre as [|? pre]; cbn [app] in Hrun;
               [|try discriminate Hrun]).
  all: try discriminate Hrun.
  all: simplify_eq; cbn [app] in *; try congruence.
  all: try (destruct Hkind as [(? & ? & ?)|[(? & ?)|(? & ?)]]; discriminate).
  all: split; [reflexivity|]; eexists; split; [reflexivity|]; intros; congruence.
Qed.

End SmtpProperties.

(** X13. A mail server that refuses [STARTTLS], and nothing else, is not
    noticed by the reviewer: with the channel that runs [send_email]
    against it, the session ending within the wait, a valid submission on
    an existing record is answered by the recorded page with the empty
    warning, in every mode. *)
Theorem refused_starttls_leaves_no_warning
    (cfg : config) (unicode_lower unicode_upper : str -> str)
    (FuturesTimeout_is_TimeoutError : bool)
    (mail : Smtp.mail_config) (srv : Smtp.server) (date : str)
    (tok : str) (req : request) (now : str) (w : world) (rec : record) :
  (forall h, srv h <> None -> last h = Some Smtp.starttls) ->
  (load_record cfg tok w).1 = Return (Some rec) ->
  valid_submission unicode_lower req ->
  (respond_form cfg unicode_lower unicode_upper FuturesTimeout_is_TimeoutError
     tok req now (Smtp.channel_of cfg mail srv date) w).1
  = Return (Recorded tok (decided rec (submitted_event unicode_lower req now)) []).
Proof.
  intros Honly Hload Hvalid.
  destruct (respond_form_valid_world cfg unicode_lower unicode_upper
              FuturesTimeout_is_TimeoutError tok req now
              (Smtp.channel_of cfg mail srv date) w rec Hload Hvalid)
    as (warning & E & Hw).
  rewrite E. cbn [fst]. f_equal. f_equal.
  destruct (str_eqb (EMAIL_MODE cfg) (lit "off")); [done|].
  destruct Hw as (_ & Hgood & _). apply Hgood.
  unfold Smtp.channel_of.
  by rewrite send_email_returns_if_only_starttls_raises.
Qed.

(** * The further properties at concrete inputs *)

Lemma reachable_rejected_once (cfg : config) :
  reachable cfg no_case_mapping no_case_mapping true (rejected_once cfg).
Proof.
  eapply reachable_step;
    [eapply reachable_step; [apply reachable_initial|apply step_upload_post]
    |apply step_respond_form].
Qed.

Lemma stored_history_is_well_formed_witness :
  exists rec,
    (load_record cfg_async tok0 (rejected_once cfg_async)).1 = Return (Some rec)
    /\ length (responses rec) = 1%nat
    /\ Forall event_well_formed (responses rec).
Proof.
  eexists. split; [vm_compute; reflexivity|]. split; [vm_compute; reflexivity|].
  apply (stored_history_is_well_formed cfg_async no_case_mapping no_case_mapping
           true (rejected_once cfg_async) tok0).
  - apply reachable_rejected_once.
  - vm_compute. reflexivity.
Defined.

Lemma stored_name_is_always_safe_witness :
  exists rec,
    (load_record cfg_async tok0 (rejected_once cfg_async)).1 = Return (Some rec)
    /\ original_name rec = lit "a/b\c.PDF"
    /\ stored_name rec = map underscore_separators (original_name rec)
    /\ (sep ∉ stored_name rec) /\ (backslash ∉ stored_name rec).
Proof.
  eexists. split; [vm_compute; reflexivity|]. split; [vm_compute; reflexivity|].
  apply (stored_name_is_always_safe cfg_async no_case_mapping no_case_mapping
           true (rejected_once cfg_async) tok0).
  - apply reachable_rejected_once.
  - vm_compute. reflexivity.
Defined.

Lemma stored_token_is_its_key_witness :
  exists rec,
    (load_record cfg_async tok0 (rejected_once cfg_async)).1 = Return (Some rec)
    /\ record_path cfg_async (token rec) = record_path cfg_async tok0.
Proof.
  eexists. split; [vm_compute; reflexivity|].
  apply (stored_token_is_its_key cfg_async no_case_mapping no_case_mapping
           true (rejected_once cfg_async) tok0).
  - apply reachable_rejected_once.
  - vm_compute. reflexivity.
Defined.

Lemma respond_form_only_appends_witness :
  exists rec',
    (load_record cfg_async tok0 (rejected_once cfg_async)).1 = Return (Some rec')
    /\ original_name rec' = original_name rec0
    /\ stored_name rec' = stored_name rec0.
Proof.
  destruct (respond_form_only_appends cfg_async no_case_mapping no_case_mapping
              true tok0
              (decision_request "Rejected" "blurry" "http://proofs.example/")
              (lit "2024-05-02T09:30:00") silent_channel (uploaded cfg_async) rec0)
    as (rec' & Hload & _ & Hname & Hstored & _).
  - vm_compute. reflexivity.
  - exists rec'. split; [exact Hload|]. split; [exact Hname|exact Hstored].
Defined.

Lemma other_tokens_are_untouched_witness :
  (load_record cfg_async tok0
     (upload_post cfg_async no_case_mapping upload_request
        (lit "ffffffffffffffffffffffffffffffff") (lit "2024-05-04T12:00:00")
        (rejected_once cfg_async)).2).1
  = (load_record cfg_async tok0 (rejected_once cfg_async)).1.
Proof.
  apply (other_tokens_are_untouched cfg_async no_case_mapping no_case_mapping
           true (lit "ffffffffffff") tok0 upload_request
           (lit "ffffffffffffffffffffffffffffffff") (lit "2024-05-04T12:00:00")
           silent_channel (rejected_once cfg_async)).
  - vm_compute. reflexivity.
  - vm_compute. reflexivity.
  - vm_compute. discriminate.
  - vm_compute. reflexivity.
Defined.

Lemma upload_accepts_pdf_names_only_witness :
  upload_post cfg_async no_case_mapping
    (empty_request "http://proofs.example/") uuid0 (lit "2024-05-01T10:00:00")
    initial_world
  = (Return (uploaded_html false (Some (lit "Please choose a .pdf file."))
               None None None), initial_world).
Proof.
  apply (upload_accepts_pdf_names_only cfg_async no_case_mapping
           (empty_request "http://proofs.example/") uuid0
           (lit "2024-05-01T10:00:00") initial_world).
  vm_compute. reflexivity.
Defined.

Lemma uploaded_proof_stays_viewable_witness :
  proof_page cfg_async tok0 (empty_request "http://proofs.example/")
    (rejected_once cfg_async)
  = (Return (proof_html tok0 (lit "a/b\c.PDF") (tok0, lit "a_b_c.PDF")
               (lit "http://proofs.example")),
     rejected_once cfg_async).
Proof.
  apply (uploaded_proof_stays_viewable cfg_async no_case_mapping no_case_mapping
           true upload_request uuid0 (lit "2024-05-01T10:00:00") initial_world
           (lit "http://proofs.example/proof/0123456789ab") tok0 (lit "a/b\c.PDF")
           [Submission tok0
              (decision_request "Rejected" "blurry" "http://proofs.example/")
              (lit "2024-05-02T09:30:00") silent_channel]
           (empty_request "http://proofs.example/")).
  - vm_compute. reflexivity.
  - vm_compute. reflexivity.
Defined.

Lemma warning_is_empty_iff_nothing_went_wrong_witness :
  exists rec',
    (respond cfg_async tok0
       (decision_request "approved" "" "http://proofs.example/")
       (lit "2024-05-02T09:30:00") sending_channel (uploaded cfg_async)).1
    = Return (Recorded tok0 rec' []).
Proof.
  destruct (warning_is_empty_iff_nothing_went_wrong cfg_async no_case_mapping
              no_case_mapping true tok0
              (decision_request "approved" "" "http://proofs.example/")
              (lit "2024-05-02T09:30:00") sending_channel (uploaded cfg_async) rec0)
    as (warning & Hr & Hw).
  - vm_compute. reflexivity.
  - left. vm_compute. reflexivity.
  - eexists. rewrite <- (proj2 Hw (or_intror eq_refl)). exact Hr.
Defined.

Lemma failed_send_with_timeout_error_is_reported_as_background_witness :
  exists rec',
    (respond cfg_async tok0
       (decision_request "approved" "" "http://proofs.example/")
       (lit "2024-05-02T09:30:00") timing_out_channel (uploaded cfg_async)).1
    = Return (Recorded tok0 rec'
                (lit "Email is sending in background (timeout 10s).")).
Proof.
  eexists.
  apply (failed_send_with_timeout_error_is_reported_as_background cfg_async
           no_case_mapping no_case_mapping true tok0
           (decision_request "approved" "" "http://proofs.example/")
           (lit "2024-05-02T09:30:00") timing_out_channel (uploaded cfg_async)
           rec0 (Exn true (lit "timed out"))).
  - vm_compute. reflexivity.
  - left. vm_compute. reflexivity.
  - vm_compute. discriminate.
  - reflexivity.
  - vm_compute. discriminate.
  - reflexivity.
  - reflexivity.
Defined.

Lemma base_url_is_host_without_trailing_slashes_witness :
  endswith (base_url cfg_async (empty_request "http://proofs.example//")) [sep]
  = false
  /\ base_url cfg_async (empty_request "") = lit "http://127.0.0.1:5000".
Proof.
  split.
  - apply (base_url_is_host_without_trailing_slashes cfg_async
             (empty_request "http://proofs.example//")).
    reflexivity.
  - apply (base_url_is_host_without_trailing_slashes cfg_async (empty_request ""));
      reflexivity.
Defined.

Lemma send_email_calls_are_in_order_witness :
  exists before,
    (Smtp.send_email cfg_async mail0 no_starttls (lit "Thu, 02 May 2024 09:30:00 +0000")
       (lit "subject") (lit "<p>html</p>") (lit "text") []).2
    = before
      ++ [Smtp.send_message
            (Smtp.build_message mail0 (lit "Thu, 02 May 2024 09:30:00 +0000")
               (lit "subject") (lit "<p>html</p>") (lit "text"));
          Smtp.exit].
Proof.
  destruct (send_email_calls_are_in_order cfg_async mail0 no_starttls
              (lit "Thu, 02 May 2024 09:30:00 +0000")
              (lit "subject") (lit "<p>html</p>") (lit "text"))
    as (_ & _ & _ & _ & Hdone).
  destruct Hdone as (before & Hcalls & _); [vm_compute; reflexivity|].
  exists before. exact Hcalls.
Defined.

Lemma refused_starttls_is_swallowed_witness :
  exists rest,
    (Smtp.send_email cfg_async mail0 no_starttls (lit "Thu, 02 May 2024 09:30:00 +0000")
       (lit "subject") (lit "<p>html</p>") (lit "text") []).2
    = [Smtp.connect false (lit "smtp.example.com") 587 10; Smtp.ehlo; Smtp.starttls]
      ++ rest
    /\ head rest = Some (Smtp.login (lit "mailer") (lit "secret")).
Proof.
  destruct (refused_starttls_is_swallowed cfg_async mail0 no_starttls
              (lit "Thu, 02 May 2024 09:30:00 +0000")
              (lit "subject") (lit "<p>html</p>") (lit "text")
              (Exn false (lit "STARTTLS extension not supported by server.")))
    as (rest & Hcalls & Hhead & _).
  - reflexivity.
  - reflexivity.
  - reflexivity.
  - reflexivity.
  - exists rest. split; [exact Hcalls|exact Hhead].
Defined.

Lemma refused_starttls_leaves_no_warning_witness :
  exists rec',
    (respond cfg_async tok0
       (decision_request "approved" "" "http://proofs.example/")
       (lit "2024-05-02T09:30:00")
       (Smtp.channel_of cfg_async mail0 no_starttls
          (lit "Thu, 02 May 2024 09:30:00 +0000"))
       (uploaded cfg_async)).1
    = Return (Recorded tok0 rec' []).
Proof.
  eexists.
  apply (refused_starttls_leaves_no_warning cfg_async no_case_mapping
           no_case_mapping true mail0 no_starttls
           (lit "Thu, 02 May 2024 09:30:00 +0000") tok0
           (decision_request "approved" "" "http://proofs.example/")
           (lit "2024-05-02T09:30:00") (uploaded cfg_async) rec0).
  - intros h Hh. unfold no_starttls in Hh.
    destruct (last h) as [[]|]; congruence.
  - vm_compute. reflexivity.
  - left. vm_compute. reflexivity.
Defined.

Lemma truncated_record_file_raises_witness :
  load_record cfg_async tok0 (cut_short cfg_async)
  = (Raise (lit "JSONDecodeError"), cut_short cfg_async)
  /\ proof_page cfg_async tok0 (empty_request "http://proofs.example/")
       (cut_short cfg_async)
     = (Raise (lit "JSONDecodeError"), cut_short cfg_async).
Proof.
  destruct (truncated_record_file_raises cfg_async no_case_mapping
              no_case_mapping true tok0 (cut_short cfg_async) rec0
              (take 40 (dumps 2 (json_of_record rec0)))
              (empty_request "http://proofs.example/")
              (lit "2024-05-02T09:30:00") silent_channel)
    as (Hload & _ & Hpage).
  - vm_compute. reflexivity.
  - exists (drop 40 (dumps 2 (json_of_record rec0))).
    split; [symmetry; apply take_drop|vm_compute; discriminate].
  - split; [exact Hload|exact Hpage].
Defined.

Lemma record_path_stays_in_data_dir_witness :
  record_path cfg_async tok0 = lit "/srv/app/data/0123456789ab.json"
  /\ path_split (record_path cfg_async tok0)
     = (lit "/srv/app/data", lit "0123456789ab.json").
Proof.
  destruct (record_path_stays_in_data_dir cfg_async tok0) as (Hpath & Hsplit & _).
  - apply (bool_decide_unpack _). vm_compute. exact I.
  - split; [rewrite Hpath|rewrite Hsplit]; vm_compute; reflexivity.
Defined.

Lemma upload_path_is_no_record_path_witness :
  path_join (path_join (UPLOAD_DIR cfg_async) tok0) (lit "a_b_c.PDF")
  <> record_path cfg_async tok0.
Proof.
  apply (upload_path_is_no_record_path cfg_async uuid0 (lit "a/b\c.PDF") tok0).
  - vm_compute. reflexivity.
  - apply (bool_decide_unpack _). vm_compute. exact I.
Defined.

Lemma notification_carries_the_upload_link_witness :
  exists subject html text,
    last (calls (respond cfg_async tok0
                   (decision_request "approved" "" "http://proofs.example/")
                   (lit "2024-05-02T09:30:00") sending_channel
                   (uploaded cfg_async)).2)
    = Some (SendEmail subject html text)
    /\ occurs_in (lit "http://proofs.example/proof/0123456789ab") text
    /\ occurs_in (lit "http://proofs.example/proof/0123456789ab") html.
Proof.
  destruct (notification_carries_the_upload_link cfg_async no_case_mapping
              no_case_mapping true upload_request uuid0
              (lit "2024-05-01T10:00:00") initial_world
              (lit "http://proofs.example/proof/0123456789ab") tok0
              (lit "a/b\c.PDF")
              (decision_request "approved" "" "http://proofs.example/")
              (lit "2024-05-02T09:30:00") sending_channel)
    as (subject & html & text & Hlast & Htext & Hhtml & _).
  - vm_compute. reflexivity.
  - vm_compute. reflexivity.
  - left. vm_compute. reflexivity.
  - vm_compute. discriminate.
  - vm_compute. reflexivity.
  - exists subject, html, text. split; [exact Hlast|]. split; [exact Htext|exact Hhtml].
Defined.

Lemma api_upload_names_the_file_after_the_form_field_witness :
  (load_record cfg_async tok0
     (api_upload cfg_async no_case_mapping api_request uuid0
        (lit "2024-05-01T10:00:00") initial_world).2).1
  = Return (Some (Record_ tok0 (lit "notes/today.txt") (lit "notes_today.txt")
                    (lit "2024-05-01T10:00:00Z") (lit "pending") [])).
Proof.
  apply (api_upload_names_the_file_after_the_form_field cfg_async no_case_mapping
           api_request scan_pdf uuid0 (lit "2024-05-01T10:00:00") initial_world).
  - reflexivity.
  - vm_compute. reflexivity.
  - vm_compute. reflexivity.
  - apply (bool_decide_unpack _). vm_compute. exact I.
  - reflexivity.
Defined.

Lemma history_is_the_run_of_valid_submissions_witness :
  exists rec',
    (load_record cfg_async tok0
       (after_submissions cfg_async no_case_mapping no_case_mapping true run0
          (uploaded cfg_async))).1
    = Return (Some rec')
    /\ length (responses rec') = 2%nat
    /\ status rec' = lit "approved".
Proof.
  destruct (history_is_the_run_of_valid_submissions cfg_async no_case_mapping
              no_case_mapping true tok0 run0 (uploaded cfg_async) rec0)
    as (rec' & Hload & Hresp & _ & Hlast).
  - vm_compute. reflexivity.
  - vm_compute. reflexivity.
  - repeat (apply List.Forall_cons; [vm_compute; reflexivity|]).
    apply List.Forall_nil.
  - exists rec'. split; [exact Hload|]. split.
    + rewrite Hresp. vm_compute. reflexivity.
    + erewrite Hlast; [|vm_compute; reflexivity]. vm_compute. reflexivity.
Defined.

Lemma send_email_stops_at_the_first_error_and_closes_witness :
  exists e,
    (Smtp.send_email cfg_async mail0 refusing_login
       (lit "Thu, 02 May 2024 09:30:00 +0000")
       (lit "subject") (lit "<p>html</p>") (lit "text") []).1
    = Smtp.Raised e.
Proof.
  destruct (send_email_stops_at_the_first_error_and_closes cfg_async mail0
              refusing_login (lit "Thu, 02 May 2024 09:30:00 +0000")
              (lit "subject") (lit "<p>html</p>") (lit "text"))
    as (_ & _ & Hstop).
  destruct (Hstop
              [Smtp.connect false (lit "smtp.example.com") 587 10; Smtp.ehlo;
               Smtp.starttls; Smtp.ehlo]
              (Smtp.login (lit "mailer") (lit "secret")) [Smtp.exit])
    as (_ & e & He & _).
  - vm_compute. reflexivity.
  - vm_compute. discriminate.
  - left. eexists _, _. reflexivity.
  - exists e. exact He.
Defined.
